(** * Tower Defense: combat and wave scheduling

    A shallow embedding of the simulation core of the Tower Defense game
    (Enemy, Tower, Projectile, WaveManager, EconomyManager, the map and the
    frames of Game), with the properties of its specification.

    Conventions of the embedding.
    - JavaScript numbers are rationals [Q].  The rounding of doubles is
      written, as [double], where a discrete result hangs on it: in the
      arguments of [Math.floor] (the splash damage, the amounts of the
      economy) and in the loops that normalise an angle, which a rounded
      subtraction may never leave.  Elsewhere the arithmetic is exact: the
      properties stated there either do not depend on the rounding or are
      stated for whole numbers, which doubles hold exactly.  [Infinity] and
      [NaN] appear only in the wave statistics, which use the extended
      numbers of [JsNum]; elsewhere a division is the division of [Q], and
      the divisors (path length, segment lengths, projectile speed, splash
      radius) are positive in every configuration of the game.
    - [Math.sqrt], [Math.atan2], [Math.cos], [Math.sin] and [double] are
      taken from a [MathLib] interface; the properties hold for every
      implementation, the doubles of IEEE 754 among them.
    - A loop that may not end is followed for a number of tests, [fuel]:
      the result is [None], and the call [Hangs], when it is still running
      after them.
    - [Date.now()] and [Math.random()] are read from an explicit
      environment handed to each call.
    - Objects shared by reference (the enemies) live in a heap addressed by
      [ref]; the arrays of enemies that towers and projectiles receive are
      lists of references.
    - Rendering code and fields read by rendering only (colours, trails,
      identifiers printed in logs) are left out. *)

From Stdlib Require Import QArith Qround Qpower ZArith List Bool Lia Lqa.
From Stdlib Require Import Sorted Permutation Floats.
Import ListNotations.
Local Open Scope Q_scope.

(** ** Numbers *)

Definition Qleb (x y : Q) : bool := Qle_bool x y.
Definition Qltb (x y : Q) : bool := negb (Qle_bool y x).

Definition Math_max (x y : Q) : Q := if Qleb x y then y else x.
Definition Math_min (x y : Q) : Q := if Qleb x y then x else y.
Definition Math_abs (x : Q) : Q := if Qltb x 0 then - x else x.
Definition Math_sign (x : Q) : Q :=
  if Qltb 0 x then 1 else if Qltb x 0 then -1 else 0.
Definition Math_floor (x : Q) : Q := inject_Z (Qfloor x).

(** A whole number of at most [2 ^ 53] in size.  Doubles hold these
    numbers exactly, and add and subtract them exactly as long as the
    result is one of them. *)
Definition whole (x : Q) : Prop :=
  exists z : Z, (Z.abs z <= 2 ^ 53)%Z /\ x == inject_Z z.

(** [Math.PI] is the double nearest to pi. *)
Definition Math_PI : Q := 884279719003555 # 281474976710656.

(** What the engine computes in doubles: the transcendental part of
    [Math], and [double], the double nearest to a number.  A product, a
    quotient, a sum or a difference of JavaScript is [double] of the exact
    one, and a literal such as [0.7] is [double 0.7].  The model writes
    [double] where a discrete result hangs on the rounding: under a
    [Math.floor] and in the rotation of a tower, whose loops normalise an
    angle.  Of the rounding the interface holds what the properties use:
    equal rationals have equal doubles, rounding keeps the order and
    commutes with the change of sign, the whole numbers below [2 ^ 53] in
    size and [Math.PI] are doubles, and a double rounded down is a double.
    The rounding of IEEE 754, [ieee_double] below, is so:
    [Doubles.ieee_doubles_exist]. *)
Class MathLib := {
  Math_sqrt : Q -> Q;
  Math_atan2 : Q -> Q -> Q;
  Math_cos : Q -> Q;
  Math_sin : Q -> Q;
  double : Q -> Q;
  double_comp : forall x y : Q, x == y -> double x == double y;
  double_monotone : forall x y : Q, x <= y -> double x <= double y;
  double_whole : forall z : Z,
    (Z.abs z < 2 ^ 53)%Z -> double (inject_Z z) == inject_Z z;
  double_floor : forall x : Q,
    double (Math_floor (double x)) == Math_floor (double x);
  double_opp : forall x : Q, double (- x) == - double x;
  double_PI : double Math_PI == Math_PI
}.

(** An implementation for running the model on examples.  The square root
    is exact on squares of non-negative rationals (proved below as
    [sqrt_table_of_square]); elsewhere it rounds numerator and denominator
    down.  [atan2] is exact on the four axis directions, and [cos] and [sin]
    on the angles 0, PI/2, -PI/2 and PI; elsewhere these tables have no
    entry and answer 0.  The examples call the tables at listed arguments
    only. *)
Definition sqrt_table (q : Q) : Q :=
  let r := Qred q in Z.sqrt (Qnum r) # Pos.sqrt (Qden r).

Definition atan2_table (y x : Q) : Q :=
  if Qeq_bool y 0 then (if Qltb x 0 then Math_PI else 0)
  else if Qeq_bool x 0 then (if Qltb 0 y then Math_PI / 2 else - (Math_PI / 2))
  else 0.

Definition cos_table (a : Q) : Q :=
  if Qeq_bool a 0 then 1
  else if Qeq_bool (Math_abs a) Math_PI then -1
  else 0.

Definition sin_table (a : Q) : Q :=
  if Qeq_bool a (Math_PI / 2) then 1
  else if Qeq_bool a (- (Math_PI / 2)) then -1
  else 0.

(** In the tables every number is a double, and the arithmetic is exact. *)
Definition table_math : MathLib :=
  {| Math_sqrt := sqrt_table; Math_atan2 := atan2_table;
     Math_cos := cos_table; Math_sin := sin_table;
     double := fun x => x;
     double_comp := fun x y E => E;
     double_monotone := fun x y H => H;
     double_whole := fun z _ => Qeq_refl (inject_Z z);
     double_floor := fun x => Qeq_refl (Math_floor x);
     double_opp := fun x => Qeq_refl (- x);
     double_PI := Qeq_refl Math_PI |}.

(** The doubles of IEEE 754.  [ieee_double x] is the binary64 number
    nearest to [x], ties to the even mantissa; the exponent is not bounded,
    so that underflow and overflow are left out.  For a positive [x] of the
    binade [2 ^ e <= x < 2 ^ (e + 1)] it is [x / 2 ^ (e - 52)] rounded to
    the nearest whole number, times [2 ^ (e - 52)]. *)
Definition binade (x : Q) : Z :=
  let e0 := (Z.log2 (Qnum x) - Z.log2 (Zpos (Qden x)))%Z in
  if Qle_bool (2 ^ e0) x then e0 else (e0 - 1)%Z.

Definition nearest_even (t : Q) : Z :=
  let f := Qfloor t in
  match Qcompare (t - inject_Z f) (1 # 2) with
  | Lt => f
  | Gt => (f + 1)%Z
  | Eq => if Z.even f then f else (f + 1)%Z
  end.

Definition round_positive (x : Q) : Q :=
  let e := binade x in
  inject_Z (nearest_even (x * 2 ^ (52 - e))) * 2 ^ (e - 52).

Definition round_nearest (x : Q) : Q :=
  match Qcompare x 0 with
  | Eq => 0
  | Gt => round_positive x
  | Lt => - round_positive (- x)
  end.

Definition ieee_double (x : Q) : Q := Qred (round_nearest x).

(** An implementation computes in the doubles of IEEE 754, with the
    tables. *)
Definition ieee_doubles (M : MathLib) : Prop :=
  @double M = ieee_double /\ @Math_sqrt M = sqrt_table /\
  @Math_atan2 M = atan2_table /\ @Math_cos M = cos_table /\
  @Math_sin M = sin_table.

(** The value of a finite binary64 number of the kernel, for comparing
    [ieee_double] with it. *)
Definition float_value (f : float) : Q :=
  match Prim2SF f with
  | S754_finite s m e => inject_Z (if s then Z.neg m else Z.pos m) * (2 ^ e)
  | _ => 0
  end.

(** ** helpers.js *)

Record Point := { px : Q; py : Q }.

Module Helpers.
Section WithMath.
Context {M : MathLib}.

Definition distance (x1 y1 x2 y2 : Q) : Q :=
  let dx := x2 - x1 in
  let dy := y2 - y1 in
  Math_sqrt (dx * dx + dy * dy).

Definition angleBetween (x1 y1 x2 y2 : Q) : Q :=
  Math_atan2 (y2 - y1) (x2 - x1).

End WithMath.

Definition lerp (start end_ t : Q) : Q := start + (end_ - start) * t.

Definition clamp (value min max : Q) : Q := Math_min (Math_max value min) max.

Definition CANVAS_WIDTH : Q := 800.
Definition CANVAS_HEIGHT : Q := 600.

Definition isWithinBounds (x y : Q) : bool :=
  Qleb 0 x && Qltb x CANVAS_WIDTH && Qleb 0 y && Qltb y CANVAS_HEIGHT.

End Helpers.

(** ** pathData.js *)

Module PathData.
Import Helpers.

Definition PATH_COORDINATES : list Point :=
  [ {| px := -20; py := 300 |}; {| px := 100; py := 300 |};
    {| px := 200; py := 300 |}; {| px := 200; py := 200 |};
    {| px := 200; py := 150 |}; {| px := 400; py := 150 |};
    {| px := 500; py := 150 |}; {| px := 500; py := 250 |};
    {| px := 500; py := 350 |}; {| px := 650; py := 350 |};
    {| px := 700; py := 350 |}; {| px := 700; py := 250 |};
    {| px := 700; py := 200 |}; {| px := 820; py := 200 |} ].

Record PathPos := { pos_x : Q; pos_y : Q; pos_angle : Q }.

Section WithMath.
Context {M : MathLib}.

(** The loop [for (i = 1; i < length; i++)] over consecutive waypoints. *)
Fixpoint lengthFrom (prev : Point) (rest : list Point) (totalLength : Q) : Q :=
  match rest with
  | [] => totalLength
  | curr :: rest' =>
      lengthFrom curr rest'
        (totalLength + distance (px prev) (py prev) (px curr) (py curr))
  end.

Definition calculatePathLength : Q :=
  match PATH_COORDINATES with
  | [] => 0
  | p0 :: rest => lengthFrom p0 rest 0
  end.

Fixpoint findSegment (prev : Point) (rest : list Point)
    (currentDistance targetDistance : Q) : option PathPos :=
  match rest with
  | [] => None
  | curr :: rest' =>
      let segmentLength := distance (px prev) (py prev) (px curr) (py curr) in
      if Qleb targetDistance (currentDistance + segmentLength) then
        let segmentProgress := (targetDistance - currentDistance) / segmentLength in
        Some {| pos_x := lerp (px prev) (px curr) segmentProgress;
                pos_y := lerp (py prev) (py curr) segmentProgress;
                pos_angle := angleBetween (px prev) (py prev) (px curr) (py curr) |}
      else findSegment curr rest' (currentDistance + segmentLength) targetDistance
  end.

Definition origin : Point := {| px := 0; py := 0 |}.

Definition getPositionOnPath (progress : Q) : PathPos :=
  let progress := clamp progress 0 1 in
  let n := length PATH_COORDINATES in
  let start := nth 0 PATH_COORDINATES origin in
  let next := nth 1 PATH_COORDINATES origin in
  let end_ := nth (n - 1) PATH_COORDINATES origin in
  let prev := nth (n - 2) PATH_COORDINATES origin in
  if Qeq_bool progress 0 then
    {| pos_x := px start; pos_y := py start;
       pos_angle := angleBetween (px start) (py start) (px next) (py next) |}
  else if Qeq_bool progress 1 then
    {| pos_x := px end_; pos_y := py end_;
       pos_angle := angleBetween (px prev) (py prev) (px end_) (py end_) |}
  else
    let totalLength := calculatePathLength in
    let targetDistance := progress * totalLength in
    match findSegment start (tl PATH_COORDINATES) 0 targetDistance with
    | Some p => p
    | None =>
        {| pos_x := px end_; pos_y := py end_;
           pos_angle := angleBetween (px prev) (py prev) (px end_) (py end_) |}
    end.

End WithMath.
End PathData.

(** ** Enemy.js *)

Inductive EnemyKind := BASIC | TANK | FAST.

Module Enemy.
Import Helpers PathData.

Record Config := {
  cfg_health : Q; cfg_maxHealth : Q; cfg_speed : Q; cfg_reward : Q;
  cfg_size : Q; cfg_pathSpeed : Q
}.

Definition ENEMY_TYPES (k : EnemyKind) : Config :=
  match k with
  | BASIC => {| cfg_health := 100; cfg_maxHealth := 100; cfg_speed := 60;
                cfg_reward := 10; cfg_size := 20; cfg_pathSpeed := 1 |}
  | TANK => {| cfg_health := 300; cfg_maxHealth := 300; cfg_speed := 30;
               cfg_reward := 25; cfg_size := 25; cfg_pathSpeed := 0.8 |}
  | FAST => {| cfg_health := 60; cfg_maxHealth := 60; cfg_speed := 120;
               cfg_reward := 15; cfg_size := 18; cfg_pathSpeed := 1.5 |}
  end.

Record t := {
  type : EnemyKind;
  health : Q;
  maxHealth : Q;
  speed : Q;
  pathSpeed : Q;
  reward : Q;
  size : Q;
  position : Point;
  pathProgress : Q;
  direction : Point;
  angle : Q;
  alive : bool;
  reachedEnd : bool;
  markedForRemoval : bool;
  damageFlash : Q
}.

Definition set_health (v : Q) (e : t) : t :=
  {| type := type e; health := v; maxHealth := maxHealth e; speed := speed e;
     pathSpeed := pathSpeed e; reward := reward e; size := size e;
     position := position e; pathProgress := pathProgress e;
     direction := direction e; angle := angle e; alive := alive e;
     reachedEnd := reachedEnd e; markedForRemoval := markedForRemoval e;
     damageFlash := damageFlash e |}.

Definition set_damageFlash (v : Q) (e : t) : t :=
  {| type := type e; health := health e; maxHealth := maxHealth e; speed := speed e;
     pathSpeed := pathSpeed e; reward := reward e; size := size e;
     position := position e; pathProgress := pathProgress e;
     direction := direction e; angle := angle e; alive := alive e;
     reachedEnd := reachedEnd e; markedForRemoval := markedForRemoval e;
     damageFlash := v |}.

Definition set_alive (v : bool) (e : t) : t :=
  {| type := type e; health := health e; maxHealth := maxHealth e; speed := speed e;
     pathSpeed := pathSpeed e; reward := reward e; size := size e;
     position := position e; pathProgress := pathProgress e;
     direction := direction e; angle := angle e; alive := v;
     reachedEnd := reachedEnd e; markedForRemoval := markedForRemoval e;
     damageFlash := damageFlash e |}.

Definition set_reachedEnd (v : bool) (e : t) : t :=
  {| type := type e; health := health e; maxHealth := maxHealth e; speed := speed e;
     pathSpeed := pathSpeed e; reward := reward e; size := size e;
     position := position e; pathProgress := pathProgress e;
     direction := direction e; angle := angle e; alive := alive e;
     reachedEnd := v; markedForRemoval := markedForRemoval e;
     damageFlash := damageFlash e |}.

Definition set_pathProgress (v : Q) (e : t) : t :=
  {| type := type e; health := health e; maxHealth := maxHealth e; speed := speed e;
     pathSpeed := pathSpeed e; reward := reward e; size := size e;
     position := position e; pathProgress := v;
     direction := direction e; angle := angle e; alive := alive e;
     reachedEnd := reachedEnd e; markedForRemoval := markedForRemoval e;
     damageFlash := damageFlash e |}.

(** The three assignments of [updatePositionFromPath] at once. *)
Definition set_placement (p : Point) (a : Q) (d : Point) (e : t) : t :=
  {| type := type e; health := health e; maxHealth := maxHealth e; speed := speed e;
     pathSpeed := pathSpeed e; reward := reward e; size := size e;
     position := p; pathProgress := pathProgress e;
     direction := d; angle := a; alive := alive e;
     reachedEnd := reachedEnd e; markedForRemoval := markedForRemoval e;
     damageFlash := damageFlash e |}.

Section WithMath.
Context {M : MathLib}.

Definition updatePositionFromPath (e : t) : t :=
  let pathData := getPositionOnPath (pathProgress e) in
  set_placement {| px := pos_x pathData; py := pos_y pathData |}
    (pos_angle pathData)
    {| px := Math_cos (pos_angle pathData); py := Math_sin (pos_angle pathData) |}
    e.

(** [new Enemy(type)] *)
Definition new (k : EnemyKind) : t :=
  let config := ENEMY_TYPES k in
  updatePositionFromPath
    {| type := k; health := cfg_health config; maxHealth := cfg_maxHealth config;
       speed := cfg_speed config; pathSpeed := cfg_pathSpeed config;
       reward := cfg_reward config; size := cfg_size config;
       position := {| px := 0; py := 0 |}; pathProgress := 0;
       direction := {| px := 1; py := 0 |}; angle := 0;
       alive := true; reachedEnd := false; markedForRemoval := false;
       damageFlash := 0 |}.

Definition move (deltaTime : Q) (e : t) : t :=
  if negb (alive e) || reachedEnd e then e
  else
    let moveDistance := (speed e * pathSpeed e * deltaTime) / 1000 in
    let totalPathLength := calculatePathLength in
    let progressIncrement := moveDistance / totalPathLength in
    let e := set_pathProgress (pathProgress e + progressIncrement) e in
    let e := set_pathProgress (clamp (pathProgress e) 0 1) e in
    updatePositionFromPath e.

Definition checkEndReached (e : t) : t :=
  if Qleb 1 (pathProgress e) then set_alive false (set_reachedEnd true e)
  else e.

Definition updateVisualEffects (deltaTime : Q) (e : t) : t :=
  if Qltb 0 (damageFlash e) then
    let e := set_damageFlash (damageFlash e - deltaTime) e in
    if Qltb (damageFlash e) 0 then set_damageFlash 0 e else e
  else e.

Definition update (deltaTime : Q) (e : t) : t :=
  if negb (alive e) || reachedEnd e then e
  else checkEndReached (move deltaTime (updateVisualEffects deltaTime e)).

Definition getDistanceToEnd (e : t) : Q :=
  let totalLength := calculatePathLength in
  totalLength * (1 - pathProgress e).

(** One [update] per elapsed time of the list, in order. *)
Fixpoint updates (deltaTimes : list Q) (e : t) : t :=
  match deltaTimes with
  | [] => e
  | dt :: rest => updates rest (update dt e)
  end.

End WithMath.

(** Returns the enemy after the call and the returned boolean. *)
Definition takeDamage (damage : Q) (e : t) : t * bool :=
  if negb (alive e) then (e, false)
  else
    let e := set_damageFlash 200 (set_health (health e - damage) e) in
    if Qleb (health e) 0 then (set_alive false (set_health 0 e), true)
    else (e, false).

Definition isAlive (e : t) : bool := alive e.
Definition hasReachedEnd (e : t) : bool := reachedEnd e.

(** A sequence of [takeDamage] calls: the final enemy and the returned
    booleans, in call order. *)
Fixpoint takeDamages (damages : list Q) (e : t) : t * list bool :=
  match damages with
  | [] => (e, [])
  | d :: ds =>
      let '(e1, killed) := takeDamage d e in
      let '(e2, rest) := takeDamages ds e1 in
      (e2, killed :: rest)
  end.

End Enemy.

(** ** The heap of enemies *)

(** Enemies are objects shared by reference between the game's array, the
    towers and the projectiles. *)
Definition ref := nat.
Definition Heap := ref -> Enemy.t.

Definition heap_set (h : Heap) (r : ref) (e : Enemy.t) : Heap :=
  fun r' => if Nat.eqb r' r then e else h r'.

(** [enemy.takeDamage(damage)] on the object at [r]. *)
Definition heap_takeDamage (damage : Q) (r : ref) (h : Heap) : Heap * bool :=
  let '(e, killed) := Enemy.takeDamage damage (h r) in (heap_set h r e, killed).

(** ** Projectile.js *)

Module Projectile.
Import Helpers.

Record t := {
  position : Point;
  target : option ref;
  targetPosition : Point;
  speed : Q;
  velocity : Point;
  damage : Q;
  splash : bool;
  splashRadius : Q;
  active : bool;
  hasHit : bool;
  markedForRemoval : bool;
  rotationAngle : Q;
  timeAlive : Q;
  distanceTraveled : Q
}.

(** Fields the constructor sets and nothing assigns afterwards. *)
Definition size : Q := 6.
Definition maxLifetime : Q := 5000.
Definition maxDistance : Q := 1000.
Definition useTargetPrediction : bool := true.
Definition predictionTime : Q := 0.5.

Definition set_position (v : Point) (p : t) : t :=
  {| position := v; target := target p; targetPosition := targetPosition p;
     speed := speed p; velocity := velocity p; damage := damage p;
     splash := splash p; splashRadius := splashRadius p; active := active p;
     hasHit := hasHit p; markedForRemoval := markedForRemoval p;
     rotationAngle := rotationAngle p; timeAlive := timeAlive p;
     distanceTraveled := distanceTraveled p |}.

Definition set_velocity (v : Point) (p : t) : t :=
  {| position := position p; target := target p; targetPosition := targetPosition p;
     speed := speed p; velocity := v; damage := damage p;
     splash := splash p; splashRadius := splashRadius p; active := active p;
     hasHit := hasHit p; markedForRemoval := markedForRemoval p;
     rotationAngle := rotationAngle p; timeAlive := timeAlive p;
     distanceTraveled := distanceTraveled p |}.

Definition set_active (v : bool) (p : t) : t :=
  {| position := position p; target := target p; targetPosition := targetPosition p;
     speed := speed p; velocity := velocity p; damage := damage p;
     splash := splash p; splashRadius := splashRadius p; active := v;
     hasHit := hasHit p; markedForRemoval := markedForRemoval p;
     rotationAngle := rotationAngle p; timeAlive := timeAlive p;
     distanceTraveled := distanceTraveled p |}.

Definition set_hasHit (v : bool) (p : t) : t :=
  {| position := position p; target := target p; targetPosition := targetPosition p;
     speed := speed p; velocity := velocity p; damage := damage p;
     splash := splash p; splashRadius := splashRadius p; active := active p;
     hasHit := v; markedForRemoval := markedForRemoval p;
     rotationAngle := rotationAngle p; timeAlive := timeAlive p;
     distanceTraveled := distanceTraveled p |}.

Definition set_markedForRemoval (v : bool) (p : t) : t :=
  {| position := position p; target := target p; targetPosition := targetPosition p;
     speed := speed p; velocity := velocity p; damage := damage p;
     splash := splash p; splashRadius := splashRadius p; active := active p;
     hasHit := hasHit p; markedForRemoval := v;
     rotationAngle := rotationAngle p; timeAlive := timeAlive p;
     distanceTraveled := distanceTraveled p |}.

Definition set_rotationAngle (v : Q) (p : t) : t :=
  {| position := position p; target := target p; targetPosition := targetPosition p;
     speed := speed p; velocity := velocity p; damage := damage p;
     splash := splash p; splashRadius := splashRadius p; active := active p;
     hasHit := hasHit p; markedForRemoval := markedForRemoval p;
     rotationAngle := v; timeAlive := timeAlive p;
     distanceTraveled := distanceTraveled p |}.

Definition set_timeAlive (v : Q) (p : t) : t :=
  {| position := position p; target := target p; targetPosition := targetPosition p;
     speed := speed p; velocity := velocity p; damage := damage p;
     splash := splash p; splashRadius := splashRadius p; active := active p;
     hasHit := hasHit p; markedForRemoval := markedForRemoval p;
     rotationAngle := rotationAngle p; timeAlive := v;
     distanceTraveled := distanceTraveled p |}.

Definition set_distanceTraveled (v : Q) (p : t) : t :=
  {| position := position p; target := target p; targetPosition := targetPosition p;
     speed := speed p; velocity := velocity p; damage := damage p;
     splash := splash p; splashRadius := splashRadius p; active := active p;
     hasHit := hasHit p; markedForRemoval := markedForRemoval p;
     rotationAngle := rotationAngle p; timeAlive := timeAlive p;
     distanceTraveled := v |}.

Definition destroy (p : t) : t := set_markedForRemoval true (set_active false p).

Definition isActive (p : t) : bool := active p.

(** [this.target && this.target.isAlive()] *)
Definition targetIsAlive (p : t) (h : Heap) : bool :=
  match target p with
  | Some r => Enemy.alive (h r)
  | None => false
  end.

Section WithMath.
Context {M : MathLib}.

Definition calculateTargetVelocity (p : t) (h : Heap) : Point :=
  match target p with
  | None => {| px := 0; py := 0 |}
  | Some r =>
      let targetSpeed := Enemy.speed (h r) * Enemy.pathSpeed (h r) in
      {| px := px (Enemy.direction (h r)) * targetSpeed;
         py := py (Enemy.direction (h r)) * targetSpeed |}
  end.

Definition predictTargetPosition (p : t) (h : Heap) : Point :=
  match target p with
  | None => targetPosition p
  | Some r =>
      if negb (Enemy.alive (h r)) then targetPosition p
      else
        let currentPos := Enemy.position (h r) in
        let targetVelocity := calculateTargetVelocity p h in
        let distanceToTarget :=
          distance (px (position p)) (py (position p)) (px currentPos) (py currentPos) in
        let timeToReach := distanceToTarget / speed p in
        let predictionTime := Math_min timeToReach predictionTime in
        {| px := px currentPos + px targetVelocity * predictionTime;
           py := py currentPos + py targetVelocity * predictionTime |}
  end.

Definition calculateInitialVelocity (p : t) (h : Heap) : t :=
  let targetPos :=
    if useTargetPrediction && targetIsAlive p h then predictTargetPosition p h
    else targetPosition p in
  let dx := px targetPos - px (position p) in
  let dy := py targetPos - py (position p) in
  let distance := Math_sqrt (dx * dx + dy * dy) in
  if Qltb 0 distance then
    set_rotationAngle (Math_atan2 dy dx)
      (set_velocity {| px := (dx / distance) * speed p;
                       py := (dy / distance) * speed p |} p)
  else set_active false (set_velocity {| px := 0; py := 0 |} p).

(** [new Projectile(x, y, target, damage, speed, splash, splashRadius)] *)
Definition new (x y : Q) (target : option ref) (damage speed : Q)
    (splash : bool) (splashRadius : Q) (h : Heap) : t :=
  calculateInitialVelocity
    {| position := {| px := x; py := y |};
       target := target;
       targetPosition :=
         match target with
         | Some r => Enemy.position (h r)
         | None => {| px := x; py := y |}
         end;
       speed := speed; velocity := {| px := 0; py := 0 |};
       damage := damage; splash := splash; splashRadius := splashRadius;
       active := true; hasHit := false; markedForRemoval := false;
       rotationAngle := 0; timeAlive := 0; distanceTraveled := 0 |} h.

Definition adjustTrajectory (p : t) (h : Heap) : t :=
  if negb (targetIsAlive p h) then p
  else
    let predictedPos := predictTargetPosition p h in
    let dx := px predictedPos - px (position p) in
    let dy := py predictedPos - py (position p) in
    let dist := Math_sqrt (dx * dx + dy * dy) in
    if Qltb 0 dist then
      let correctionFactor := 0.1 in
      let newVelX := (dx / dist) * speed p in
      let newVelY := (dy / dist) * speed p in
      let v := {| px := lerp (px (velocity p)) newVelX correctionFactor;
                  py := lerp (py (velocity p)) newVelY correctionFactor |} in
      set_rotationAngle (Math_atan2 (py v) (px v)) (set_velocity v p)
    else p.

Definition updatePosition (deltaTime : Q) (p : t) (h : Heap) : t :=
  let deltaSeconds := deltaTime / 1000 in
  let oldX := px (position p) in
  let oldY := py (position p) in
  let p := set_position {| px := oldX + px (velocity p) * deltaSeconds;
                           py := oldY + py (velocity p) * deltaSeconds |} p in
  let moveDistance := distance oldX oldY (px (position p)) (py (position p)) in
  let p := set_distanceTraveled (distanceTraveled p + moveDistance) p in
  if Qltb maxDistance (distanceTraveled p) then destroy p
  else if targetIsAlive p h && useTargetPrediction then adjustTrajectory p h
  else p.

Definition checkCollisionWithEnemy (p : t) (enemy : Enemy.t) : bool :=
  let dist := distance (px (position p)) (py (position p))
                (px (Enemy.position enemy)) (py (Enemy.position enemy)) in
  Qleb dist (Enemy.size enemy / 2 + size / 2).

(** One turn of the loop of [applySplashDamage].  The product with [0.7],
    the quotient, the difference and the second product are those of
    doubles. *)
Definition splashOne (p : t) (centerEnemy : ref) (h : Heap) (r : ref) : Heap :=
  let splashDamage := Math_floor (double (damage p * double 0.7)) in
  let enemy := h r in
  if negb (Enemy.alive enemy) || Nat.eqb r centerEnemy then h
  else
    let dist := distance (px (position p)) (py (position p))
                  (px (Enemy.position enemy)) (py (Enemy.position enemy)) in
    if Qleb dist (splashRadius p) then
      let damageMultiplier := double (1 - double (dist / splashRadius p)) in
      let finalDamage := Math_floor (double (splashDamage * damageMultiplier)) in
      if Qltb 0 finalDamage then fst (heap_takeDamage finalDamage r h)
      else h
    else h.

Definition applySplashDamage (p : t) (centerEnemy : ref) (allEnemies : list ref)
    (h : Heap) : Heap :=
  fold_left (splashOne p centerEnemy) allEnemies h.

Definition hit (hitEnemy : ref) (allEnemies : list ref) (p : t) (h : Heap)
    : t * Heap :=
  if hasHit p then (p, h)
  else
    let p := set_hasHit true p in
    let '(h, killed) := heap_takeDamage (damage p) hitEnemy h in
    let h :=
      if splash p && Qltb 0 (splashRadius p)
      then applySplashDamage p hitEnemy allEnemies h
      else h in
    (destroy p, h).

Definition checkCollisions (enemies : list ref) (p : t) (h : Heap) : t * Heap :=
  if negb (active p) || hasHit p then (p, h)
  else
    match (if targetIsAlive p h then target p else None) with
    | Some r =>
        if checkCollisionWithEnemy p (h r) then hit r enemies p h
        else (p, h)
    | None =>
        match find (fun r => Enemy.alive (h r) && checkCollisionWithEnemy p (h r))
                enemies with
        | Some r => hit r enemies p h
        | None => (p, h)
        end
    end.

Definition checkBounds (p : t) : t :=
  if negb (isWithinBounds (px (position p)) (py (position p))) then destroy p
  else p.

Definition update (deltaTime : Q) (enemies : list ref) (p : t) (h : Heap)
    : t * Heap :=
  if negb (active p) then (p, h)
  else
    let p := set_timeAlive (timeAlive p + deltaTime) p in
    if Qltb maxLifetime (timeAlive p) then (destroy p, h)
    else
      let p := updatePosition deltaTime p h in
      let '(p, h) := checkCollisions enemies p h in
      (checkBounds p, h).

(** A run of frames: each with its elapsed time and the enemies array the
    game passes in that frame. *)
Fixpoint updates (frames : list (Q * list ref)) (p : t) (h : Heap) : t * Heap :=
  match frames with
  | [] => (p, h)
  | (deltaTime, enemies) :: rest =>
      let '(p, h) := update deltaTime enemies p h in updates rest p h
  end.

End WithMath.
End Projectile.

(** ** Exceptions *)

Inductive JsError := TypeError.

(** How a call ends: it returns a value or throws, or it does not end.  The
    state reached is kept beside the outcome, since a throw leaves the
    mutations made so far.  [Hangs] stands for a call with a loop that is
    still running when the iterations the model follows are used up; the
    state beside it is the one before the loop. *)
Inductive Outcome (A : Type) :=
| Returns (a : A)
| Throws (err : JsError)
| Hangs.
Arguments Returns {A} a.
Arguments Throws {A} err.
Arguments Hangs {A}.

(** ** Tower.js *)

Module Tower.
Import Helpers.

Inductive Kind := BASIC | SNIPER | AREA.

Record Config := {
  cfg_damage : Q; cfg_range : Q; cfg_fireRate : Q; cfg_projectileSpeed : Q;
  cfg_splash : bool; cfg_splashRadius : Q
}.

Definition TOWER_TYPES (k : Kind) : Config :=
  match k with
  | BASIC => {| cfg_damage := 25; cfg_range := 100; cfg_fireRate := 2;
                cfg_projectileSpeed := 200; cfg_splash := false;
                cfg_splashRadius := 0 |}
  | SNIPER => {| cfg_damage := 80; cfg_range := 180; cfg_fireRate := 0.8;
                 cfg_projectileSpeed := 400; cfg_splash := false;
                 cfg_splashRadius := 0 |}
  | AREA => {| cfg_damage := 40; cfg_range := 80; cfg_fireRate := 1.2;
               cfg_projectileSpeed := 150; cfg_splash := true;
               cfg_splashRadius := 50 |}
  end.

(** The four modes [setTargetingMode] accepts; [other_mode] stands for any
    other string, which [selectBestTarget] sends to its default case. *)
Inductive TargetingMode :=
| closest_to_end | closest_to_tower | strongest | weakest | other_mode.

Record t := {
  type : Kind;
  damage : Q;
  range : Q;
  fireRate : Q;
  projectileSpeed : Q;
  splash : bool;
  splashRadius : Q;
  position : Point;
  target : option ref;
  targetingMode : TargetingMode;
  lastShotTime : Q;
  shotCooldown : Q;
  (** The own property [canShoot] of the object.  The constructor assigns
      [this.canShoot = true]; an own property hides the method [canShoot()]
      of the prototype, which is reached only when the object has no such
      property ([None]). *)
  own_canShoot : option bool;
  active : bool;
  rotationAngle : Q;
  targetAngle : Q;
  rotationSpeed : Q;
  muzzleFlash : Q;
  stats_timeActive : Q;
  stats_shotsFired : Z
}.

Definition set_target (v : option ref) (w : t) : t :=
  {| type := type w; damage := damage w; range := range w; fireRate := fireRate w;
     projectileSpeed := projectileSpeed w; splash := splash w;
     splashRadius := splashRadius w; position := position w; target := v;
     targetingMode := targetingMode w; lastShotTime := lastShotTime w;
     shotCooldown := shotCooldown w; own_canShoot := own_canShoot w;
     active := active w; rotationAngle := rotationAngle w;
     targetAngle := targetAngle w; rotationSpeed := rotationSpeed w;
     muzzleFlash := muzzleFlash w; stats_timeActive := stats_timeActive w;
     stats_shotsFired := stats_shotsFired w |}.

Definition set_angles (rotation target_ : Q) (w : t) : t :=
  {| type := type w; damage := damage w; range := range w; fireRate := fireRate w;
     projectileSpeed := projectileSpeed w; splash := splash w;
     splashRadius := splashRadius w; position := position w; target := target w;
     targetingMode := targetingMode w; lastShotTime := lastShotTime w;
     shotCooldown := shotCooldown w; own_canShoot := own_canShoot w;
     active := active w; rotationAngle := rotation;
     targetAngle := target_; rotationSpeed := rotationSpeed w;
     muzzleFlash := muzzleFlash w; stats_timeActive := stats_timeActive w;
     stats_shotsFired := stats_shotsFired w |}.

Definition set_muzzleFlash (v : Q) (w : t) : t :=
  {| type := type w; damage := damage w; range := range w; fireRate := fireRate w;
     projectileSpeed := projectileSpeed w; splash := splash w;
     splashRadius := splashRadius w; position := position w; target := target w;
     targetingMode := targetingMode w; lastShotTime := lastShotTime w;
     shotCooldown := shotCooldown w; own_canShoot := own_canShoot w;
     active := active w; rotationAngle := rotationAngle w;
     targetAngle := targetAngle w; rotationSpeed := rotationSpeed w;
     muzzleFlash := v; stats_timeActive := stats_timeActive w;
     stats_shotsFired := stats_shotsFired w |}.

Definition set_timeActive (v : Q) (w : t) : t :=
  {| type := type w; damage := damage w; range := range w; fireRate := fireRate w;
     projectileSpeed := projectileSpeed w; splash := splash w;
     splashRadius := splashRadius w; position := position w; target := target w;
     targetingMode := targetingMode w; lastShotTime := lastShotTime w;
     shotCooldown := shotCooldown w; own_canShoot := own_canShoot w;
     active := active w; rotationAngle := rotationAngle w;
     targetAngle := targetAngle w; rotationSpeed := rotationSpeed w;
     muzzleFlash := muzzleFlash w; stats_timeActive := v;
     stats_shotsFired := stats_shotsFired w |}.

(** The assignments of [shoot]: [lastShotTime], [muzzleFlash] and
    [stats.shotsFired]. *)
Definition set_shot (time flash : Q) (shots : Z) (w : t) : t :=
  {| type := type w; damage := damage w; range := range w; fireRate := fireRate w;
     projectileSpeed := projectileSpeed w; splash := splash w;
     splashRadius := splashRadius w; position := position w; target := target w;
     targetingMode := targetingMode w; lastShotTime := time;
     shotCooldown := shotCooldown w; own_canShoot := own_canShoot w;
     active := active w; rotationAngle := rotationAngle w;
     targetAngle := targetAngle w; rotationSpeed := rotationSpeed w;
     muzzleFlash := flash; stats_timeActive := stats_timeActive w;
     stats_shotsFired := shots |}.

(** [new Tower(type, x, y)] *)
Definition new (k : Kind) (x y : Q) : t :=
  let config := TOWER_TYPES k in
  {| type := k; damage := cfg_damage config; range := cfg_range config;
     fireRate := cfg_fireRate config;
     projectileSpeed := cfg_projectileSpeed config;
     splash := cfg_splash config; splashRadius := cfg_splashRadius config;
     position := {| px := x; py := y |};
     target := None; targetingMode := closest_to_end;
     lastShotTime := 0; shotCooldown := 1000 / cfg_fireRate config;
     own_canShoot := Some true;
     active := true; rotationAngle := 0; targetAngle := 0; rotationSpeed := 5;
     muzzleFlash := 0; stats_timeActive := 0; stats_shotsFired := 0%Z |}.

(** The body of the prototype's method [canShoot()]. *)
Definition canShoot_method (now : Q) (w : t) : bool :=
  Qleb (shotCooldown w) (now - lastShotTime w).

(** The call [tower.canShoot()]: property lookup finds the own property
    first, and calling a boolean throws a TypeError. *)
Definition call_canShoot (now : Q) (w : t) : Outcome bool :=
  match own_canShoot w with
  | Some _ => Throws TypeError
  | None => Returns (canShoot_method now w)
  end.

Definition updateVisualEffects (deltaTime : Q) (w : t) : t :=
  if Qltb 0 (muzzleFlash w) then
    let w := set_muzzleFlash (muzzleFlash w - deltaTime) w in
    if Qltb (muzzleFlash w) 0 then set_muzzleFlash 0 w else w
  else w.

(** [validTargets.reduce(f)] without an initial value, on a non-empty array. *)
Definition reduce (f : ref -> ref -> ref) (l : list ref) : option ref :=
  match l with
  | [] => None
  | first :: rest => Some (fold_left f rest first)
  end.

Section WithMath.
Context {M : MathLib}.

(** [while (a > Math.PI) a -= 2 * Math.PI], followed for [fuel] tests of
    its condition at most: [None] when it is still running then.  The
    difference is the one of doubles, and over doubles the loop need not
    end: for a large [a], such as 1e17, [a - 2 * Math.PI] is [a] again. *)
Fixpoint wrapAbove (fuel : nat) (a : Q) : option Q :=
  match fuel with
  | O => None
  | S fuel' =>
      if Qltb Math_PI a then wrapAbove fuel' (double (a - 2 * Math_PI))
      else Some a
  end.

(** [while (a < -Math.PI) a += 2 * Math.PI], in the same way. *)
Fixpoint wrapBelow (fuel : nat) (a : Q) : option Q :=
  match fuel with
  | O => None
  | S fuel' =>
      if Qltb a (- Math_PI) then wrapBelow fuel' (double (a + 2 * Math_PI))
      else Some a
  end.

(** The two loops one after the other, as written twice in [updateRotation]. *)
Definition normalizeAngle (fuel : nat) (a : Q) : option Q :=
  match wrapAbove fuel a with
  | Some a => wrapBelow fuel a
  | None => None
  end.

Definition isInRange (w : t) (enemy : Enemy.t) : bool :=
  let dist := distance (px (position w)) (py (position w))
                (px (Enemy.position enemy)) (py (Enemy.position enemy)) in
  Qleb dist (range w).

Definition selectBestTarget (validTargets : list ref) (h : Heap) (w : t)
    : option ref :=
  match validTargets with
  | [] => None
  | first :: _ =>
      match targetingMode w with
      | closest_to_end =>
          reduce (fun best current =>
            if Qltb (Enemy.getDistanceToEnd (h current)) (Enemy.getDistanceToEnd (h best))
            then current else best) validTargets
      | closest_to_tower =>
          reduce (fun best current =>
            let currentDist := distance (px (position w)) (py (position w))
                (px (Enemy.position (h current))) (py (Enemy.position (h current))) in
            let bestDist := distance (px (position w)) (py (position w))
                (px (Enemy.position (h best))) (py (Enemy.position (h best))) in
            if Qltb currentDist bestDist then current else best) validTargets
      | strongest =>
          reduce (fun best current =>
            if Qltb (Enemy.health (h best)) (Enemy.health (h current))
            then current else best) validTargets
      | weakest =>
          reduce (fun best current =>
            if Qltb (Enemy.health (h current)) (Enemy.health (h best))
            then current else best) validTargets
      | other_mode => Some first
      end
  end.

(** [this.target && this.target.isAlive() && this.isInRange(this.target)] *)
Definition targetIsValid (h : Heap) (w : t) : bool :=
  match target w with
  | Some r => Enemy.alive (h r) && isInRange w (h r)
  | None => false
  end.

(** The array [enemies.filter(enemy => enemy.isAlive() && this.isInRange(enemy))]. *)
Definition validTargets (enemies : list ref) (h : Heap) (w : t) : list ref :=
  filter (fun r => Enemy.alive (h r) && isInRange w (h r)) enemies.

Definition findTarget (enemies : list ref) (h : Heap) (w : t) : t :=
  let w := match target w with
           | Some r =>
               if negb (Enemy.alive (h r)) || negb (isInRange w (h r))
               then set_target None w else w
           | None => w
           end in
  if targetIsValid h w then w
  else
    match validTargets enemies h w with
    | [] => set_target None w
    | valid => set_target (selectBestTarget valid h w) w
    end.

(** The differences, the products and the sum are those of doubles.
    [None] when one of the loops is still running after [fuel] tests. *)
Definition updateRotation (fuel : nat) (deltaTime : Q) (h : Heap) (w : t)
    : option t :=
  match target w with
  | None => Some w
  | Some r =>
      let targetAngle := angleBetween (px (position w)) (py (position w))
          (px (Enemy.position (h r))) (py (Enemy.position (h r))) in
      let angleDiff := double (targetAngle - rotationAngle w) in
      match normalizeAngle fuel angleDiff with
      | None => None
      | Some normalizedDiff =>
          let rotationStep := double (rotationSpeed w * double (deltaTime / 1000)) in
          let rotation :=
            if Qltb (Math_abs normalizedDiff) rotationStep then targetAngle
            else double (rotationAngle w
                         + double (Math_sign normalizedDiff * rotationStep)) in
          match normalizeAngle fuel rotation with
          | None => None
          | Some rotation => Some (set_angles rotation targetAngle w)
          end
      end
  end.

(** Returns the tower after the call and the projectile returned, if any. *)
Definition shoot (now : Q) (h : Heap) (w : t) : t * Outcome (option Projectile.t) :=
  match call_canShoot now w with
  | Throws err => (w, Throws err)
  | Hangs => (w, Hangs)
  | Returns can =>
      match target w with
      | Some r =>
          if negb can then (w, Returns None)
          else
            let projectile :=
              Projectile.new (px (position w)) (py (position w)) (Some r)
                (damage w) (projectileSpeed w) (splash w) (splashRadius w) h in
            (set_shot now 100 (stats_shotsFired w + 1)%Z w, Returns (Some projectile))
      | None => (w, Returns None)
      end
  end.

(** The misalignment [attemptShoot] compares with 0.1. *)
Definition misalignment (w : t) : Q :=
  let angleDiff := Math_abs (targetAngle w - rotationAngle w) in
  Math_min angleDiff (2 * Math_PI - angleDiff).

(** The projectile [shoot] returns to [attemptShoot] is dropped there. *)
Definition attemptShoot (now : Q) (h : Heap) (w : t) : t * Outcome unit :=
  match call_canShoot now w with
  | Throws err => (w, Throws err)
  | Hangs => (w, Hangs)
  | Returns can =>
      if negb can then (w, Returns tt)
      else if negb (targetIsValid h w) then (w, Returns tt)
      else if Qltb 0.1 (misalignment w) then (w, Returns tt)
      else
        match shoot now h w with
        | (w', Returns _) => (w', Returns tt)
        | (w', Throws err) => (w', Throws err)
        | (w', Hangs) => (w', Hangs)
        end
  end.

(** [fuel] bounds the tests of each loop of [updateRotation]. *)
Definition update (fuel : nat) (enemies : list ref) (deltaTime now : Q)
    (h : Heap) (w : t) : t * Outcome unit :=
  if negb (active w) then (w, Returns tt)
  else
    let w := set_timeActive (stats_timeActive w + deltaTime) w in
    let w := updateVisualEffects deltaTime w in
    let w := findTarget enemies h w in
    match updateRotation fuel deltaTime h w with
    | None => (w, Hangs)
    | Some w => attemptShoot now h w
    end.

End WithMath.
End Tower.

(** ** game.js: the towers' part of [updateEntities] *)

Module Game.
Section WithMath.
Context {M : MathLib}.

(** The body of [this.towers.forEach(tower => ...)] for one tower: the
    tower after it and the projectile pushed on [this.projectiles], if any. *)
Definition updateTower (fuel : nat) (enemies : list ref) (deltaTime now : Q)
    (h : Heap) (tower : Tower.t) : Tower.t * Outcome (option Projectile.t) :=
  match Tower.update fuel enemies deltaTime now h tower with
  | (tower, Throws err) => (tower, Throws err)
  | (tower, Hangs) => (tower, Hangs)
  | (tower, Returns _) =>
      match Tower.call_canShoot now tower with
      | Throws err => (tower, Throws err)
      | Hangs => (tower, Hangs)
      | Returns can =>
          match (if can then Tower.target tower else None) with
          | Some _ =>
              match Tower.shoot now h tower with
              | (tower, Throws err) => (tower, Throws err)
              | (tower, Hangs) => (tower, Hangs)
              | (tower, Returns projectile) => (tower, Returns projectile)
              end
          | None => (tower, Returns None)
          end
      end
  end.

End WithMath.

(** Whether the tower's turn ended with a projectile pushed on the game's
    array. *)
Definition emitted_projectile (o : Outcome (option Projectile.t)) : bool :=
  match o with
  | Returns (Some _) => true
  | _ => false
  end.

End Game.

(** ** Numbers with Infinity and NaN *)

(** The wave statistics divide by a counter that can be zero, so they are
    kept in numbers extended with the two infinities and NaN.  [Fin 0]
    stands for +0: the only zero divisor in the code is a counter, which is
    never -0. *)
Module JsNum.

Inductive t := Fin (q : Q) | PosInf | NegInf | NaN.

Definition of_Z (z : Z) : t := Fin (inject_Z z).

Definition add (a b : t) : t :=
  match a, b with
  | NaN, _ | _, NaN => NaN
  | Fin x, Fin y => Fin (x + y)
  | PosInf, NegInf | NegInf, PosInf => NaN
  | PosInf, _ | _, PosInf => PosInf
  | NegInf, _ | _, NegInf => NegInf
  end.

(** The sign of a product with an infinity. *)
Definition signed (positive : bool) : t := if positive then PosInf else NegInf.

Definition mul (a b : t) : t :=
  match a, b with
  | NaN, _ | _, NaN => NaN
  | Fin x, Fin y => Fin (x * y)
  | PosInf, Fin y | Fin y, PosInf =>
      if Qeq_bool y 0 then NaN else signed (Qltb 0 y)
  | NegInf, Fin y | Fin y, NegInf =>
      if Qeq_bool y 0 then NaN else signed (Qltb y 0)
  | PosInf, PosInf | NegInf, NegInf => PosInf
  | PosInf, NegInf | NegInf, PosInf => NegInf
  end.

Definition div (a b : t) : t :=
  match a, b with
  | NaN, _ | _, NaN => NaN
  | Fin x, Fin y =>
      if Qeq_bool y 0 then
        (if Qeq_bool x 0 then NaN else signed (Qltb 0 x))
      else Fin (x / y)
  | Fin _, _ => Fin 0
  | PosInf, Fin y => signed (Qleb 0 y)
  | NegInf, Fin y => signed (Qltb y 0)
  | _, _ => NaN
  end.

(** [a < b]; every comparison with NaN is false. *)
Definition ltb (a b : t) : bool :=
  match a, b with
  | NaN, _ | _, NaN => false
  | Fin x, Fin y => Qltb x y
  | NegInf, NegInf => false
  | NegInf, _ => true
  | _, NegInf => false
  | PosInf, _ => false
  | Fin _, PosInf => true
  end.

End JsNum.

(** ** WaveManager.js *)

Module WaveManager.

Record EnemyGroup := {
  group_type : EnemyKind;
  group_count : nat;
  group_spawnInterval : Q
}.

Record WaveDef := {
  waveNumber : nat;
  wave_enemies : list EnemyGroup;
  wave_reward : Q
}.

Definition group (k : EnemyKind) (count : nat) (spawnInterval : Q) : EnemyGroup :=
  {| group_type := k; group_count := count; group_spawnInterval := spawnInterval |}.

Definition WAVE_DATA : list WaveDef :=
  [ {| waveNumber := 1; wave_enemies := [group BASIC 10 1000]; wave_reward := 50 |};
    {| waveNumber := 2; wave_enemies := [group BASIC 15 800]; wave_reward := 75 |};
    {| waveNumber := 3; wave_enemies := [group BASIC 10 800; group TANK 3 2000];
       wave_reward := 100 |};
    {| waveNumber := 4; wave_enemies := [group BASIC 15 700; group TANK 5 1800];
       wave_reward := 125 |};
    {| waveNumber := 5;
       wave_enemies := [group BASIC 20 600; group TANK 8 1500; group FAST 2 3000];
       wave_reward := 150 |};
    {| waveNumber := 6;
       wave_enemies := [group BASIC 25 500; group TANK 10 1200; group FAST 5 2500];
       wave_reward := 200 |};
    {| waveNumber := 7;
       wave_enemies := [group BASIC 30 400; group TANK 12 1000; group FAST 8 2000];
       wave_reward := 250 |};
    {| waveNumber := 8;
       wave_enemies := [group BASIC 35 350; group TANK 15 800; group FAST 12 1500];
       wave_reward := 300 |};
    {| waveNumber := 9;
       wave_enemies := [group BASIC 40 300; group TANK 20 600; group FAST 15 1200];
       wave_reward := 400 |};
    {| waveNumber := 10;
       wave_enemies := [group BASIC 50 250; group TANK 25 500; group FAST 20 1000];
       wave_reward := 500 |} ].

Definition WAVE_INTERVAL : Q := 8000.

Record SpawnEntry := { entry_type : EnemyKind; spawnTime : Q }.

Record Stats := {
  totalEnemiesSpawned : Z;
  totalWavesCompleted : Z;
  averageWaveTime : JsNum.t;
  fastestWave : JsNum.t;
  slowestWave : JsNum.t
}.

(** The calls made to the installed callbacks, with their arguments. *)
Inductive Event :=
| EnemySpawn (enemy : Enemy.t)
| WaveStart (number : nat) (data : option WaveDef)
| WaveComplete (number : nat) (waveTime : Q) (data : option WaveDef)
| AllWavesComplete (stats : Stats).

(** What the scheduler reads from its surroundings during one call:
    [Date.now()], and the successive results of [Math.random()]. *)
Record Env := { now : Q; random : nat -> Q }.

(** The manager.  [enemies] is the array the game passes to [update], held
    by reference: a spawn handler that pushes on the game's array (as
    [Game.handleEnemySpawn] does) changes it, which [onEnemySpawn] records
    as the handler's effect on the array.  The manager only reads
    [isAlive()] of the enemies, within the call that receives the array, so
    the array holds the enemies as they are at that call.  The other three
    callbacks are either installed or null; handlers are taken to return
    normally.  [emitted] lists the callback calls made so far, oldest
    first.  [isPaused] is a property the constructor does not create. *)
Record t := {
  waveData : list WaveDef;
  totalWaves : nat;
  currentWave : nat;
  waveInProgress : bool;
  waveComplete : bool;
  allWavesComplete : bool;
  enemiesSpawned : nat;
  enemiesToSpawn : nat;
  spawnQueue : list SpawnEntry;
  lastSpawnTime : Q;
  nextSpawnTime : Q;
  waveStartTime : Q;
  timeBetweenWaves : Q;
  waveCountdown : Q;
  isCountingDown : bool;
  stats : Stats;
  enemies : list Enemy.t;
  onEnemySpawn : option (Enemy.t -> list Enemy.t -> list Enemy.t);
  onWaveStart : bool;
  onWaveComplete : bool;
  onAllWavesComplete : bool;
  isPaused : option bool;
  emitted : list Event
}.

Definition set_currentWave (v : nat) (w : t) : t :=
  {| waveData := waveData w; totalWaves := totalWaves w; currentWave := v;
     waveInProgress := waveInProgress w; waveComplete := waveComplete w;
     allWavesComplete := allWavesComplete w;
     enemiesSpawned := enemiesSpawned w; enemiesToSpawn := enemiesToSpawn w;
     spawnQueue := spawnQueue w; lastSpawnTime := lastSpawnTime w;
     nextSpawnTime := nextSpawnTime w; waveStartTime := waveStartTime w;
     timeBetweenWaves := timeBetweenWaves w;
     waveCountdown := waveCountdown w; isCountingDown := isCountingDown w;
     stats := stats w; enemies := enemies w; onEnemySpawn := onEnemySpawn w;
     onWaveStart := onWaveStart w; onWaveComplete := onWaveComplete w;
     onAllWavesComplete := onAllWavesComplete w; isPaused := isPaused w;
     emitted := emitted w |}.

Definition set_waveInProgress (v : bool) (w : t) : t :=
  {| waveData := waveData w; totalWaves := totalWaves w;
     currentWave := currentWave w; waveInProgress := v;
     waveComplete := waveComplete w; allWavesComplete := allWavesComplete w;
     enemiesSpawned := enemiesSpawned w; enemiesToSpawn := enemiesToSpawn w;
     spawnQueue := spawnQueue w; lastSpawnTime := lastSpawnTime w;
     nextSpawnTime := nextSpawnTime w; waveStartTime := waveStartTime w;
     timeBetweenWaves := timeBetweenWaves w;
     waveCountdown := waveCountdown w; isCountingDown := isCountingDown w;
     stats := stats w; enemies := enemies w; onEnemySpawn := onEnemySpawn w;
     onWaveStart := onWaveStart w; onWaveComplete := onWaveComplete w;
     onAllWavesComplete := onAllWavesComplete w; isPaused := isPaused w;
     emitted := emitted w |}.

Definition set_waveComplete (v : bool) (w : t) : t :=
  {| waveData := waveData w; totalWaves := totalWaves w;
     currentWave := currentWave w; waveInProgress := waveInProgress w;
     waveComplete := v; allWavesComplete := allWavesComplete w;
     enemiesSpawned := enemiesSpawned w; enemiesToSpawn := enemiesToSpawn w;
     spawnQueue := spawnQueue w; lastSpawnTime := lastSpawnTime w;
     nextSpawnTime := nextSpawnTime w; waveStartTime := waveStartTime w;
     timeBetweenWaves := timeBetweenWaves w;
     waveCountdown := waveCountdown w; isCountingDown := isCountingDown w;
     stats := stats w; enemies := enemies w; onEnemySpawn := onEnemySpawn w;
     onWaveStart := onWaveStart w; onWaveComplete := onWaveComplete w;
     onAllWavesComplete := onAllWavesComplete w; isPaused := isPaused w;
     emitted := emitted w |}.

Definition set_allWavesComplete (v : bool) (w : t) : t :=
  {| waveData := waveData w; totalWaves := totalWaves w;
     currentWave := currentWave w; waveInProgress := waveInProgress w;
     waveComplete := waveComplete w; allWavesComplete := v;
     enemiesSpawned := enemiesSpawned w; enemiesToSpawn := enemiesToSpawn w;
     spawnQueue := spawnQueue w; lastSpawnTime := lastSpawnTime w;
     nextSpawnTime := nextSpawnTime w; waveStartTime := waveStartTime w;
     timeBetweenWaves := timeBetweenWaves w;
     waveCountdown := waveCountdown w; isCountingDown := isCountingDown w;
     stats := stats w; enemies := enemies w; onEnemySpawn := onEnemySpawn w;
     onWaveStart := onWaveStart w; onWaveComplete := onWaveComplete w;
     onAllWavesComplete := onAllWavesComplete w; isPaused := isPaused w;
     emitted := emitted w |}.

Definition set_enemiesSpawned (v : nat) (w : t) : t :=
  {| waveData := waveData w; totalWaves := totalWaves w;
     currentWave := currentWave w; waveInProgress := waveInProgress w;
     waveComplete := waveComplete w; allWavesComplete := allWavesComplete w;
     enemiesSpawned := v; enemiesToSpawn := enemiesToSpawn w;
     spawnQueue := spawnQueue w; lastSpawnTime := lastSpawnTime w;
     nextSpawnTime := nextSpawnTime w; waveStartTime := waveStartTime w;
     timeBetweenWaves := timeBetweenWaves w;
     waveCountdown := waveCountdown w; isCountingDown := isCountingDown w;
     stats := stats w; enemies := enemies w; onEnemySpawn := onEnemySpawn w;
     onWaveStart := onWaveStart w; onWaveComplete := onWaveComplete w;
     onAllWavesComplete := onAllWavesComplete w; isPaused := isPaused w;
     emitted := emitted w |}.

Definition set_enemiesToSpawn (v : nat) (w : t) : t :=
  {| waveData := waveData w; totalWaves := totalWaves w;
     currentWave := currentWave w; waveInProgress := waveInProgress w;
     waveComplete := waveComplete w; allWavesComplete := allWavesComplete w;
     enemiesSpawned := enemiesSpawned w; enemiesToSpawn := v;
     spawnQueue := spawnQueue w; lastSpawnTime := lastSpawnTime w;
     nextSpawnTime := nextSpawnTime w; waveStartTime := waveStartTime w;
     timeBetweenWaves := timeBetweenWaves w;
     waveCountdown := waveCountdown w; isCountingDown := isCountingDown w;
     stats := stats w; enemies := enemies w; onEnemySpawn := onEnemySpawn w;
     onWaveStart := onWaveStart w; onWaveComplete := onWaveComplete w;
     onAllWavesComplete := onAllWavesComplete w; isPaused := isPaused w;
     emitted := emitted w |}.

Definition set_spawnQueue (v : list SpawnEntry) (w : t) : t :=
  {| waveData := waveData w; totalWaves := totalWaves w;
     currentWave := currentWave w; waveInProgress := waveInProgress w;
     waveComplete := waveComplete w; allWavesComplete := allWavesComplete w;
     enemiesSpawned := enemiesSpawned w; enemiesToSpawn := enemiesToSpawn w;
     spawnQueue := v; lastSpawnTime := lastSpawnTime w;
     nextSpawnTime := nextSpawnTime w; waveStartTime := waveStartTime w;
     timeBetweenWaves := timeBetweenWaves w;
     waveCountdown := waveCountdown w; isCountingDown := isCountingDown w;
     stats := stats w; enemies := enemies w; onEnemySpawn := onEnemySpawn w;
     onWaveStart := onWaveStart w; onWaveComplete := onWaveComplete w;
     onAllWavesComplete := onAllWavesComplete w; isPaused := isPaused w;
     emitted := emitted w |}.

Definition set_lastSpawnTime (v : Q) (w : t) : t :=
  {| waveData := waveData w; totalWaves := totalWaves w;
     currentWave := currentWave w; waveInProgress := waveInProgress w;
     waveComplete := waveComplete w; allWavesComplete := allWavesComplete w;
     enemiesSpawned := enemiesSpawned w; enemiesToSpawn := enemiesToSpawn w;
     spawnQueue := spawnQueue w; lastSpawnTime := v;
     nextSpawnTime := nextSpawnTime w; waveStartTime := waveStartTime w;
     timeBetweenWaves := timeBetweenWaves w;
     waveCountdown := waveCountdown w; isCountingDown := isCountingDown w;
     stats := stats w; enemies := enemies w; onEnemySpawn := onEnemySpawn w;
     onWaveStart := onWaveStart w; onWaveComplete := onWaveComplete w;
     onAllWavesComplete := onAllWavesComplete w; isPaused := isPaused w;
     emitted := emitted w |}.

Definition set_nextSpawnTime (v : Q) (w : t) : t :=
  {| waveData := waveData w; totalWaves := totalWaves w;
     currentWave := currentWave w; waveInProgress := waveInProgress w;
     waveComplete := waveComplete w; allWavesComplete := allWavesComplete w;
     enemiesSpawned := enemiesSpawned w; enemiesToSpawn := enemiesToSpawn w;
     spawnQueue := spawnQueue w; lastSpawnTime := lastSpawnTime w;
     nextSpawnTime := v; waveStartTime := waveStartTime w;
     timeBetweenWaves := timeBetweenWaves w;
     waveCountdown := waveCountdown w; isCountingDown := isCountingDown w;
     stats := stats w; enemies := enemies w; onEnemySpawn := onEnemySpawn w;
     onWaveStart := onWaveStart w; onWaveComplete := onWaveComplete w;
     onAllWavesComplete := onAllWavesComplete w; isPaused := isPaused w;
     emitted := emitted w |}.

Definition set_waveStartTime (v : Q) (w : t) : t :=
  {| waveData := waveData w; totalWaves := totalWaves w;
     currentWave := currentWave w; waveInProgress := waveInProgress w;
     waveComplete := waveComplete w; allWavesComplete := allWavesComplete w;
     enemiesSpawned := enemiesSpawned w; enemiesToSpawn := enemiesToSpawn w;
     spawnQueue := spawnQueue w; lastSpawnTime := lastSpawnTime w;
     nextSpawnTime := nextSpawnTime w; waveStartTime := v;
     timeBetweenWaves := timeBetweenWaves w;
     waveCountdown := waveCountdown w; isCountingDown := isCountingDown w;
     stats := stats w; enemies := enemies w; onEnemySpawn := onEnemySpawn w;
     onWaveStart := onWaveStart w; onWaveComplete := onWaveComplete w;
     onAllWavesComplete := onAllWavesComplete w; isPaused := isPaused w;
     emitted := emitted w |}.

Definition set_waveCountdown (v : Q) (w : t) : t :=
  {| waveData := waveData w; totalWaves := totalWaves w;
     currentWave := currentWave w; waveInProgress := waveInProgress w;
     waveComplete := waveComplete w; allWavesComplete := allWavesComplete w;
     enemiesSpawned := enemiesSpawned w; enemiesToSpawn := enemiesToSpawn w;
     spawnQueue := spawnQueue w; lastSpawnTime := lastSpawnTime w;
     nextSpawnTime := nextSpawnTime w; waveStartTime := waveStartTime w;
     timeBetweenWaves := timeBetweenWaves w; waveCountdown := v;
     isCountingDown := isCountingDown w; stats := stats w;
     enemies := enemies w; onEnemySpawn := onEnemySpawn w;
     onWaveStart := onWaveStart w; onWaveComplete := onWaveComplete w;
     onAllWavesComplete := onAllWavesComplete w; isPaused := isPaused w;
     emitted := emitted w |}.

Definition set_isCountingDown (v : bool) (w : t) : t :=
  {| waveData := waveData w; totalWaves := totalWaves w;
     currentWave := currentWave w; waveInProgress := waveInProgress w;
     waveComplete := waveComplete w; allWavesComplete := allWavesComplete w;
     enemiesSpawned := enemiesSpawned w; enemiesToSpawn := enemiesToSpawn w;
     spawnQueue := spawnQueue w; lastSpawnTime := lastSpawnTime w;
     nextSpawnTime := nextSpawnTime w; waveStartTime := waveStartTime w;
     timeBetweenWaves := timeBetweenWaves w;
     waveCountdown := waveCountdown w; isCountingDown := v; stats := stats w;
     enemies := enemies w; onEnemySpawn := onEnemySpawn w;
     onWaveStart := onWaveStart w; onWaveComplete := onWaveComplete w;
     onAllWavesComplete := onAllWavesComplete w; isPaused := isPaused w;
     emitted := emitted w |}.

Definition set_stats (v : Stats) (w : t) : t :=
  {| waveData := waveData w; totalWaves := totalWaves w;
     currentWave := currentWave w; waveInProgress := waveInProgress w;
     waveComplete := waveComplete w; allWavesComplete := allWavesComplete w;
     enemiesSpawned := enemiesSpawned w; enemiesToSpawn := enemiesToSpawn w;
     spawnQueue := spawnQueue w; lastSpawnTime := lastSpawnTime w;
     nextSpawnTime := nextSpawnTime w; waveStartTime := waveStartTime w;
     timeBetweenWaves := timeBetweenWaves w;
     waveCountdown := waveCountdown w; isCountingDown := isCountingDown w;
     stats := v; enemies := enemies w; onEnemySpawn := onEnemySpawn w;
     onWaveStart := onWaveStart w; onWaveComplete := onWaveComplete w;
     onAllWavesComplete := onAllWavesComplete w; isPaused := isPaused w;
     emitted := emitted w |}.

Definition set_enemies (v : list Enemy.t) (w : t) : t :=
  {| waveData := waveData w; totalWaves := totalWaves w;
     currentWave := currentWave w; waveInProgress := waveInProgress w;
     waveComplete := waveComplete w; allWavesComplete := allWavesComplete w;
     enemiesSpawned := enemiesSpawned w; enemiesToSpawn := enemiesToSpawn w;
     spawnQueue := spawnQueue w; lastSpawnTime := lastSpawnTime w;
     nextSpawnTime := nextSpawnTime w; waveStartTime := waveStartTime w;
     timeBetweenWaves := timeBetweenWaves w;
     waveCountdown := waveCountdown w; isCountingDown := isCountingDown w;
     stats := stats w; enemies := v; onEnemySpawn := onEnemySpawn w;
     onWaveStart := onWaveStart w; onWaveComplete := onWaveComplete w;
     onAllWavesComplete := onAllWavesComplete w; isPaused := isPaused w;
     emitted := emitted w |}.

Definition set_isPaused (v : option bool) (w : t) : t :=
  {| waveData := waveData w; totalWaves := totalWaves w;
     currentWave := currentWave w; waveInProgress := waveInProgress w;
     waveComplete := waveComplete w; allWavesComplete := allWavesComplete w;
     enemiesSpawned := enemiesSpawned w; enemiesToSpawn := enemiesToSpawn w;
     spawnQueue := spawnQueue w; lastSpawnTime := lastSpawnTime w;
     nextSpawnTime := nextSpawnTime w; waveStartTime := waveStartTime w;
     timeBetweenWaves := timeBetweenWaves w;
     waveCountdown := waveCountdown w; isCountingDown := isCountingDown w;
     stats := stats w; enemies := enemies w; onEnemySpawn := onEnemySpawn w;
     onWaveStart := onWaveStart w; onWaveComplete := onWaveComplete w;
     onAllWavesComplete := onAllWavesComplete w; isPaused := v;
     emitted := emitted w |}.

Definition set_emitted (v : list Event) (w : t) : t :=
  {| waveData := waveData w; totalWaves := totalWaves w;
     currentWave := currentWave w; waveInProgress := waveInProgress w;
     waveComplete := waveComplete w; allWavesComplete := allWavesComplete w;
     enemiesSpawned := enemiesSpawned w; enemiesToSpawn := enemiesToSpawn w;
     spawnQueue := spawnQueue w; lastSpawnTime := lastSpawnTime w;
     nextSpawnTime := nextSpawnTime w; waveStartTime := waveStartTime w;
     timeBetweenWaves := timeBetweenWaves w;
     waveCountdown := waveCountdown w; isCountingDown := isCountingDown w;
     stats := stats w; enemies := enemies w; onEnemySpawn := onEnemySpawn w;
     onWaveStart := onWaveStart w; onWaveComplete := onWaveComplete w;
     onAllWavesComplete := onAllWavesComplete w; isPaused := isPaused w;
     emitted := v |}.

(** [new WaveManager(waveData)] *)
Definition new (data : list WaveDef) : t :=
  {| waveData := data; totalWaves := length data; currentWave := 0;
     waveInProgress := false; waveComplete := false; allWavesComplete := false;
     enemiesSpawned := 0; enemiesToSpawn := 0; spawnQueue := [];
     lastSpawnTime := 0; nextSpawnTime := 0; waveStartTime := 0;
     timeBetweenWaves := WAVE_INTERVAL; waveCountdown := 0;
     isCountingDown := false;
     stats := {| totalEnemiesSpawned := 0; totalWavesCompleted := 0;
                 averageWaveTime := JsNum.Fin 0; fastestWave := JsNum.PosInf;
                 slowestWave := JsNum.Fin 0 |};
     enemies := []; onEnemySpawn := None; onWaveStart := false;
     onWaveComplete := false; onAllWavesComplete := false;
     isPaused := None; emitted := [] |}.

(** [setCallbacks] with the four handlers of [Game.setupCallbacks]:
    [handleEnemySpawn] pushes the enemy on the game's array. *)
Definition setGameCallbacks (w : t) : t :=
  {| waveData := waveData w; totalWaves := totalWaves w;
     currentWave := currentWave w; waveInProgress := waveInProgress w;
     waveComplete := waveComplete w; allWavesComplete := allWavesComplete w;
     enemiesSpawned := enemiesSpawned w; enemiesToSpawn := enemiesToSpawn w;
     spawnQueue := spawnQueue w; lastSpawnTime := lastSpawnTime w;
     nextSpawnTime := nextSpawnTime w; waveStartTime := waveStartTime w;
     timeBetweenWaves := timeBetweenWaves w;
     waveCountdown := waveCountdown w; isCountingDown := isCountingDown w;
     stats := stats w; enemies := enemies w;
     onEnemySpawn := Some (fun enemy array => array ++ [enemy]);
     onWaveStart := true; onWaveComplete := true; onAllWavesComplete := true;
     isPaused := isPaused w; emitted := emitted w |}.

Definition emit (installed : bool) (ev : Event) (w : t) : t :=
  if installed then set_emitted (emitted w ++ [ev]) w else w.

Definition getCurrentWaveData (w : t) : option WaveDef :=
  if (length (waveData w) <=? currentWave w)%nat then None
  else nth_error (waveData w) (currentWave w).

Definition shouldShuffleSpawnOrder (w : t) : bool := (3 <=? currentWave w)%nat.

(** The inner loop of [prepareSpawnQueue]: [count] entries of one group are
    pushed, [enemiesToSpawn] counting up. *)
Fixpoint pushGroup (g : EnemyGroup) (count : nat)
    (queue : list SpawnEntry) (toSpawn : nat) : list SpawnEntry * nat :=
  match count with
  | O => (queue, toSpawn)
  | S count' =>
      pushGroup g count'
        (queue ++ [{| entry_type := group_type g;
                      spawnTime := inject_Z (Z.of_nat toSpawn) * group_spawnInterval g |}])
        (S toSpawn)
  end.

Fixpoint pushGroups (groups : list EnemyGroup)
    (queue : list SpawnEntry) (toSpawn : nat) : list SpawnEntry * nat :=
  match groups with
  | [] => (queue, toSpawn)
  | g :: rest =>
      let '(queue, toSpawn) := pushGroup g (group_count g) queue toSpawn in
      pushGroups rest queue toSpawn
  end.

Fixpoint list_set {A : Type} (i : nat) (v : A) (l : list A) : list A :=
  match l, i with
  | [], _ => []
  | _ :: rest, O => v :: rest
  | x :: rest, S i' => x :: list_set i' v rest
  end.

(** [[q[i], q[j]] = [q[j], q[i]]] *)
Definition swap (i j : nat) (q : list SpawnEntry) : list SpawnEntry :=
  match nth_error q i, nth_error q j with
  | Some a, Some b => list_set j a (list_set i b q)
  | _, _ => q
  end.

(** The Fisher-Yates loop, from index [i] down to 1; [k] counts the calls
    of [Math.random()] made so far. *)
Fixpoint fisherYates (random : nat -> Q) (i k : nat) (q : list SpawnEntry)
    : list SpawnEntry :=
  match i with
  | O => q
  | S i' =>
      let j := Z.to_nat (Qfloor (random k * inject_Z (Z.of_nat (i + 1)))) in
      fisherYates random i' (S k) (swap i j q)
  end.

(** [forEach((enemy, index) => enemy.spawnTime = index * 800)] *)
Fixpoint retime (index : nat) (q : list SpawnEntry) : list SpawnEntry :=
  match q with
  | [] => []
  | e :: rest =>
      {| entry_type := entry_type e; spawnTime := inject_Z (Z.of_nat index) * 800 |}
      :: retime (S index) rest
  end.

Definition shuffleSpawnQueue (env : Env) (w : t) : t :=
  let q := fisherYates (random env) (length (spawnQueue w) - 1) 0 (spawnQueue w) in
  set_spawnQueue (retime 0 q) w.

Definition prepareSpawnQueue (env : Env) (data : WaveDef) (w : t) : t :=
  let '(queue, toSpawn) := pushGroups (wave_enemies data) [] 0 in
  let w := set_enemiesToSpawn toSpawn (set_spawnQueue queue w) in
  if shouldShuffleSpawnOrder w then shuffleSpawnQueue env w else w.

Definition getNextSpawnDelay (w : t) : Q :=
  match nth_error (spawnQueue w) (enemiesSpawned w) with
  | None => 0
  | Some nextEnemy =>
      match enemiesSpawned w with
      | O => spawnTime nextEnemy
      | S previous =>
          match nth_error (spawnQueue w) previous with
          | None => spawnTime nextEnemy
          | Some currentEnemy =>
              Math_max 500 (spawnTime nextEnemy - spawnTime currentEnemy)
          end
      end
  end.

Definition initializeWave (env : Env) (w : t) : t :=
  match getCurrentWaveData w with
  | None => w
  | Some data =>
      let w := set_waveInProgress true w in
      let w := set_waveComplete false w in
      let w := set_waveStartTime (now env) w in
      let w := prepareSpawnQueue env data w in
      let w := set_enemiesSpawned 0 w in
      let w := set_lastSpawnTime (now env) w in
      set_nextSpawnTime (lastSpawnTime w + getNextSpawnDelay w) w
  end.

Definition completeAllWaves (w : t) : t :=
  if allWavesComplete w then w
  else
    let w := set_allWavesComplete true w in
    let w := set_isCountingDown false w in
    emit (onAllWavesComplete w) (AllWavesComplete (stats w)) w.

(** Returns the manager after the call and the returned boolean. *)
Definition startNextWave (env : Env) (manual : bool) (w : t) : t * bool :=
  if waveInProgress w || allWavesComplete w then (w, false)
  else if (totalWaves w <=? currentWave w)%nat then (completeAllWaves w, false)
  else
    let w :=
      if manual && isCountingDown w
      then set_waveCountdown 0 (set_isCountingDown false w)
      else w in
    let w := initializeWave env w in
    let w := emit (onWaveStart w)
               (WaveStart (currentWave w + 1) (getCurrentWaveData w)) w in
    (w, true).

Section WithMath.
Context {M : MathLib}.

Definition spawnNextEnemy (env : Env) (w : t) : t :=
  match nth_error (spawnQueue w) (enemiesSpawned w) with
  | None => w
  | Some enemyData =>
      let enemy := Enemy.new (entry_type enemyData) in
      let w :=
        match onEnemySpawn w with
        | Some handler =>
            emit true (EnemySpawn enemy) (set_enemies (handler enemy (enemies w)) w)
        | None => w
        end in
      let w := set_enemiesSpawned (enemiesSpawned w + 1) w in
      let s := stats w in
      let w := set_stats
                 {| totalEnemiesSpawned := totalEnemiesSpawned s + 1;
                    totalWavesCompleted := totalWavesCompleted s;
                    averageWaveTime := averageWaveTime s;
                    fastestWave := fastestWave s;
                    slowestWave := slowestWave s |} w in
      let w := set_lastSpawnTime (now env) w in
      set_nextSpawnTime (lastSpawnTime w + getNextSpawnDelay w) w
  end.

Definition processEnemySpawning (env : Env) (w : t) : t :=
  if (enemiesToSpawn w <=? enemiesSpawned w)%nat then w
  else if Qleb (nextSpawnTime w) (now env) then spawnNextEnemy env w
  else w.

End WithMath.

Definition updateWaveStats (waveTime : Q) (w : t) : t :=
  let s := stats w in
  let totalTime :=
    JsNum.add
      (JsNum.mul (averageWaveTime s) (JsNum.of_Z (totalWavesCompleted s - 1)))
      (JsNum.Fin waveTime) in
  let average := JsNum.div totalTime (JsNum.of_Z (totalWavesCompleted s)) in
  let fastest :=
    if JsNum.ltb (JsNum.Fin waveTime) (fastestWave s)
    then JsNum.Fin waveTime else fastestWave s in
  let slowest :=
    if JsNum.ltb (slowestWave s) (JsNum.Fin waveTime)
    then JsNum.Fin waveTime else slowestWave s in
  set_stats {| totalEnemiesSpawned := totalEnemiesSpawned s;
               totalWavesCompleted := totalWavesCompleted s;
               averageWaveTime := average;
               fastestWave := fastest;
               slowestWave := slowest |} w.

Definition startWaveCountdown (w : t) : t :=
  set_waveCountdown (timeBetweenWaves w) (set_isCountingDown true w).

Definition completeCurrentWave (env : Env) (w : t) : t :=
  if waveComplete w then w
  else
    let w := set_waveComplete true w in
    let w := set_waveInProgress false w in
    let waveTime := now env - waveStartTime w in
    let w := updateWaveStats waveTime w in
    let w := set_currentWave (currentWave w + 1) w in
    let s := stats w in
    let w := set_stats
               {| totalEnemiesSpawned := totalEnemiesSpawned s;
                  totalWavesCompleted := totalWavesCompleted s + 1;
                  averageWaveTime := averageWaveTime s;
                  fastestWave := fastestWave s;
                  slowestWave := slowestWave s |} w in
    let w := emit (onWaveComplete w)
               (WaveComplete (currentWave w) waveTime (getCurrentWaveData w)) w in
    if (currentWave w <? totalWaves w)%nat then startWaveCountdown w else w.

Definition checkWaveCompletion (env : Env) (w : t) : t :=
  if waveComplete w then w
  else
    let allSpawned := (enemiesToSpawn w <=? enemiesSpawned w)%nat in
    let noEnemiesAlive :=
      (length (enemies w) =? 0)%nat
      || forallb (fun enemy => negb (Enemy.isAlive enemy)) (enemies w) in
    if allSpawned && noEnemiesAlive then completeCurrentWave env w else w.

Definition updateCountdown (env : Env) (deltaTime : Q) (w : t) : t :=
  if negb (isCountingDown w) then w
  else
    let w := set_waveCountdown (waveCountdown w - deltaTime) w in
    if Qleb (waveCountdown w) 0 then
      let w := set_waveCountdown 0 (set_isCountingDown false w) in
      fst (startNextWave env false w)
    else w.

Definition checkAllWavesComplete (w : t) : t :=
  if allWavesComplete w then w
  else if (totalWaves w <=? currentWave w)%nat && negb (waveInProgress w)
  then completeAllWaves w
  else w.

Section WithMath.
Context {M : MathLib}.

Definition update (env : Env) (deltaTime : Q) (currentEnemies : list Enemy.t)
    (w : t) : t :=
  let w := set_enemies currentEnemies w in
  let w := if isCountingDown w then updateCountdown env deltaTime w else w in
  let w :=
    if waveInProgress w
    then checkWaveCompletion env (processEnemySpawning env w)
    else w in
  checkAllWavesComplete w.

End WithMath.

Definition pause (w : t) : t := set_isPaused (Some true) w.

Definition resume (env : Env) (w : t) : t :=
  let w := set_isPaused (Some false) w in
  if waveInProgress w
  then set_nextSpawnTime (now env + getNextSpawnDelay w) w
  else w.

End WaveManager.

(** * Vocabulary of the specification, and scenarios *)

(** ** Splash damage as the specification words it *)

Module SplashSpec.
Import Helpers Projectile.

Section WithMath.
Context {M : MathLib}.

(** The distance of an enemy from the point of impact, and the splash
    damage the specification gives it. *)
Definition impactDistance (p : t) (e : Enemy.t) : Q :=
  distance (px (position p)) (py (position p))
    (px (Enemy.position e)) (py (Enemy.position e)).

(** [floor(floor(damage * 0.7) * (1 - distance / splashRadius))], each
    operation giving the double nearest to its exact result. *)
Definition splashDamageAt (p : t) (e : Enemy.t) : Q :=
  Math_floor
    (double (Math_floor (double (damage p * double 0.7))
             * double (1 - double (impactDistance p e / splashRadius p)))).

(** An enemy other than the struck one after the splash: it takes the
    splash damage when it is alive, within the radius, and the damage is
    positive; it is left as it was otherwise. *)
Definition splashed (p : t) (e : Enemy.t) : Enemy.t :=
  if Enemy.alive e && Qleb (impactDistance p e) (splashRadius p)
     && Qltb 0 (splashDamageAt p e)
  then fst (Enemy.takeDamage (splashDamageAt p e) e)
  else e.

End WithMath.
End SplashSpec.

(** ** Towers, enemies and projectiles of the examples *)

Module CombatScenario.

(** A basic enemy with its position and progress assigned directly, as the
    test suite does ([enemy.position.x = 120; enemy.pathProgress = 0.8]). *)
Definition enemy_at (x y progress : Q) : Enemy.t :=
  let e := @Enemy.new table_math BASIC in
  Enemy.set_placement {| px := x; py := y |} (Enemy.angle e) (Enemy.direction e)
    (Enemy.set_pathProgress progress e).


(** Two candidates equally far from the end: the first of the list wins. *)
Definition tied_enemies : Heap :=
  fun r => match r with
           | O => enemy_at 120 100 0.5
           | _ => enemy_at 130 100 0.5
           end.

(** A basic tower at (100,100), as constructed. *)
Definition tower_built : Tower.t := Tower.new Tower.BASIC 100 100.

(** One enemy in range: to the left of the tower (bearing PI, the turret
    at angle 0), or to its right (bearing 0, the turret already aligned). *)
Definition enemy_left : Heap := fun _ => enemy_at 50 100 0.
Definition enemy_right : Heap := fun _ => enemy_at 150 100 0.

(** A clock reading: the cooldown since [lastShotTime = 0] has elapsed. *)
Definition clock : Q := 1700000000000.

(** Three basic enemies on a line, at x = 100, 130 and 200. *)
Definition three_enemies : Heap :=
  fun r => match r with
           | 0%nat => enemy_at 100 100 0
           | 1%nat => enemy_at 130 100 0
           | _ => enemy_at 200 100 0
           end.

(** The projectile of an area tower (damage 40, radius 50) fired from
    (90,100) at the first enemy, and a plain projectile of damage 25. *)
Definition splash_projectile : Projectile.t :=
  @Projectile.new table_math 90 100 (Some 0%nat) 40 150 true 50 three_enemies.

Definition plain_projectile : Projectile.t :=
  @Projectile.new table_math 90 100 (Some 0%nat) 25 200 false 0 three_enemies.

End CombatScenario.

(** ** Waves of the examples *)

Module WaveScenario.
Import WaveManager.

(** The environment of the examples: a fixed clock and random source. *)
Definition at_time (time : Q) : Env := {| now := time; random := fun _ => 0 |}.

(** A run of [update] calls, each with its environment, elapsed time and
    enemies array. *)
Fixpoint run {M : MathLib} (frames : list (Env * Q * list Enemy.t)) (w : t) : t :=
  match frames with
  | [] => w
  | (env, deltaTime, currentEnemies) :: rest =>
      run rest (update env deltaTime currentEnemies w)
  end.

(** Frames at the given clock readings, 16 ms apart in elapsed time, with an
    empty enemies array. *)
Definition frames_at (times : list Q) : list (Env * Q * list Enemy.t) :=
  map (fun time => (at_time time, 16, [])) times.

(** The first wave, started by hand at time 0 and played to its end: its
    ten enemies leave at 0, 1000, ..., 9000 ms. *)
Definition wave1_started : t := fst (startNextWave (at_time 0) true (new WAVE_DATA)).

Definition wave1_done : t :=
  @run table_math
    (frames_at [0; 1000; 2000; 3000; 4000; 5000; 6000; 7000; 8000; 9000])
    wave1_started.

(** The same wave with the game's handlers installed.  The game keeps one
    array of enemies and passes it to every [update]; the spawn handler
    pushes on it. *)
Definition game_wave1_started : t :=
  fst (startNextWave (at_time 0) true (setGameCallbacks (new WAVE_DATA))).

Fixpoint game_run {M : MathLib} (times : list Q) (w : t) : t :=
  match times with
  | [] => w
  | time :: rest => game_run rest (update (at_time time) 16 (enemies w) w)
  end.

Definition game_wave1_spawned : t :=
  @game_run table_math
    [0; 1000; 2000; 3000; 4000; 5000; 6000; 7000; 8000; 9000]
    game_wave1_started.

(** What the specification says of a start during a countdown. *)
Definition cancels_countdown (env : Env) (manual : bool) (w : t) : Prop :=
  isCountingDown (fst (startNextWave env manual w)) = false /\
  waveCountdown (fst (startNextWave env manual w)) == 0.

(** The second wave, started by hand during the countdown at 10000 ms and
    played to its end: its fifteen enemies leave 800 ms apart. *)
Definition wave2_started : t := fst (startNextWave (at_time 10000) true wave1_done).

Definition wave2_done : t :=
  @run table_math
    (frames_at [10000; 10800; 11600; 12400; 13200; 14000; 14800; 15600; 16400;
                17200; 18000; 18800; 19600; 20400; 21200])
    wave2_started.

(** The third wave of [WAVE_DATA]. *)
Definition wave3 : WaveDef :=
  {| waveNumber := 3; wave_enemies := [group BASIC 10 800; group TANK 3 2000];
     wave_reward := 100 |}.

(** The third wave of the game, reached after the first two. *)
Definition wave3_started : t :=
  fst (startNextWave (at_time 30000) true wave2_done).

Definition dead_enemy : Enemy.t :=
  fst (Enemy.takeDamage 100 (@Enemy.new table_math BASIC)).

End WaveScenario.

(** * The rest of the game: grid, map, economy and the frames of the game *)

(** ** helpers.js: the grid *)

(** Grid coordinates are the integers [Math.floor] returns. *)
Module Grid.
Import Helpers.

Definition GRID_SIZE : Q := 64.

Record GridPos := { gridX : Z; gridY : Z }.

Definition pixelToGrid (pixelX pixelY : Q) : GridPos :=
  {| gridX := Qfloor (pixelX / GRID_SIZE);
     gridY := Qfloor (pixelY / GRID_SIZE) |}.

(** The centre of the cell: [px] is [pixelX] and [py] is [pixelY]. *)
Definition gridToPixel (gridX gridY : Z) : Point :=
  {| px := inject_Z gridX * GRID_SIZE + GRID_SIZE / 2;
     py := inject_Z gridY * GRID_SIZE + GRID_SIZE / 2 |}.

Definition isValidGridPosition (gridX gridY : Z) : bool :=
  let maxGridX := Qfloor (CANVAS_WIDTH / GRID_SIZE) in
  let maxGridY := Qfloor (CANVAS_HEIGHT / GRID_SIZE) in
  (0 <=? gridX)%Z && (gridX <? maxGridX)%Z && (0 <=? gridY)%Z && (gridY <? maxGridY)%Z.

End Grid.

(** ** pathData.js: points on the path *)

Module PathQueries.
Import Helpers PathData.

(** [PATH_CONFIG.width] *)
Definition PATH_WIDTH : Q := 40.

Section WithMath.
Context {M : MathLib}.

Definition distancePointToLineSegment (pointX pointY x1 y1 x2 y2 : Q) : Q :=
  let A := pointX - x1 in
  let B := pointY - y1 in
  let C := x2 - x1 in
  let D := y2 - y1 in
  let dot := A * C + B * D in
  let lenSq := C * C + D * D in
  if Qeq_bool lenSq 0 then distance pointX pointY x1 y1
  else
    let param := dot / lenSq in
    let nearest :=
      if Qltb param 0 then {| px := x1; py := y1 |}
      else if Qltb 1 param then {| px := x2; py := y2 |}
      else {| px := x1 + param * C; py := y1 + param * D |} in
    distance pointX pointY (px nearest) (py nearest).

(** The loop [for (i = 1; i < length; i++)] of [isOnPath]. *)
Fixpoint onSegments (x y tolerance : Q) (prev : Point) (rest : list Point) : bool :=
  match rest with
  | [] => false
  | curr :: rest' =>
      let distanceToSegment :=
        distancePointToLineSegment x y (px prev) (py prev) (px curr) (py curr) in
      if Qleb distanceToSegment tolerance then true
      else onSegments x y tolerance curr rest'
  end.

Definition isOnPath (x y tolerance : Q) : bool :=
  match PATH_COORDINATES with
  | [] => false
  | p0 :: rest => onSegments x y tolerance p0 rest
  end.

(** The tolerance when the argument is left out. *)
Definition defaultTolerance : Q := PATH_WIDTH / 2.

End WithMath.
End PathQueries.

(** ** EconomyManager.js *)

(** The transaction's identifier, metadata and timestamp are stored for
    display only and are left out; so are the four callbacks, whose handlers
    in [Game] log and notify the interface. *)
Module EconomyManager.

Inductive TransactionType := income | expense.

(** The labels the game passes as [source] or [purpose]; [other_label]
    stands for any other string. *)
Inductive Label := enemy_kill | wave_bonus | tower_purchase | unknown | other_label.

Record Transaction := {
  txn_type : TransactionType;
  txn_amount : Q;
  txn_source : Label;
  txn_balanceAfter : Q
}.

Record Stats := {
  totalEarned : Q;
  totalSpent : Q;
  enemiesKilledForMoney : Z;
  towersBuilt : Z;
  averageEarningsPerEnemy : Q;
  biggestTransaction : Q;
  totalTransactions : Z
}.

Record t := {
  money : Q;
  startingMoney : Q;
  transactions : list Transaction;
  stats : Stats;
  earningsMultiplier : Q;
  costMultiplier : Q;
  bonusActive : bool;
  bonusEndTime : Q
}.

Definition maxTransactionHistory : nat := 100.

Definition STARTING_MONEY : Q := 500.

Definition set_money (v : Q) (e : t) : t :=
  {| money := v; startingMoney := startingMoney e;
     transactions := transactions e; stats := stats e;
     earningsMultiplier := earningsMultiplier e;
     costMultiplier := costMultiplier e; bonusActive := bonusActive e;
     bonusEndTime := bonusEndTime e |}.

Definition set_transactions (v : list Transaction) (e : t) : t :=
  {| money := money e; startingMoney := startingMoney e;
     transactions := v; stats := stats e;
     earningsMultiplier := earningsMultiplier e;
     costMultiplier := costMultiplier e; bonusActive := bonusActive e;
     bonusEndTime := bonusEndTime e |}.

Definition set_stats (v : Stats) (e : t) : t :=
  {| money := money e; startingMoney := startingMoney e;
     transactions := transactions e; stats := v;
     earningsMultiplier := earningsMultiplier e;
     costMultiplier := costMultiplier e; bonusActive := bonusActive e;
     bonusEndTime := bonusEndTime e |}.

(** The three assignments of [activateBonus] and [deactivateBonus]. *)
Definition set_bonus (multiplier : Q) (active : bool) (endTime : Q) (e : t) : t :=
  {| money := money e; startingMoney := startingMoney e;
     transactions := transactions e; stats := stats e;
     earningsMultiplier := multiplier;
     costMultiplier := costMultiplier e; bonusActive := active;
     bonusEndTime := endTime |}.

Definition set_multipliers (earnings cost : Q) (e : t) : t :=
  {| money := money e; startingMoney := startingMoney e;
     transactions := transactions e; stats := stats e;
     earningsMultiplier := earnings;
     costMultiplier := cost; bonusActive := bonusActive e;
     bonusEndTime := bonusEndTime e |}.

Definition emptyStats : Stats :=
  {| totalEarned := 0; totalSpent := 0; enemiesKilledForMoney := 0;
     towersBuilt := 0; averageEarningsPerEnemy := 0; biggestTransaction := 0;
     totalTransactions := 0 |}.

(** [new EconomyManager(startingMoney)] *)
Definition new (startingMoney : Q) : t :=
  {| money := startingMoney; startingMoney := startingMoney;
     transactions := []; stats := emptyStats;
     earningsMultiplier := 1; costMultiplier := 1;
     bonusActive := false; bonusEndTime := 0 |}.

Definition recordTransaction (type : TransactionType) (amount : Q)
    (source : Label) (e : t) : t :=
  let transaction :=
    {| txn_type := type; txn_amount := amount; txn_source := source;
       txn_balanceAfter := money e |} in
  let e := set_transactions (transactions e ++ [transaction]) e in
  let s := stats e in
  set_stats
    {| totalEarned := totalEarned s; totalSpent := totalSpent s;
       enemiesKilledForMoney := enemiesKilledForMoney s;
       towersBuilt := towersBuilt s;
       averageEarningsPerEnemy := averageEarningsPerEnemy s;
       biggestTransaction :=
         if Qltb (biggestTransaction s) amount then amount
         else biggestTransaction s;
       totalTransactions := totalTransactions s + 1 |} e.

Definition updateEarningsStats (amount : Q) (source : Label) (e : t) : t :=
  let s := stats e in
  let earned := totalEarned s + amount in
  match source with
  | enemy_kill =>
      let killed := (enemiesKilledForMoney s + 1)%Z in
      set_stats
        {| totalEarned := earned; totalSpent := totalSpent s;
           enemiesKilledForMoney := killed;
           towersBuilt := towersBuilt s;
           averageEarningsPerEnemy := earned / inject_Z killed;
           biggestTransaction := biggestTransaction s;
           totalTransactions := totalTransactions s |} e
  | _ =>
      set_stats
        {| totalEarned := earned; totalSpent := totalSpent s;
           enemiesKilledForMoney := enemiesKilledForMoney s;
           towersBuilt := towersBuilt s;
           averageEarningsPerEnemy := averageEarningsPerEnemy s;
           biggestTransaction := biggestTransaction s;
           totalTransactions := totalTransactions s |} e
  end.

Definition updateSpendingStats (amount : Q) (purpose : Label) (e : t) : t :=
  let s := stats e in
  set_stats
    {| totalEarned := totalEarned s; totalSpent := totalSpent s + amount;
       enemiesKilledForMoney := enemiesKilledForMoney s;
       towersBuilt :=
         match purpose with
         | tower_purchase => (towersBuilt s + 1)%Z
         | _ => towersBuilt s
         end;
       averageEarningsPerEnemy := averageEarningsPerEnemy s;
       biggestTransaction := biggestTransaction s;
       totalTransactions := totalTransactions s |} e.

Section WithMath.
Context {M : MathLib}.

(** The products with a multiplier are those of doubles, rounded down by
    [Math.floor]. *)

(** Returns the manager after the call and the returned amount of money. *)
Definition addMoney (amount : Q) (source : Label) (e : t) : t * Q :=
  if Qleb amount 0 then (e, money e)
  else
    let finalAmount := Math_floor (double (amount * earningsMultiplier e)) in
    let e := set_money (money e + finalAmount) e in
    let e := recordTransaction income finalAmount source e in
    let e := updateEarningsStats finalAmount source e in
    (e, money e).

Definition canAfford (cost : Q) (e : t) : bool :=
  let finalCost := Math_floor (double (cost * costMultiplier e)) in
  Qleb finalCost (money e).

(** Returns the manager after the call and the returned boolean. *)
Definition spendMoney (amount : Q) (purpose : Label) (e : t) : t * bool :=
  if Qleb amount 0 then (e, false)
  else
    let finalAmount := Math_floor (double (amount * costMultiplier e)) in
    if negb (canAfford finalAmount e) then (e, false)
    else
      let e := set_money (money e - finalAmount) e in
      let e := recordTransaction expense finalAmount purpose e in
      let e := updateSpendingStats finalAmount purpose e in
      (e, true).

Definition getFinalCost (baseCost : Q) (e : t) : Q :=
  Math_floor (double (baseCost * costMultiplier e)).

Definition getFinalEarnings (baseEarnings : Q) (e : t) : Q :=
  Math_floor (double (baseEarnings * earningsMultiplier e)).

(** Returns the manager after the call and the returned reward. *)
Definition processEnemyKillReward (enemy : Enemy.t) (e : t) : t * Q :=
  let baseReward := Enemy.reward enemy in
  let finalReward := getFinalEarnings baseReward e in
  (fst (addMoney finalReward enemy_kill e), finalReward).

(** [TOWER_TYPES[towerType].cost] *)
Definition cost (k : Tower.Kind) : Q :=
  match k with
  | Tower.BASIC => 100
  | Tower.SNIPER => 250
  | Tower.AREA => 175
  end.

(** [towerType] is [None] when the string names no tower type (or is null). *)
Definition processTowerPurchase (towerType : option Tower.Kind) (e : t) : t * bool :=
  match towerType with
  | None => (e, false)
  | Some k =>
      let baseCost := cost k in
      let finalCost := getFinalCost baseCost e in
      spendMoney finalCost tower_purchase e
  end.

End WithMath.

Definition activateBonus (now multiplier duration : Q) (e : t) : t :=
  set_bonus multiplier true (now + duration) e.

Definition deactivateBonus (e : t) : t := set_bonus 1 false 0 e.

Definition updateBonuses (now : Q) (e : t) : t :=
  if bonusActive e && Qltb (bonusEndTime e) now then deactivateBonus e else e.

(** [splice(0, excess)] drops the oldest entries. *)
Definition cleanupTransactionHistory (e : t) : t :=
  if (maxTransactionHistory <? length (transactions e))%nat then
    let excess := (length (transactions e) - maxTransactionHistory)%nat in
    set_transactions (skipn excess (transactions e)) e
  else e.

Definition update (now : Q) (e : t) : t :=
  cleanupTransactionHistory (updateBonuses now e).

Definition setMultipliers (earnings cost : Q) (e : t) : t :=
  set_multipliers (Math_max 0.1 earnings) (Math_max 0.1 cost) e.

Definition reset (e : t) : t :=
  {| money := startingMoney e; startingMoney := startingMoney e;
     transactions := []; stats := emptyStats;
     earningsMultiplier := 1; costMultiplier := 1;
     bonusActive := false; bonusEndTime := 0 |}.

End EconomyManager.

(** ** Map.js *)

(** The matrix [occupiedCells[row][col]] is a function of the row and the
    column; every access of the code is guarded by the bounds of the grid. *)
Module GameMap.
Import Helpers Grid PathQueries.

Record Cell := {
  occupied : bool;
  isPath : bool;
  hasTower : bool;
  towerType : option Tower.Kind
}.

Record t := {
  gridCols : Z;
  gridRows : Z;
  occupiedCells : Z -> Z -> Cell
}.

Definition set_cell (gridX gridY : Z) (c : Cell) (m : t) : t :=
  {| gridCols := gridCols m; gridRows := gridRows m;
     occupiedCells := fun row col =>
       if (row =? gridY)%Z && (col =? gridX)%Z then c
       else occupiedCells m row col |}.

(** The guard of every access. *)
Definition inGrid (m : t) (gridX gridY : Z) : bool :=
  (0 <=? gridY)%Z && (gridY <? gridRows m)%Z &&
  (0 <=? gridX)%Z && (gridX <? gridCols m)%Z.

Section WithMath.
Context {M : MathLib}.

Definition initializeOccupiedCells : Z -> Z -> Cell :=
  fun row col =>
    let pixelPos := gridToPixel col row in
    let onPath := isOnPath (px pixelPos) (py pixelPos) (PATH_WIDTH / 2 + 10) in
    {| occupied := onPath; isPath := onPath; hasTower := false;
       towerType := None |}.

(** [new Map()] *)
Definition new : t :=
  {| gridCols := Qfloor (CANVAS_WIDTH / GRID_SIZE);
     gridRows := Qfloor (CANVAS_HEIGHT / GRID_SIZE);
     occupiedCells := initializeOccupiedCells |}.

Definition reset (m : t) : t :=
  {| gridCols := gridCols m; gridRows := gridRows m;
     occupiedCells := initializeOccupiedCells |}.

End WithMath.

Definition isValidTowerPlacement (gridX gridY : Z) (m : t) : bool :=
  if negb (isValidGridPosition gridX gridY) then false
  else if inGrid m gridX gridY
  then negb (occupied (occupiedCells m gridY gridX))
  else false.

Definition occupyCell (gridX gridY : Z) (kind : Tower.Kind) (m : t) : t :=
  if inGrid m gridX gridY then
    set_cell gridX gridY
      {| occupied := true; isPath := isPath (occupiedCells m gridY gridX);
         hasTower := true; towerType := Some kind |} m
  else m.

Definition freeCell (gridX gridY : Z) (m : t) : t :=
  if inGrid m gridX gridY then
    let cell := occupiedCells m gridY gridX in
    if negb (isPath cell) then
      set_cell gridX gridY
        {| occupied := false; isPath := isPath cell; hasTower := false;
           towerType := None |} m
    else m
  else m.

Definition getCellInfo (gridX gridY : Z) (m : t) : option Cell :=
  if inGrid m gridX gridY then Some (occupiedCells m gridY gridX) else None.

End GameMap.

(** ** game.js: enemies, cleaning up, placing towers *)

(** The fields of [Game] these methods read and write.  [rewardProcessed]
    is the property of that name the game sets on enemy objects. *)
Module GameFrame.

Record t := {
  lives : Z;
  enemies : list ref;
  heap : Heap;
  rewardProcessed : ref -> bool;
  towers : list Tower.t;
  projectiles : list Projectile.t;
  map : GameMap.t;
  economyManager : EconomyManager.t;
  selectedTowerType : option Tower.Kind;
  stats_livesLost : Z;
  stats_enemiesKilled : Z;
  stats_moneyEarned : Q;
  stats_towersBuilt : Z;
  stats_moneySpent : Q;
  stats_wavesCompleted : Z
}.

Definition STARTING_LIVES : Z := 20.

Definition set_lives (v : Z) (g : t) : t :=
  {| lives := v; enemies := enemies g; heap := heap g;
     rewardProcessed := rewardProcessed g; towers := towers g;
     projectiles := projectiles g; map := map g;
     economyManager := economyManager g;
     selectedTowerType := selectedTowerType g;
     stats_livesLost := stats_livesLost g;
     stats_enemiesKilled := stats_enemiesKilled g;
     stats_moneyEarned := stats_moneyEarned g;
     stats_towersBuilt := stats_towersBuilt g;
     stats_moneySpent := stats_moneySpent g;
     stats_wavesCompleted := stats_wavesCompleted g |}.

Definition set_enemies (v : list ref) (g : t) : t :=
  {| lives := lives g; enemies := v; heap := heap g;
     rewardProcessed := rewardProcessed g; towers := towers g;
     projectiles := projectiles g; map := map g;
     economyManager := economyManager g;
     selectedTowerType := selectedTowerType g;
     stats_livesLost := stats_livesLost g;
     stats_enemiesKilled := stats_enemiesKilled g;
     stats_moneyEarned := stats_moneyEarned g;
     stats_towersBuilt := stats_towersBuilt g;
     stats_moneySpent := stats_moneySpent g;
     stats_wavesCompleted := stats_wavesCompleted g |}.

Definition set_heap (v : Heap) (g : t) : t :=
  {| lives := lives g; enemies := enemies g; heap := v;
     rewardProcessed := rewardProcessed g; towers := towers g;
     projectiles := projectiles g; map := map g;
     economyManager := economyManager g;
     selectedTowerType := selectedTowerType g;
     stats_livesLost := stats_livesLost g;
     stats_enemiesKilled := stats_enemiesKilled g;
     stats_moneyEarned := stats_moneyEarned g;
     stats_towersBuilt := stats_towersBuilt g;
     stats_moneySpent := stats_moneySpent g;
     stats_wavesCompleted := stats_wavesCompleted g |}.

Definition set_rewardProcessed (v : ref -> bool) (g : t) : t :=
  {| lives := lives g; enemies := enemies g; heap := heap g;
     rewardProcessed := v; towers := towers g; projectiles := projectiles g;
     map := map g; economyManager := economyManager g;
     selectedTowerType := selectedTowerType g;
     stats_livesLost := stats_livesLost g;
     stats_enemiesKilled := stats_enemiesKilled g;
     stats_moneyEarned := stats_moneyEarned g;
     stats_towersBuilt := stats_towersBuilt g;
     stats_moneySpent := stats_moneySpent g;
     stats_wavesCompleted := stats_wavesCompleted g |}.

Definition set_towers (v : list Tower.t) (g : t) : t :=
  {| lives := lives g; enemies := enemies g; heap := heap g;
     rewardProcessed := rewardProcessed g; towers := v;
     projectiles := projectiles g; map := map g;
     economyManager := economyManager g;
     selectedTowerType := selectedTowerType g;
     stats_livesLost := stats_livesLost g;
     stats_enemiesKilled := stats_enemiesKilled g;
     stats_moneyEarned := stats_moneyEarned g;
     stats_towersBuilt := stats_towersBuilt g;
     stats_moneySpent := stats_moneySpent g;
     stats_wavesCompleted := stats_wavesCompleted g |}.

Definition set_projectiles (v : list Projectile.t) (g : t) : t :=
  {| lives := lives g; enemies := enemies g; heap := heap g;
     rewardProcessed := rewardProcessed g; towers := towers g;
     projectiles := v; map := map g; economyManager := economyManager g;
     selectedTowerType := selectedTowerType g;
     stats_livesLost := stats_livesLost g;
     stats_enemiesKilled := stats_enemiesKilled g;
     stats_moneyEarned := stats_moneyEarned g;
     stats_towersBuilt := stats_towersBuilt g;
     stats_moneySpent := stats_moneySpent g;
     stats_wavesCompleted := stats_wavesCompleted g |}.

Definition set_map (v : GameMap.t) (g : t) : t :=
  {| lives := lives g; enemies := enemies g; heap := heap g;
     rewardProcessed := rewardProcessed g; towers := towers g;
     projectiles := projectiles g; map := v;
     economyManager := economyManager g;
     selectedTowerType := selectedTowerType g;
     stats_livesLost := stats_livesLost g;
     stats_enemiesKilled := stats_enemiesKilled g;
     stats_moneyEarned := stats_moneyEarned g;
     stats_towersBuilt := stats_towersBuilt g;
     stats_moneySpent := stats_moneySpent g;
     stats_wavesCompleted := stats_wavesCompleted g |}.

Definition set_economyManager (v : EconomyManager.t) (g : t) : t :=
  {| lives := lives g; enemies := enemies g; heap := heap g;
     rewardProcessed := rewardProcessed g; towers := towers g;
     projectiles := projectiles g; map := map g; economyManager := v;
     selectedTowerType := selectedTowerType g;
     stats_livesLost := stats_livesLost g;
     stats_enemiesKilled := stats_enemiesKilled g;
     stats_moneyEarned := stats_moneyEarned g;
     stats_towersBuilt := stats_towersBuilt g;
     stats_moneySpent := stats_moneySpent g;
     stats_wavesCompleted := stats_wavesCompleted g |}.

Definition set_selectedTowerType (v : option Tower.Kind) (g : t) : t :=
  {| lives := lives g; enemies := enemies g; heap := heap g;
     rewardProcessed := rewardProcessed g; towers := towers g;
     projectiles := projectiles g; map := map g;
     economyManager := economyManager g; selectedTowerType := v;
     stats_livesLost := stats_livesLost g;
     stats_enemiesKilled := stats_enemiesKilled g;
     stats_moneyEarned := stats_moneyEarned g;
     stats_towersBuilt := stats_towersBuilt g;
     stats_moneySpent := stats_moneySpent g;
     stats_wavesCompleted := stats_wavesCompleted g |}.

Definition set_stats_livesLost (v : Z) (g : t) : t :=
  {| lives := lives g; enemies := enemies g; heap := heap g;
     rewardProcessed := rewardProcessed g; towers := towers g;
     projectiles := projectiles g; map := map g;
     economyManager := economyManager g;
     selectedTowerType := selectedTowerType g; stats_livesLost := v;
     stats_enemiesKilled := stats_enemiesKilled g;
     stats_moneyEarned := stats_moneyEarned g;
     stats_towersBuilt := stats_towersBuilt g;
     stats_moneySpent := stats_moneySpent g;
     stats_wavesCompleted := stats_wavesCompleted g |}.

Definition set_stats_enemiesKilled (v : Z) (g : t) : t :=
  {| lives := lives g; enemies := enemies g; heap := heap g;
     rewardProcessed := rewardProcessed g; towers := towers g;
     projectiles := projectiles g; map := map g;
     economyManager := economyManager g;
     selectedTowerType := selectedTowerType g;
     stats_livesLost := stats_livesLost g; stats_enemiesKilled := v;
     stats_moneyEarned := stats_moneyEarned g;
     stats_towersBuilt := stats_towersBuilt g;
     stats_moneySpent := stats_moneySpent g;
     stats_wavesCompleted := stats_wavesCompleted g |}.

Definition set_stats_moneyEarned (v : Q) (g : t) : t :=
  {| lives := lives g; enemies := enemies g; heap := heap g;
     rewardProcessed := rewardProcessed g; towers := towers g;
     projectiles := projectiles g; map := map g;
     economyManager := economyManager g;
     selectedTowerType := selectedTowerType g;
     stats_livesLost := stats_livesLost g;
     stats_enemiesKilled := stats_enemiesKilled g; stats_moneyEarned := v;
     stats_towersBuilt := stats_towersBuilt g;
     stats_moneySpent := stats_moneySpent g;
     stats_wavesCompleted := stats_wavesCompleted g |}.

Definition set_stats_towersBuilt (v : Z) (g : t) : t :=
  {| lives := lives g; enemies := enemies g; heap := heap g;
     rewardProcessed := rewardProcessed g; towers := towers g;
     projectiles := projectiles g; map := map g;
     economyManager := economyManager g;
     selectedTowerType := selectedTowerType g;
     stats_livesLost := stats_livesLost g;
     stats_enemiesKilled := stats_enemiesKilled g;
     stats_moneyEarned := stats_moneyEarned g; stats_towersBuilt := v;
     stats_moneySpent := stats_moneySpent g;
     stats_wavesCompleted := stats_wavesCompleted g |}.

Definition set_stats_moneySpent (v : Q) (g : t) : t :=
  {| lives := lives g; enemies := enemies g; heap := heap g;
     rewardProcessed := rewardProcessed g; towers := towers g;
     projectiles := projectiles g; map := map g;
     economyManager := economyManager g;
     selectedTowerType := selectedTowerType g;
     stats_livesLost := stats_livesLost g;
     stats_enemiesKilled := stats_enemiesKilled g;
     stats_moneyEarned := stats_moneyEarned g;
     stats_towersBuilt := stats_towersBuilt g; stats_moneySpent := v;
     stats_wavesCompleted := stats_wavesCompleted g |}.

Definition set_stats_wavesCompleted (v : Z) (g : t) : t :=
  {| lives := lives g; enemies := enemies g; heap := heap g;
     rewardProcessed := rewardProcessed g; towers := towers g;
     projectiles := projectiles g; map := map g;
     economyManager := economyManager g;
     selectedTowerType := selectedTowerType g;
     stats_livesLost := stats_livesLost g;
     stats_enemiesKilled := stats_enemiesKilled g;
     stats_moneyEarned := stats_moneyEarned g;
     stats_towersBuilt := stats_towersBuilt g;
     stats_moneySpent := stats_moneySpent g; stats_wavesCompleted := v |}.

Definition handleEnemyReachedEnd (enemy : ref) (g : t) : t :=
  let g := set_lives (lives g - 1) g in
  let g := set_stats_livesLost (stats_livesLost g + 1) g in
  set_heap (heap_set (heap g) enemy (Enemy.set_alive false (heap g enemy))) g.

Section WithMath.
Context {M : MathLib}.

Definition handleEnemyKilled (enemy : ref) (g : t) : t :=
  let g := set_stats_enemiesKilled (stats_enemiesKilled g + 1) g in
  let '(economy, reward) :=
    EconomyManager.processEnemyKillReward (heap g enemy) (economyManager g) in
  let g := set_economyManager economy g in
  set_stats_moneyEarned (stats_moneyEarned g + reward) g.

(** One call of the predicate of [this.enemies.filter(...)]: the game after
    it and whether the enemy is kept. *)
Definition cleanupEnemy (g : t) (enemy : ref) : t * bool :=
  if negb (Enemy.isAlive (heap g enemy)) && negb (Enemy.hasReachedEnd (heap g enemy))
  then
    let g :=
      if negb (rewardProcessed g enemy) then
        let g := handleEnemyKilled enemy g in
        set_rewardProcessed
          (fun r => if Nat.eqb r enemy then true else rewardProcessed g r) g
      else g in
    (g, false)
  else if Enemy.hasReachedEnd (heap g enemy) then (g, false)
  else (g, true).

Fixpoint cleanupEnemies (array : list ref) (g : t) : t * list ref :=
  match array with
  | [] => (g, [])
  | enemy :: rest =>
      let '(g, keep) := cleanupEnemy g enemy in
      let '(g, kept) := cleanupEnemies rest g in
      (g, if keep then enemy :: kept else kept)
  end.

Definition cleanupEntities (g : t) : t :=
  let '(g, kept) := cleanupEnemies (enemies g) g in
  let g := set_enemies kept g in
  set_projectiles
    (filter (fun p => Projectile.isActive p && negb (Projectile.markedForRemoval p))
       (projectiles g)) g.

(** [handleWaveComplete(waveNumber, time, waveData)]: reading [reward] of a
    null [waveData] throws. *)
Definition handleWaveComplete (waveData : option WaveManager.WaveDef) (g : t)
    : t * Outcome unit :=
  let g := set_stats_wavesCompleted (stats_wavesCompleted g + 1) g in
  match waveData with
  | None => (g, Throws TypeError)
  | Some data =>
      if Qeq_bool (WaveManager.wave_reward data) 0 then (g, Returns tt)
      else
        (set_economyManager
           (fst (EconomyManager.addMoney (WaveManager.wave_reward data)
                   EconomyManager.wave_bonus (economyManager g))) g,
         Returns tt)
  end.

(** [selectTowerType] also tells the interface and clears the towers'
    [selected] and [showRange] flags, which only the rendering reads. *)
Definition selectTowerType (towerType : option Tower.Kind) (g : t) : t :=
  set_selectedTowerType towerType g.

Definition attemptTowerPlacement (x y : Q) (g : t) : t :=
  let gridPos := Grid.pixelToGrid x y in
  if negb (GameMap.isValidTowerPlacement
             (Grid.gridX gridPos) (Grid.gridY gridPos) (map g))
  then g
  else
    let '(economy, bought) :=
      EconomyManager.processTowerPurchase (selectedTowerType g) (economyManager g) in
    let g := set_economyManager economy g in
    match (if bought then selectedTowerType g else None) with
    | None => g
    | Some kind =>
        let pixelPos := Grid.gridToPixel (Grid.gridX gridPos) (Grid.gridY gridPos) in
        let tower := Tower.new kind (px pixelPos) (py pixelPos) in
        let g := set_towers (towers g ++ [tower]) g in
        let g := set_map
                   (GameMap.occupyCell (Grid.gridX gridPos) (Grid.gridY gridPos)
                      kind (map g)) g in
        let g := set_stats_towersBuilt (stats_towersBuilt g + 1) g in
        let g := set_stats_moneySpent
                   (stats_moneySpent g + EconomyManager.cost kind) g in
        selectTowerType None g
    end.

(** The body of [this.enemies.forEach(enemy => ...)] for one enemy. *)
Definition updateEnemy (deltaTime : Q) (g : t) (enemy : ref) : t :=
  let g := set_heap
             (heap_set (heap g) enemy (Enemy.update deltaTime (heap g enemy))) g in
  if Enemy.hasReachedEnd (heap g enemy) && Enemy.isAlive (heap g enemy)
  then handleEnemyReachedEnd enemy g
  else g.

Definition updateEnemies (deltaTime : Q) (g : t) : t :=
  fold_left (updateEnemy deltaTime) (enemies g) g.

End WithMath.

End GameFrame.

(** ** Sequences of calls on the economy manager *)

Module EconomyCalls.
Import EconomyManager.

Inductive Call :=
| AddMoney (amount : Q) (source : Label)
| SpendMoney (amount : Q) (purpose : Label)
| ProcessEnemyKillReward (enemy : Enemy.t)
| ProcessTowerPurchase (towerType : option Tower.Kind)
| Update (now : Q)
| ActivateBonus (now multiplier duration : Q)
| DeactivateBonus
| SetMultipliers (earnings cost : Q)
| Reset.

Section WithMath.
Context {M : MathLib}.

Definition call (e : t) (c : Call) : t :=
  match c with
  | AddMoney amount source => fst (addMoney amount source e)
  | SpendMoney amount purpose => fst (spendMoney amount purpose e)
  | ProcessEnemyKillReward enemy => fst (processEnemyKillReward enemy e)
  | ProcessTowerPurchase towerType => fst (processTowerPurchase towerType e)
  | Update now => update now e
  | ActivateBonus now multiplier duration => activateBonus now multiplier duration e
  | DeactivateBonus => deactivateBonus e
  | SetMultipliers earnings cost => setMultipliers earnings cost e
  | Reset => reset e
  end.

Definition calls (cs : list Call) (e : t) : t := fold_left call cs e.

End WithMath.

(** Calls that keep the cost multiplier at 1 or more and the earnings
    multiplier at 0 or more. *)
Definition keepsMultipliers (c : Call) : Prop :=
  match c with
  | ActivateBonus _ multiplier _ => 0 <= multiplier
  | SetMultipliers _ cost => 1 <= cost
  | _ => True
  end.

End EconomyCalls.

(** ** Sequences of calls on the map *)

Module MapCalls.
Import GameMap.

Inductive Call :=
| OccupyCell (gridX gridY : Z) (kind : Tower.Kind)
| FreeCell (gridX gridY : Z).

Definition call (m : t) (c : Call) : t :=
  match c with
  | OccupyCell gridX gridY kind => occupyCell gridX gridY kind m
  | FreeCell gridX gridY => freeCell gridX gridY m
  end.

Definition calls (cs : list Call) (m : t) : t := fold_left call cs m.

End MapCalls.

(** ** What [cleanupEntities] does with each enemy *)

Module CleanupSpec.

(** The enemies the filter keeps, the ones it hands to [handleEnemyKilled],
    and the rewards of a list of enemies. *)
Definition survivor (h : Heap) (r : ref) : bool :=
  Enemy.alive (h r) && negb (Enemy.reachedEnd (h r)).

Definition killed (h : Heap) (r : ref) : bool :=
  negb (Enemy.alive (h r)) && negb (Enemy.reachedEnd (h r)).

Definition rewards (h : Heap) (l : list ref) : Q :=
  fold_right (fun r total => Enemy.reward (h r) + total) 0 l.

End CleanupSpec.

(** ** A game of the examples *)

Module FrameScenario.

(** The game after [setupInitialState], with the given enemies. *)
Definition game_with (enemies : list ref) (h : Heap) : GameFrame.t :=
  {| GameFrame.lives := GameFrame.STARTING_LIVES;
     GameFrame.enemies := enemies;
     GameFrame.heap := h;
     GameFrame.rewardProcessed := fun _ => false;
     GameFrame.towers := [];
     GameFrame.projectiles := [];
     GameFrame.map := @GameMap.new table_math;
     GameFrame.economyManager := EconomyManager.new EconomyManager.STARTING_MONEY;
     GameFrame.selectedTowerType := None;
     GameFrame.stats_livesLost := 0;
     GameFrame.stats_enemiesKilled := 0;
     GameFrame.stats_moneyEarned := 0;
     GameFrame.stats_towersBuilt := 0;
     GameFrame.stats_moneySpent := 0;
     GameFrame.stats_wavesCompleted := 0 |}.

(** An enemy under way, one killed by a tower, and one that walked to the
    end of the path. *)
Definition mixed_enemies : Heap :=
  fun r => match r with
           | 0%nat => @Enemy.new table_math BASIC
           | 1%nat => fst (Enemy.takeDamage 300 (@Enemy.new table_math TANK))
           | _ => @Enemy.update table_math 30000 (@Enemy.new table_math BASIC)
           end.

End FrameScenario.

(** ** Tower.js: the controls *)

Module TowerControls.
Import Tower.


Definition set_active (v : bool) (w : t) : t :=
  {| type := type w; damage := damage w; range := range w; fireRate := fireRate w;
     projectileSpeed := projectileSpeed w; splash := splash w;
     splashRadius := splashRadius w; position := position w; target := target w;
     targetingMode := targetingMode w; lastShotTime := lastShotTime w;
     shotCooldown := shotCooldown w; own_canShoot := own_canShoot w;
     active := v; rotationAngle := rotationAngle w;
     targetAngle := targetAngle w; rotationSpeed := rotationSpeed w;
     muzzleFlash := muzzleFlash w; stats_timeActive := stats_timeActive w;
     stats_shotsFired := stats_shotsFired w |}.


Definition deactivate (w : t) : t := set_target None (set_active false w).

Definition activate (w : t) : t := set_active true w.

End TowerControls.

(** ** The key each targeting mode minimises *)

Module TargetingSpec.
Section WithMath.
Context {M : MathLib}.


End WithMath.
End TargetingSpec.

(** ** A tower over the frames of a game *)

Module TowerFrames.
Section WithMath.
Context {M : MathLib}.

(** What a frame hands to the tower's turn: the enemies array, the elapsed
    time, [Date.now()] and the enemies as they are. *)
Record Frame := {
  frame_enemies : list ref;
  frame_deltaTime : Q;
  frame_now : Q;
  frame_heap : Heap
}.

Definition turn (fuel : nat) (f : Frame) (w : Tower.t)
    : Tower.t * Outcome (option Projectile.t) :=
  Game.updateTower fuel (frame_enemies f) (frame_deltaTime f) (frame_now f)
    (frame_heap f) w.

(** The clock readings of the frames in which the game pushed a projectile
    of this tower.  A turn that throws ends the run: the loop of main.js
    catches the exception and stops.  So does a turn that does not end. *)
Fixpoint shotTimes (fuel : nat) (frames : list Frame) (w : Tower.t) : list Q :=
  match frames with
  | [] => []
  | f :: rest =>
      match turn fuel f w with
      | (w', Returns (Some _)) => frame_now f :: shotTimes fuel rest w'
      | (w', Returns None) => shotTimes fuel rest w'
      | (_, Throws _) => []
      | (_, Hangs) => []
      end
  end.

End WithMath.
End TowerFrames.

(** ** WaveManager.js: what the interface reads *)

Module WaveInfo.
Import WaveManager.

Record Info := {
  info_currentWave : nat;
  info_totalWaves : nat;
  info_waveInProgress : bool;
  info_enemiesSpawned : nat;
  info_enemiesToSpawn : nat;
  info_enemiesRemaining : Z;
  info_isCountingDown : bool;
  info_countdownTime : Z;
  info_allWavesComplete : bool;
  info_canStartWave : bool
}.

Definition getCurrentWaveInfo (w : t) : Info :=
  {| info_currentWave := currentWave w + 1;
     info_totalWaves := totalWaves w;
     info_waveInProgress := waveInProgress w;
     info_enemiesSpawned := enemiesSpawned w;
     info_enemiesToSpawn := enemiesToSpawn w;
     info_enemiesRemaining :=
       Z.max 0 (Z.of_nat (enemiesToSpawn w) - Z.of_nat (enemiesSpawned w));
     info_isCountingDown := isCountingDown w;
     info_countdownTime := Z.max 0 (Qceiling (waveCountdown w / 1000));
     info_allWavesComplete := allWavesComplete w;
     info_canStartWave :=
       negb (waveInProgress w) && negb (allWavesComplete w)
       && (currentWave w <? totalWaves w)%nat |}.

End WaveInfo.

(** ** The spawn queue a wave asks for *)

Module QueueSpec.
Import WaveManager.

(** The entries of the groups in their order, numbered from [offset]: the
    entry of number [n] in a group is due at [n] times the group's
    interval. *)
Fixpoint expected (groups : list EnemyGroup) (offset : nat) : list SpawnEntry :=
  match groups with
  | [] => []
  | g :: rest =>
      map (fun i => {| entry_type := group_type g;
                       spawnTime := inject_Z (Z.of_nat (offset + i))
                                    * group_spawnInterval g |})
        (seq 0 (group_count g))
      ++ expected rest (offset + group_count g)
  end.

Definition total (groups : list EnemyGroup) : nat :=
  fold_right (fun g n => (group_count g + n)%nat) 0%nat groups.

End QueueSpec.

(** ** More towers, enemies and projectiles of the examples *)

Module DefenceScenario.
Import CombatScenario.



(** A frame of 16 ms at the given clock reading, with the enemy on the
    left of the tower. *)
Definition frame_at (now : Q) : TowerFrames.Frame :=
  {| TowerFrames.frame_enemies := [0%nat]; TowerFrames.frame_deltaTime := 16;
     TowerFrames.frame_now := now; TowerFrames.frame_heap := enemy_left |}.


(** Splash damage that hangs on the rounding: a projectile of damage 43 and
    radius 50 at (90,100) with a second enemy 45 pixels away, and one of
    damage 8 and radius 5 with a second enemy 4 pixels away. *)
Definition near_enemies : Heap :=
  fun r => match r with
           | 0%nat => enemy_at 100 100 0
           | _ => enemy_at 135 100 0
           end.

Definition splash_43 : Projectile.t :=
  @Projectile.new table_math 90 100 (Some 0%nat) 43 150 true 50 near_enemies.

Definition tight_enemies : Heap :=
  fun r => match r with
           | 0%nat => enemy_at 91 100 0
           | _ => enemy_at 94 100 0
           end.

Definition splash_8 : Projectile.t :=
  @Projectile.new table_math 90 100 (Some 0%nat) 8 150 true 5 tight_enemies.

End DefenceScenario.

(** ** Vocabulary of the properties of the frames *)

Module CooldownSpec.
Import Tower.

(** The fields of the fire control that a step leaves alone. *)
Definition sameClock (w w' : t) : Prop :=
  shotCooldown w' = shotCooldown w /\ own_canShoot w' = own_canShoot w /\
  lastShotTime w' = lastShotTime w.

(** The own property, the count of shots and the time of the last shot. *)
Definition sameFireControl (w w' : t) : Prop :=
  own_canShoot w' = own_canShoot w /\
  stats_shotsFired w' = stats_shotsFired w /\
  lastShotTime w' = lastShotTime w.

End CooldownSpec.

Module WaveFrames.

(** The time that elapses over the frames of a run of [update] calls. *)
Definition elapsed (frames : list (WaveManager.Env * Q * list Enemy.t)) : Q :=
  fold_right (fun frame total => snd (fst frame) + total) 0 frames.

End WaveFrames.

(** * Properties *)

(** ** The doubles of IEEE 754 *)

Module Doubles.

(** Powers of 2 *)

Lemma two_neq : ~ 2 == 0.
Proof. discriminate. Qed.

Lemma two_pos (e : Z) : 0 < 2 ^ e.
Proof. apply Qpower_0_lt. reflexivity. Qed.

Lemma two_plus (a b : Z) : 2 ^ (a + b) == 2 ^ a * 2 ^ b.
Proof. apply Qpower_plus. exact two_neq. Qed.

Lemma two_succ (e : Z) : 2 ^ (e + 1) == 2 * 2 ^ e.
Proof. rewrite two_plus. change (2 ^ 1) with 2. ring. Qed.

Lemma two_pred (e : Z) : 2 * 2 ^ (e - 1) == 2 ^ e.
Proof.
  rewrite <- two_succ. replace (e - 1 + 1)%Z with e by lia. reflexivity.
Qed.

Lemma two_le (a b : Z) : (a <= b)%Z -> 2 ^ a <= 2 ^ b.
Proof. intro H. apply Qpower_le_compat_l; [exact H|discriminate]. Qed.

Lemma two_lt_inv (a b : Z) : 2 ^ a < 2 ^ b -> (a < b)%Z.
Proof. intro H. apply (Qpower_lt_compat_l_inv 2); [exact H|reflexivity]. Qed.

Lemma two_whole (k : Z) : (0 <= k)%Z -> inject_Z (2 ^ k) == 2 ^ k.
Proof. intro H. rewrite Zpower_Qpower by exact H. reflexivity. Qed.

(** The binade of a positive number: [Z.log2] of the numerator less
    [Z.log2] of the denominator is its exponent, or one more. *)

Lemma binade_spec (x : Q) :
  0 < x -> 2 ^ binade x <= x /\ x < 2 ^ (binade x + 1).
Proof.
  intro Hx. destruct x as [n d].
  assert (Hn : (0 < n)%Z).
  { unfold Qlt in Hx. simpl in Hx. lia. }
  unfold binade. cbn [Qnum Qden].
  set (a := Z.log2 n). set (b := Z.log2 (Z.pos d)).
  destruct (Z.log2_spec n Hn) as [Ha1 Ha2]. fold a in Ha1, Ha2.
  destruct (Z.log2_spec (Z.pos d) eq_refl) as [Hb1 Hb2]. fold b in Hb1, Hb2.
  assert (Ha0 : (0 <= a)%Z) by apply Z.log2_nonneg.
  assert (Hb0 : (0 <= b)%Z) by apply Z.log2_nonneg.
  rewrite Zle_Qle, two_whole in Ha1, Hb1 by assumption.
  rewrite Zlt_Qlt in Ha2, Hb2.
  unfold Z.succ in Ha2, Hb2.
  rewrite two_whole, two_succ in Ha2, Hb2 by lia.
  assert (HE : 2 ^ (a - b) * 2 ^ b == 2 ^ a).
  { rewrite <- two_plus. replace (a - b + b)%Z with a by lia. reflexivity. }
  assert (Hx2 : (n # d) * inject_Z (Z.pos d) == inject_Z n).
  { unfold Qeq. simpl. rewrite Pos.mul_1_r. ring. }
  pose proof (two_pos a) as Pa. pose proof (two_pos b) as Pb.
  pose proof (two_pos (a - b)) as Pe.
  set (X := n # d) in *. set (N := inject_Z n) in *.
  set (D := inject_Z (Z.pos d)) in *.
  set (A := 2 ^ a) in *. set (B := 2 ^ b) in *. set (E := 2 ^ (a - b)) in *.
  assert (HD : 0 < D) by lra.
  destruct (Qle_bool E X) eqn:Ecmp.
  - apply Qle_bool_iff in Ecmp. split; [exact Ecmp|].
    rewrite two_succ. fold E.
    apply (Qmult_lt_r _ _ D HD). rewrite Hx2.
    assert (E * B <= E * D) by (apply Qmult_le_l; lra || assumption).
    nra.
  - assert (Hlt : X < E).
    { apply Qnot_le_lt. intro H. apply Qle_bool_iff in H. congruence. }
    replace (a - b - 1 + 1)%Z with (a - b)%Z by lia. fold E.
    split; [|exact Hlt].
    apply (Qmult_le_r _ _ D HD). rewrite Hx2.
    pose proof (two_pred (a - b)) as Hp. fold E in Hp.
    pose proof (two_pos (a - b - 1)) as Pp.
    set (E' := 2 ^ (a - b - 1)) in *.
    assert (E' * D <= E' * (2 * B)) by (apply Qmult_le_l; lra).
    nra.
Qed.

Lemma binade_unique (x : Q) (e : Z) :
  2 ^ e <= x -> x < 2 ^ (e + 1) -> binade x = e.
Proof.
  intros H1 H2.
  assert (Hx : 0 < x) by (pose proof (two_pos e); lra).
  destruct (binade_spec x Hx) as [B1 B2].
  assert ((e < binade x + 1)%Z) by (apply two_lt_inv; lra).
  assert ((binade x < e + 1)%Z) by (apply two_lt_inv; lra).
  lia.
Qed.

Lemma binade_comp (x y : Q) : 0 < x -> x == y -> binade x = binade y.
Proof.
  intros Hx E. destruct (binade_spec x Hx) as [B1 B2].
  symmetry. apply binade_unique; rewrite <- E; assumption.
Qed.

Lemma binade_le (x y : Q) : 0 < x -> x <= y -> (binade x <= binade y)%Z.
Proof.
  intros Hx Hxy.
  destruct (binade_spec x Hx) as [B1 _].
  destruct (binade_spec y ltac:(lra)) as [_ C2].
  assert ((binade x < binade y + 1)%Z) by (apply two_lt_inv; lra).
  lia.
Qed.

(** The nearest whole number, ties to the even one *)

Lemma nearest_even_cases (t : Q) :
  let f := Qfloor t in
  (nearest_even t = f /\ t - inject_Z f <= 1 # 2) \/
  (nearest_even t = (f + 1)%Z /\ 1 # 2 <= t - inject_Z f).
Proof.
  intro f. unfold nearest_even. fold f.
  destruct (Qcompare (t - inject_Z f) (1 # 2)) eqn:E.
  - apply Qeq_alt in E. destruct (Z.even f); [left|right]; split; try reflexivity; lra.
  - apply Qlt_alt in E. left. split; [reflexivity|lra].
  - apply Qgt_alt in E. right. split; [reflexivity|lra].
Qed.

Lemma nearest_even_comp (t u : Q) : t == u -> nearest_even t = nearest_even u.
Proof.
  intro E. unfold nearest_even. rewrite (Qfloor_comp t u E).
  assert (Ec : Qcompare (t - inject_Z (Qfloor u)) (1 # 2)
               = Qcompare (u - inject_Z (Qfloor u)) (1 # 2)).
  { apply Qcompare_comp; [rewrite E; reflexivity|reflexivity]. }
  rewrite Ec. reflexivity.
Qed.

Lemma nearest_even_whole (z : Z) : nearest_even (inject_Z z) = z.
Proof.
  unfold nearest_even. rewrite Qfloor_Z.
  assert (E : Qcompare (inject_Z z - inject_Z z) (1 # 2) = Lt).
  { apply Qlt_alt. setoid_replace (inject_Z z - inject_Z z) with 0 by ring.
    reflexivity. }
  rewrite E. reflexivity.
Qed.

Lemma floor_bounds (t : Q) :
  inject_Z (Qfloor t) <= t /\ t < inject_Z (Qfloor t) + 1.
Proof.
  split; [apply Qfloor_le|].
  pose proof (Qlt_floor t) as H. rewrite inject_Z_plus in H. exact H.
Qed.

Lemma nearest_even_le (t u : Q) : t <= u -> (nearest_even t <= nearest_even u)%Z.
Proof.
  intro H.
  pose proof (Qfloor_resp_le t u H) as Hf.
  destruct (floor_bounds t) as [T1 T2]. destruct (floor_bounds u) as [U1 U2].
  destruct (nearest_even_cases t) as [[Et Ht]|[Et Ht]];
    destruct (nearest_even_cases u) as [[Eu Hu]|[Eu Hu]];
    rewrite Et, Eu; try lia.
  - (* t rounds up, u rounds down *)
    destruct (Z.eq_dec (Qfloor t) (Qfloor u)) as [Efl|Nfl]; [|lia].
    (* same floor: both fractions are one half *)
    exfalso.
    assert (Etu : t == u) by (rewrite Efl in Ht; lra).
    pose proof (nearest_even_comp t u Etu). lia.
Qed.

Lemma nearest_even_between (t : Q) (a b : Z) :
  inject_Z a <= t -> t <= inject_Z b -> (a <= nearest_even t <= b)%Z.
Proof.
  intros Ha Hb. rewrite <- (nearest_even_whole a), <- (nearest_even_whole b).
  split; apply nearest_even_le; assumption.
Qed.

(** Rounding a positive number: the mantissa lies between [2 ^ 52] and
    [2 ^ 53], so that the double lies in the binade of the number or is the
    power of 2 that ends it. *)

Lemma scaled_bounds (x : Q) :
  0 < x ->
  2 ^ 52 <= x * 2 ^ (52 - binade x) /\ x * 2 ^ (52 - binade x) < 2 ^ 53.
Proof.
  intro Hx. destruct (binade_spec x Hx) as [B1 B2].
  rewrite two_succ in B2.
  pose proof (two_pos (52 - binade x)) as Ps.
  assert (E : 2 ^ binade x * 2 ^ (52 - binade x) == 2 ^ 52).
  { rewrite <- two_plus. replace (binade x + (52 - binade x))%Z with 52%Z by lia.
    reflexivity. }
  change (2 ^ 53) with (2 * 2 ^ 52).
  set (S := 2 ^ (52 - binade x)) in *. set (P := 2 ^ binade x) in *.
  split.
  - rewrite <- E. apply Qmult_le_r; assumption.
  - rewrite <- E. setoid_replace (2 * (P * S)) with (2 * P * S) by ring.
    apply Qmult_lt_r; assumption.
Qed.

Lemma mantissa_bounds (x : Q) :
  0 < x ->
  (2 ^ 52 <= nearest_even (x * 2 ^ (52 - binade x)) <= 2 ^ 53)%Z.
Proof.
  intro Hx. destruct (scaled_bounds x Hx) as [S1 S2].
  apply nearest_even_between.
  - exact S1.
  - apply Qlt_le_weak. exact S2.
Qed.

Lemma round_positive_bounds (x : Q) :
  0 < x ->
  2 ^ binade x <= round_positive x /\ round_positive x <= 2 ^ (binade x + 1).
Proof.
  intro Hx. destruct (mantissa_bounds x Hx) as [M1 M2].
  unfold round_positive. cbv zeta.
  set (m := nearest_even _) in *.
  rewrite Zle_Qle in M1, M2.
  change (inject_Z (2 ^ 52)) with (2 ^ 52) in M1.
  change (inject_Z (2 ^ 53)) with (2 ^ 53) in M2.
  pose proof (two_pos (binade x - 52)) as Ps.
  assert (E1 : 2 ^ 52 * 2 ^ (binade x - 52) == 2 ^ binade x).
  { rewrite <- two_plus. replace (52 + (binade x - 52))%Z with (binade x) by lia.
    reflexivity. }
  assert (E2 : 2 ^ 53 * 2 ^ (binade x - 52) == 2 ^ (binade x + 1)).
  { rewrite <- two_plus. replace (53 + (binade x - 52))%Z with (binade x + 1)%Z by lia.
    reflexivity. }
  split.
  - rewrite <- E1. apply Qmult_le_r; assumption.
  - rewrite <- E2. apply Qmult_le_r; assumption.
Qed.

Lemma round_positive_pos (x : Q) : 0 < x -> 0 < round_positive x.
Proof.
  intro Hx. destruct (round_positive_bounds x Hx) as [B _].
  pose proof (two_pos (binade x)). lra.
Qed.

Lemma round_positive_comp (x y : Q) :
  0 < x -> x == y -> round_positive x == round_positive y.
Proof.
  intros Hx E. unfold round_positive. cbv zeta.
  rewrite <- (binade_comp x y Hx E).
  rewrite (nearest_even_comp (x * 2 ^ (52 - binade x)) (y * 2 ^ (52 - binade x)))
    by (apply Qmult_comp; [exact E|reflexivity]).
  reflexivity.
Qed.

Lemma round_positive_le (x y : Q) :
  0 < x -> x <= y -> round_positive x <= round_positive y.
Proof.
  intros Hx Hxy. assert (Hy : 0 < y) by lra.
  pose proof (binade_le x y Hx Hxy) as He.
  destruct (Z.eq_dec (binade x) (binade y)) as [E|N].
  - unfold round_positive. cbv zeta. rewrite <- E.
    pose proof (two_pos (binade x - 52)) as Ps.
    pose proof (two_pos (52 - binade x)) as Pt.
    apply Qmult_le_r; [exact Ps|].
    rewrite <- Zle_Qle. apply nearest_even_le.
    apply Qmult_le_r; assumption.
  - destruct (round_positive_bounds x Hx) as [_ Bx].
    destruct (round_positive_bounds y Hy) as [By _].
    assert (2 ^ (binade x + 1) <= 2 ^ binade y) by (apply two_le; lia).
    lra.
Qed.

(** The numbers [m * 2 ^ k] with a whole [m] below [2 ^ 53] are doubles. *)
Lemma round_positive_exact (x : Q) (m k : Z) :
  (0 < m < 2 ^ 53)%Z -> x == inject_Z m * 2 ^ k -> round_positive x == x.
Proof.
  intros [Hm1 Hm2] E.
  rewrite Zlt_Qlt in Hm1, Hm2. change (inject_Z (2 ^ 53)) with (2 ^ 53) in Hm2.
  change (inject_Z 0) with 0 in Hm1.
  pose proof (two_pos k) as Pk.
  assert (Hx : 0 < x).
  { rewrite E. apply Qmult_lt_0_compat; assumption. }
  destruct (binade_spec x Hx) as [B1 _].
  assert (Hlt : 2 ^ binade x < 2 ^ (53 + k)).
  { rewrite two_plus. apply (Qle_lt_trans _ x); [exact B1|].
    rewrite E. apply Qmult_lt_r; assumption. }
  apply two_lt_inv in Hlt.
  set (e := binade x) in *.
  set (j := (k + (52 - e))%Z).
  assert (Hj : (0 <= j)%Z) by (unfold j; lia).
  assert (Et : x * 2 ^ (52 - e) == inject_Z (m * 2 ^ j)).
  { rewrite inject_Z_mult, two_whole by exact Hj. unfold j.
    rewrite two_plus, E. ring. }
  unfold round_positive. cbv zeta. fold e.
  rewrite (nearest_even_comp _ _ Et), nearest_even_whole.
  rewrite inject_Z_mult, two_whole by exact Hj.
  rewrite E, <- Qmult_assoc, <- two_plus.
  replace (j + (e - 52))%Z with k by (unfold j; lia). reflexivity.
Qed.

Lemma round_positive_form (x : Q) :
  0 < x ->
  exists m k : Z, (0 < m < 2 ^ 53)%Z /\ round_positive x == inject_Z m * 2 ^ k.
Proof.
  intro Hx. destruct (mantissa_bounds x Hx) as [M1 M2].
  destruct (Z.eq_dec (nearest_even (x * 2 ^ (52 - binade x))) (2 ^ 53)) as [E|N].
  - exists (2 ^ 52)%Z, (binade x - 52 + 1)%Z. split; [lia|].
    unfold round_positive. cbv zeta. rewrite E, two_succ.
    change (inject_Z (2 ^ 53)) with (2 * inject_Z (2 ^ 52)). ring.
  - exists (nearest_even (x * 2 ^ (52 - binade x))), (binade x - 52)%Z.
    split; [lia|reflexivity].
Qed.

(** The laws of the rounding, for [round_nearest] and then for
    [ieee_double], its value in lowest terms *)

Lemma round_nearest_pos (x : Q) : 0 < x -> round_nearest x = round_positive x.
Proof.
  intro H. unfold round_nearest.
  assert (E : Qcompare x 0 = Gt) by (apply Qgt_alt; exact H).
  rewrite E. reflexivity.
Qed.

Lemma round_nearest_neg (x : Q) : x < 0 -> round_nearest x = - round_positive (- x).
Proof.
  intro H. unfold round_nearest.
  assert (E : Qcompare x 0 = Lt) by (apply Qlt_alt; exact H).
  rewrite E. reflexivity.
Qed.

Lemma round_nearest_zero (x : Q) : x == 0 -> round_nearest x = 0.
Proof.
  intro H. unfold round_nearest.
  assert (E : Qcompare x 0 = Eq) by (apply Qeq_alt; exact H).
  rewrite E. reflexivity.
Qed.

Lemma sign_cases (x : Q) : x < 0 \/ x == 0 \/ 0 < x.
Proof.
  destruct (Q_dec x 0) as [[H|H]|H]; auto.
Qed.

Lemma round_nearest_comp (x y : Q) : x == y -> round_nearest x == round_nearest y.
Proof.
  intro E. destruct (sign_cases x) as [H|[H|H]].
  - rewrite (round_nearest_neg x H), (round_nearest_neg y) by lra.
    apply Qopp_comp. apply round_positive_comp; lra.
  - rewrite (round_nearest_zero x H), (round_nearest_zero y) by lra. reflexivity.
  - rewrite (round_nearest_pos x H), (round_nearest_pos y) by lra.
    apply round_positive_comp; assumption.
Qed.

Lemma round_nearest_monotone (x y : Q) : x <= y -> round_nearest x <= round_nearest y.
Proof.
  intro Hxy.
  destruct (sign_cases x) as [Hx|[Hx|Hx]]; destruct (sign_cases y) as [Hy|[Hy|Hy]];
    try lra.
  - rewrite (round_nearest_neg x Hx), (round_nearest_neg y Hy).
    apply Qopp_le_compat. apply round_positive_le; lra.
  - rewrite (round_nearest_neg x Hx), (round_nearest_zero y Hy).
    pose proof (round_positive_pos (- x) ltac:(lra)). lra.
  - rewrite (round_nearest_neg x Hx), (round_nearest_pos y Hy).
    pose proof (round_positive_pos (- x) ltac:(lra)).
    pose proof (round_positive_pos y Hy). lra.
  - rewrite (round_nearest_zero x Hx), (round_nearest_zero y Hy). lra.
  - rewrite (round_nearest_zero x Hx), (round_nearest_pos y Hy).
    pose proof (round_positive_pos y Hy). lra.
  - rewrite (round_nearest_pos x Hx), (round_nearest_pos y Hy).
    apply round_positive_le; assumption.
Qed.

Lemma round_nearest_exact (m k : Z) :
  (Z.abs m < 2 ^ 53)%Z ->
  round_nearest (inject_Z m * 2 ^ k) == inject_Z m * 2 ^ k.
Proof.
  intro Hm. pose proof (two_pos k) as Pk.
  destruct (Z.lt_trichotomy m 0) as [H|[H|H]].
  - assert (Hq : inject_Z m < 0) by (change 0 with (inject_Z 0); rewrite <- Zlt_Qlt; exact H).
    assert (Hx : inject_Z m * 2 ^ k < 0).
    { setoid_replace (inject_Z m * 2 ^ k) with (- ((- inject_Z m) * 2 ^ k)) by ring.
      assert (0 < (- inject_Z m) * 2 ^ k) by (apply Qmult_lt_0_compat; lra). lra. }
    rewrite (round_nearest_neg _ Hx).
    rewrite (round_positive_exact _ (- m) k).
    + ring.
    + lia.
    + rewrite inject_Z_opp. ring.
  - subst m. rewrite round_nearest_zero; ring.
  - assert (Hq : 0 < inject_Z m) by (change 0 with (inject_Z 0); rewrite <- Zlt_Qlt; exact H).
    rewrite round_nearest_pos by (apply Qmult_lt_0_compat; assumption).
    apply (round_positive_exact _ m k); [lia|reflexivity].
Qed.

Lemma round_nearest_whole (z : Z) :
  (Z.abs z < 2 ^ 53)%Z -> round_nearest (inject_Z z) == inject_Z z.
Proof.
  intro H. pose proof (round_nearest_exact z 0 H) as E.
  change (2 ^ 0) with 1 in E.
  rewrite <- (round_nearest_comp (inject_Z z * 1) (inject_Z z)) by ring.
  rewrite E. ring.
Qed.

Lemma round_nearest_form (x : Q) :
  exists m k : Z, (Z.abs m < 2 ^ 53)%Z /\ round_nearest x == inject_Z m * 2 ^ k.
Proof.
  destruct (sign_cases x) as [H|[H|H]].
  - destruct (round_positive_form (- x) ltac:(lra)) as (m & k & Hm & E).
    exists (- m)%Z, k. split; [lia|].
    rewrite (round_nearest_neg x H), E, inject_Z_opp. ring.
  - exists 0%Z, 0%Z. split; [reflexivity|].
    rewrite (round_nearest_zero x H). reflexivity.
  - destruct (round_positive_form x H) as (m & k & Hm & E).
    exists m, k. split; [lia|].
    rewrite (round_nearest_pos x H). exact E.
Qed.

(** Rounding a double down gives a double. *)
Lemma round_nearest_floor (x : Q) :
  round_nearest (inject_Z (Qfloor (round_nearest x))) == inject_Z (Qfloor (round_nearest x)).
Proof.
  destruct (round_nearest_form x) as (m & k & Hm & E).
  set (v := round_nearest x) in *.
  destruct (Z_le_gt_dec 0 k) as [Hk|Hk].
  - (* a whole number *)
    assert (Ew : v == inject_Z (m * 2 ^ k)).
    { rewrite inject_Z_mult, two_whole by exact Hk. exact E. }
    rewrite (Qfloor_comp _ _ Ew), Qfloor_Z.
    assert (Em : inject_Z (m * 2 ^ k) == inject_Z m * 2 ^ k).
    { rewrite inject_Z_mult, two_whole by exact Hk. reflexivity. }
    rewrite (round_nearest_comp _ _ Em), Em. apply round_nearest_exact. exact Hm.
  - (* below [2 ^ 52] in size *)
    apply round_nearest_whole.
    assert (Hp : 2 * 2 ^ k <= 1).
    { rewrite <- two_succ. change 1 with (2 ^ 0). apply two_le. lia. }
    pose proof (two_pos k) as Pk.
    assert (Hb : inject_Z (- 2 ^ 52) <= v /\ v <= inject_Z (2 ^ 52)).
    { rewrite E.
      assert (Hm1 : inject_Z (- 2 ^ 53) < inject_Z m) by (rewrite <- Zlt_Qlt; lia).
      assert (Hm2 : inject_Z m < inject_Z (2 ^ 53)) by (rewrite <- Zlt_Qlt; lia).
      change (inject_Z (- 2 ^ 53)) with (- (2 * 2 ^ 52)) in Hm1.
      change (inject_Z (2 ^ 53)) with (2 * 2 ^ 52) in Hm2.
      change (inject_Z (- 2 ^ 52)) with (- 2 ^ 52).
      change (inject_Z (2 ^ 52)) with (2 ^ 52).
      set (P := 2 ^ 52) in *. set (K := 2 ^ k) in *. set (M := inject_Z m) in *.
      assert (0 < P) by reflexivity.
      nra. }
    destruct Hb as [Hb1 Hb2].
    apply Qfloor_resp_le in Hb1, Hb2. rewrite Qfloor_Z in Hb1, Hb2. lia.
Qed.

Lemma ieee_double_comp (x y : Q) : x == y -> ieee_double x == ieee_double y.
Proof.
  intro E. unfold ieee_double. rewrite !Qred_correct.
  apply round_nearest_comp. exact E.
Qed.

Lemma ieee_double_monotone (x y : Q) : x <= y -> ieee_double x <= ieee_double y.
Proof.
  intro H. unfold ieee_double. rewrite !Qred_correct.
  apply round_nearest_monotone. exact H.
Qed.

Lemma ieee_double_whole (z : Z) :
  (Z.abs z < 2 ^ 53)%Z -> ieee_double (inject_Z z) == inject_Z z.
Proof.
  intro H. unfold ieee_double. rewrite Qred_correct.
  apply round_nearest_whole. exact H.
Qed.

Lemma ieee_double_floor (x : Q) :
  ieee_double (Math_floor (ieee_double x)) == Math_floor (ieee_double x).
Proof.
  unfold ieee_double, Math_floor. rewrite Qred_correct.
  rewrite (Qfloor_comp _ _ (Qred_correct (round_nearest x))).
  apply round_nearest_floor.
Qed.

Lemma round_nearest_opp (x : Q) : round_nearest (- x) == - round_nearest x.
Proof.
  destruct (sign_cases x) as [H|[H|H]].
  - rewrite (round_nearest_neg x H), (round_nearest_pos (- x)) by lra. ring.
  - rewrite (round_nearest_zero x H), (round_nearest_zero (- x)) by lra. ring.
  - rewrite (round_nearest_pos x H), (round_nearest_neg (- x)) by lra.
    apply Qopp_comp. apply round_positive_comp; [lra|ring].
Qed.

Lemma ieee_double_opp (x : Q) : ieee_double (- x) == - ieee_double x.
Proof.
  unfold ieee_double. rewrite !Qred_correct. apply round_nearest_opp.
Qed.

Lemma ieee_double_PI : ieee_double Math_PI == Math_PI.
Proof. vm_compute. reflexivity. Qed.

(** The rounding of IEEE 754, with the tables, is an implementation of the
    interface. *)
Theorem ieee_doubles_exist : exists M : MathLib, ieee_doubles M.
Proof.
  exists {| Math_sqrt := sqrt_table; Math_atan2 := atan2_table;
            Math_cos := cos_table; Math_sin := sin_table;
            double := ieee_double;
            double_comp := ieee_double_comp;
            double_monotone := ieee_double_monotone;
            double_whole := ieee_double_whole;
            double_floor := ieee_double_floor;
            double_opp := ieee_double_opp;
            double_PI := ieee_double_PI |}.
  repeat split.
Qed.

(** [ieee_double] against the binary64 arithmetic of the kernel. *)
Lemma ieee_double_is_binary64 :
  float_value (PrimFloat.div 7 10) == ieee_double (7 / 10) /\
  float_value (PrimFloat.mul 43 (PrimFloat.div 7 10))
    == ieee_double (43 * ieee_double (7 / 10)) /\
  float_value (PrimFloat.sub 1 (PrimFloat.div 45 50))
    == ieee_double (1 - ieee_double (45 / 50)) /\
  float_value (PrimFloat.div (-1) 3) == ieee_double (-1 / 3) /\
  float_value (PrimFloat.add (PrimFloat.div 1 10) (PrimFloat.div 2 10))
    == ieee_double (ieee_double (1 / 10) + ieee_double (2 / 10)) /\
  float_value (PrimFloat.add 9007199254740992 1) == ieee_double (9007199254740992 + 1) /\
  float_value (PrimFloat.add 9007199254740994 1) == ieee_double (9007199254740994 + 1).
Proof. vm_compute. repeat split. Qed.

End Doubles.

(** ** What the interface gives of the rounding *)

Module Rounding.
Section WithMath.
Context {M : MathLib}.

Lemma double_nonneg (x : Q) : 0 <= x -> 0 <= double x.
Proof.
  intro H. pose proof (double_monotone 0 x H) as Hd.
  pose proof (double_whole 0 eq_refl) as Hz. change (inject_Z 0) with 0 in Hz.
  rewrite Hz in Hd. exact Hd.
Qed.

Lemma double_within_PI (x : Q) :
  - Math_PI <= x <= Math_PI -> - Math_PI <= double x <= Math_PI.
Proof.
  intros [Hlow Hup].
  pose proof double_PI as Hp. pose proof (double_opp Math_PI) as Hn.
  rewrite Hp in Hn.
  split.
  - rewrite <- Hn. apply double_monotone. exact Hlow.
  - rewrite <- Hp. apply double_monotone. exact Hup.
Qed.

Lemma double_within_7 (x : Q) : -7 <= x <= 7 -> -7 <= double x <= 7.
Proof.
  intros [Hlow Hup].
  pose proof (double_whole 7 eq_refl) as H7.
  pose proof (double_whole (-7) eq_refl) as Hm7.
  change (inject_Z 7) with 7 in H7. change (inject_Z (-7)) with (-7) in Hm7.
  split.
  - rewrite <- Hm7. apply double_monotone. exact Hlow.
  - rewrite <- H7. apply double_monotone. exact Hup.
Qed.

End WithMath.
End Rounding.

(** ** Order on the numbers *)

Lemma Qleb_le (x y : Q) : Qleb x y = true <-> x <= y.
Proof. apply Qle_bool_iff. Qed.

Lemma Qleb_gt (x y : Q) : Qleb x y = false <-> y < x.
Proof.
  unfold Qleb. split; intro Hc.
  - apply Qnot_le_lt. intro Hle. apply Qle_bool_iff in Hle. congruence.
  - destruct (Qle_bool x y) eqn:E; [|reflexivity].
    apply Qle_bool_iff in E. lra.
Qed.

Lemma Qltb_lt (x y : Q) : Qltb x y = true <-> x < y.
Proof.
  unfold Qltb. rewrite negb_true_iff. apply (Qleb_gt y x).
Qed.

Lemma Qltb_ge (x y : Q) : Qltb x y = false <-> y <= x.
Proof.
  unfold Qltb. rewrite negb_false_iff. apply Qle_bool_iff.
Qed.

(** Turns every comparison met in the goal into an order fact. *)
Ltac qcase :=
  repeat match goal with
  | |- context [Qleb ?a ?b] =>
      let E := fresh "E" in
      destruct (Qleb a b) eqn:E;
      [apply Qleb_le in E | apply Qleb_gt in E]
  | |- context [Qltb ?a ?b] =>
      let E := fresh "E" in
      destruct (Qltb a b) eqn:E;
      [apply Qltb_lt in E | apply Qltb_ge in E]
  end.

(** ** helpers.js: clamp *)

Module HelpersFacts.
Import Helpers.

Lemma clamp_bounds (v lo hi : Q) : lo <= hi -> lo <= clamp v lo hi <= hi.
Proof.
  intro Hlh. unfold clamp, Math_min, Math_max. qcase; lra.
Qed.

Lemma clamp_ge (v w lo hi : Q) : w <= v -> w <= hi -> w <= clamp v lo hi.
Proof.
  intros Hv Hhi. unfold clamp, Math_min, Math_max. qcase; lra.
Qed.

End HelpersFacts.

(** ** Enemy: damage *)

Module EnemyDamage.
Import Enemy.

Lemma takeDamage_dead (d : Q) (e : t) :
  alive e = false -> takeDamage d e = (e, false).
Proof. intro Ha. unfold takeDamage. rewrite Ha. reflexivity. Qed.

Lemma takeDamage_lethal (d : Q) (e : t) :
  alive e = true -> health e - d <= 0 ->
  takeDamage d e = (set_alive false (set_health 0 (set_damageFlash 200 (set_health (health e - d) e))), true).
Proof.
  intros Ha Hle. unfold takeDamage. rewrite Ha. simpl.
  apply Qleb_le in Hle. rewrite Hle. reflexivity.
Qed.

Lemma takeDamage_survive (d : Q) (e : t) :
  alive e = true -> 0 < health e - d ->
  takeDamage d e = (set_damageFlash 200 (set_health (health e - d) e), false).
Proof.
  intros Ha Hlt. unfold takeDamage. rewrite Ha. simpl.
  apply Qleb_gt in Hlt. rewrite Hlt. reflexivity.
Qed.

Lemma takeDamage_health_nonneg (d : Q) (e : t) :
  0 <= health e -> 0 <= health (fst (takeDamage d e)).
Proof.
  intro H0. unfold takeDamage.
  destruct (alive e); simpl; [|exact H0].
  qcase; simpl; lra.
Qed.

Lemma takeDamage_stays_dead (d : Q) (e : t) :
  alive e = false -> alive (fst (takeDamage d e)) = false.
Proof. intro Ha. rewrite takeDamage_dead by exact Ha. exact Ha. Qed.

(** The returned boolean is the [true -> false] move of [alive]. *)
Lemma takeDamage_killed_iff (d : Q) (e : t) :
  snd (takeDamage d e) = alive e && negb (alive (fst (takeDamage d e))).
Proof.
  unfold takeDamage. destruct (alive e) eqn:Ha; simpl; [|reflexivity].
  qcase; simpl; [reflexivity|]. rewrite Ha. reflexivity.
Qed.

Lemma takeDamages_health_nonneg (ds : list Q) :
  forall e, 0 <= health e -> 0 <= health (fst (takeDamages ds e)).
Proof.
  induction ds as [|d ds IH]; intros e H0; simpl; [exact H0|].
  pose proof (takeDamage_health_nonneg d e H0) as H1.
  destruct (takeDamage d e) as [e1 k]. simpl in H1.
  specialize (IH e1 H1).
  destruct (takeDamages ds e1) as [e2 rest]. exact IH.
Qed.

Lemma takeDamages_dead (ds : list Q) :
  forall e, alive e = false ->
  takeDamages ds e = (e, repeat false (length ds)).
Proof.
  induction ds as [|d ds IH]; intros e Ha; simpl; [reflexivity|].
  rewrite takeDamage_dead by exact Ha.
  rewrite IH by exact Ha. reflexivity.
Qed.

Lemma count_true_repeat_false (n : nat) :
  count_occ bool_dec (repeat false n) true = 0%nat.
Proof. induction n; simpl; [reflexivity|exact IHn]. Qed.

(** Over a sequence of calls, the number of calls that report a death is
    one when the enemy starts alive and ends dead, and zero otherwise. *)
Lemma takeDamages_kill_count (ds : list Q) :
  forall e,
  count_occ bool_dec (snd (takeDamages ds e)) true =
  if alive e && negb (alive (fst (takeDamages ds e))) then 1%nat else 0%nat.
Proof.
  induction ds as [|d ds IH]; intros e; simpl.
  - destruct (alive e); reflexivity.
  - pose proof (takeDamage_killed_iff d e) as Hk.
    destruct (takeDamage d e) as [e1 k] eqn:E1. simpl in Hk.
    specialize (IH e1).
    destruct (alive e1) eqn:Ha1.
    + (* survived this call *)
      rewrite andb_false_r in Hk. subst k.
      destruct (takeDamages ds e1) as [e2 rest] eqn:E2. simpl in *.
      rewrite IH.
      assert (Ha : alive e = true).
      { destruct (alive e) eqn:Ha; [reflexivity|].
        rewrite takeDamage_dead in E1 by exact Ha.
        injection E1 as <-. congruence. }
      rewrite Ha. reflexivity.
    + rewrite (takeDamages_dead ds e1 Ha1) in *. simpl in *.
      rewrite Ha1. rewrite andb_true_r in Hk. subst k.
      destruct (alive e); simpl; rewrite count_true_repeat_false; reflexivity.
Qed.

(** C3.  [takeDamage] on an enemy that is not alive changes nothing and
    returns false.  On an alive enemy it subtracts the amount from the
    health, sets a health at or below 0 to 0 together with [alive = false],
    and returns true exactly when this call took [alive] from true to
    false.  Hence, from a non-negative health, the health stays
    non-negative over every sequence of calls, and [alive] goes from true to
    false at most once in the sequence: once when the enemy starts alive
    and ends dead, never otherwise. *)
Theorem takeDamage_spec (e : t) (H0 : 0 <= health e) :
  (forall d, alive e = false -> takeDamage d e = (e, false)) /\
  (forall d, alive e = true ->
     let e' := fst (takeDamage d e) in
     health e' == Math_max 0 (health e - d) /\
     0 <= health e' /\
     (alive e' = false <-> health e - d <= 0) /\
     (alive e' = false -> health e' == 0) /\
     (snd (takeDamage d e) = true <-> alive e' = false)) /\
  (forall d, snd (takeDamage d e) = true <->
     alive e = true /\ alive (fst (takeDamage d e)) = false) /\
  (forall ds,
     0 <= health (fst (takeDamages ds e)) /\
     count_occ bool_dec (snd (takeDamages ds e)) true =
       (if alive e && negb (alive (fst (takeDamages ds e))) then 1%nat else 0%nat) /\
     (alive e = false -> alive (fst (takeDamages ds e)) = false)).
Proof.
  split; [intros d Ha; apply takeDamage_dead; exact Ha|].
  split; [|split].
  - intros d Ha e'. subst e'.
    pose proof (takeDamage_health_nonneg d e H0) as Hnonneg.
    revert Hnonneg. unfold takeDamage, Math_max. rewrite Ha. cbn [negb].
    cbn [health set_health set_damageFlash].
    qcase; cbn [fst snd health alive set_alive set_health set_damageFlash];
      intro Hnonneg; rewrite ?Ha; repeat split; intros;
      first [reflexivity | lra | discriminate].
  - intro d. rewrite takeDamage_killed_iff.
    rewrite andb_true_iff, negb_true_iff. tauto.
  - intro ds. split; [apply takeDamages_health_nonneg; exact H0|].
    split; [apply takeDamages_kill_count|].
    intro Ha. rewrite takeDamages_dead by exact Ha. exact Ha.
Qed.

Lemma takeDamage_spec_witness :
  takeDamage 50 (@Enemy.new table_math BASIC)
    = (set_damageFlash 200 (set_health (100 - 50) (@Enemy.new table_math BASIC)), false) /\
  0 <= health (fst (takeDamages [50; 100; 30] (@Enemy.new table_math BASIC))) /\
  snd (takeDamages [50; 100; 30] (@Enemy.new table_math BASIC)) = [false; true; false] /\
  count_occ bool_dec
    (snd (takeDamages [50; 100; 30] (@Enemy.new table_math BASIC))) true = 1%nat.
Proof.
  assert (H0 : 0 <= health (@Enemy.new table_math BASIC))
    by (vm_compute; discriminate).
  destruct (takeDamage_spec (@Enemy.new table_math BASIC) H0)
    as (_ & _ & _ & Hseq).
  destruct (Hseq [50; 100; 30]) as (Hh & Hcount & _).
  split; [apply takeDamage_survive; [reflexivity|vm_compute; reflexivity]|].
  split; [exact Hh|]. split; [vm_compute; reflexivity|].
  rewrite Hcount. vm_compute. reflexivity.
Defined.

End EnemyDamage.

(** ** pathData.js: the length of the path *)

Module PathLength.
Import Helpers PathData.

Section SoundSqrt.
Context {M : MathLib}.

(** What is asked of [Math.sqrt]: on the square of a non-negative number it
    returns that number. *)
Hypothesis sqrt_of_square : forall a b, 0 <= a -> b == a * a -> Math_sqrt b == a.

(** The thirteen segments of the path are horizontal or vertical, so their
    lengths are whole numbers; they add up to 1340. *)
Lemma calculatePathLength_value : calculatePathLength == 1340.
Proof.
  unfold calculatePathLength, PATH_COORDINATES.
  cbn [lengthFrom px py]. unfold distance. cbv zeta.
  repeat match goal with
  | |- context [Math_sqrt ?b] =>
      let a := eval vm_compute in (sqrt_table b) in
      rewrite (sqrt_of_square a b)
        by (vm_compute; first [reflexivity | discriminate])
  end.
  reflexivity.
Qed.

Lemma calculatePathLength_positive : 0 < calculatePathLength.
Proof. rewrite calculatePathLength_value. reflexivity. Qed.

End SoundSqrt.
End PathLength.

(** ** The square root of the examples *)

Module TableMath.

(** Two fractions in lowest terms that are equal as rationals are the same
    fraction. *)
Lemma lowest_terms_unique (n1 n2 : Z) (d1 d2 : positive) :
  Z.gcd n1 (Zpos d1) = 1%Z -> Z.gcd n2 (Zpos d2) = 1%Z ->
  (n1 * Zpos d2 = n2 * Zpos d1)%Z -> n1 = n2 /\ d1 = d2.
Proof.
  intros G1 G2 E.
  assert (D12 : (Zpos d1 | Zpos d2)%Z).
  { apply Z.gauss with n1.
    - exists n2. exact E.
    - rewrite Z.gcd_comm. exact G1. }
  assert (D21 : (Zpos d2 | Zpos d1)%Z).
  { apply Z.gauss with n2.
    - exists n1. symmetry. exact E.
    - rewrite Z.gcd_comm. exact G2. }
  assert (Ed : Zpos d1 = Zpos d2).
  { apply Z.divide_antisym_nonneg; try assumption; apply Pos2Z.is_nonneg. }
  injection Ed as Ed. subst d2. split; [|reflexivity].
  apply Z.mul_cancel_r with (Zpos d1); [discriminate|exact E].
Qed.

Lemma gcd_squares (n d : Z) :
  Z.gcd n d = 1%Z -> Z.gcd (n * n) (d * d) = 1%Z.
Proof.
  intro G. change (Z.coprime (n * n) (d * d)). change (Z.coprime n d) in G.
  assert (H1 : Z.coprime n (d * d)) by (apply Z.coprime_mul_r; exact G).
  apply Z.coprime_mul_l; exact H1.
Qed.

(** [sqrt_table] is exact on the square of a non-negative rational. *)
Lemma sqrt_table_of_square (a b : Q) :
  0 <= a -> b == a * a -> sqrt_table b == a.
Proof.
  intros Ha Hb. unfold sqrt_table. cbv zeta.
  pose proof (Qred_correct a) as Hr.
  pose proof (gcd_Qred a) as Hg.
  assert (Hn : (0 <= Qnum (Qred a))%Z).
  { assert (H0 : 0 <= Qred a) by (rewrite Hr; exact Ha).
    unfold Qle in H0. simpl in H0. lia. }
  destruct (Qred a) as [n d] eqn:Er. simpl in Hg, Hn.
  assert (Hs : b == (n * n # d * d)).
  { rewrite Hb, <- Hr. reflexivity. }
  apply Qred_complete in Hs. rewrite Hs.
  assert (Hfix : Qred (n * n # d * d) = (n * n # d * d)).
  { pose proof (Qred_correct (n * n # d * d)) as Hc.
    pose proof (gcd_Qred (n * n # d * d)) as Hg2.
    destruct (Qred (n * n # d * d)) as [n2 d2]. simpl in Hg2.
    unfold Qeq in Hc. simpl in Hc.
    destruct (lowest_terms_unique n2 (n * n) d2 (d * d) Hg2) as [-> ->].
    - rewrite Pos2Z.inj_mul. apply gcd_squares. exact Hg.
    - exact Hc.
    - reflexivity. }
  rewrite Hfix. simpl Qnum. simpl Qden.
  rewrite Z.sqrt_square by exact Hn.
  assert (Hd : Pos.sqrt (d * d) = d).
  { apply Pos2Z.inj. change (Zpos (Pos.sqrt (d * d))) with (Z.sqrt (Zpos (d * d))).
    rewrite Pos2Z.inj_mul. apply Z.sqrt_square. apply Pos2Z.is_nonneg. }
  rewrite Hd. exact Hr.
Qed.

(** So the path of the examples has length 1340. *)
Lemma table_path_length : @PathData.calculatePathLength table_math == 1340.
Proof.
  apply (@PathLength.calculatePathLength_value table_math).
  intros a b. apply sqrt_table_of_square.
Qed.

End TableMath.

(** ** Enemy: progress along the path *)

Module EnemyProgress.
Import Helpers HelpersFacts PathData Enemy.

Section WithMath.
Context {M : MathLib}.
Hypothesis path_has_length : 0 < calculatePathLength.

Lemma move_noop (dt : Q) (e : t) :
  alive e = false \/ reachedEnd e = true -> move dt e = e.
Proof.
  intros [Ha|Hr]; unfold move; [rewrite Ha|rewrite Hr, orb_true_r]; reflexivity.
Qed.

Lemma update_noop (dt : Q) (e : t) :
  alive e = false \/ reachedEnd e = true -> update dt e = e.
Proof.
  intros [Ha|Hr]; unfold update; [rewrite Ha|rewrite Hr, orb_true_r]; reflexivity.
Qed.

Lemma progressIncrement_nonneg (s dt : Q) :
  0 <= s -> 0 <= dt -> 0 <= (s * dt / 1000) / calculatePathLength.
Proof.
  intros Hs Hdt.
  apply Qle_shift_div_l; [exact path_has_length|].
  assert (Hsd : 0 <= s * dt) by (apply Qmult_le_0_compat; assumption).
  change (s * dt / 1000) with (s * dt * (1 # 1000)).
  lra.
Qed.

Lemma updateVisualEffects_progress (dt : Q) (e : t) :
  pathProgress (updateVisualEffects dt e) = pathProgress e /\
  speed (updateVisualEffects dt e) = speed e /\
  pathSpeed (updateVisualEffects dt e) = pathSpeed e /\
  alive (updateVisualEffects dt e) = alive e /\
  reachedEnd (updateVisualEffects dt e) = reachedEnd e.
Proof.
  unfold updateVisualEffects.
  destruct (Qltb 0 (damageFlash e)); [|repeat split].
  simpl. destruct (Qltb (damageFlash e - dt) 0); repeat split.
Qed.

Lemma checkEndReached_progress (e : t) :
  pathProgress (checkEndReached e) = pathProgress e /\
  speed (checkEndReached e) = speed e /\
  pathSpeed (checkEndReached e) = pathSpeed e.
Proof.
  unfold checkEndReached. destruct (Qleb 1 (pathProgress e)); repeat split.
Qed.

Lemma move_progress (dt : Q) (e : t) :
  0 <= dt -> 0 <= pathProgress e <= 1 -> 0 <= speed e * pathSpeed e ->
  pathProgress e <= pathProgress (move dt e) /\
  0 <= pathProgress (move dt e) <= 1 /\
  speed (move dt e) = speed e /\ pathSpeed (move dt e) = pathSpeed e.
Proof.
  intros Hdt Hp Hs. unfold move.
  destruct (negb (alive e) || reachedEnd e).
  - repeat split; try tauto; lra.
  - simpl.
    pose proof (progressIncrement_nonneg (speed e * pathSpeed e) dt Hs Hdt) as Hinc.
    set (inc := speed e * pathSpeed e * dt / 1000 / calculatePathLength) in *.
    pose proof (clamp_bounds (pathProgress e + inc) 0 1 ltac:(lra)) as Hb.
    pose proof (clamp_ge (pathProgress e + inc) (pathProgress e) 0 1
                  ltac:(lra) ltac:(lra)) as Hg.
    repeat split; tauto.
Qed.

Lemma update_progress (dt : Q) (e : t) :
  0 <= dt -> 0 <= pathProgress e <= 1 -> 0 <= speed e * pathSpeed e ->
  pathProgress e <= pathProgress (update dt e) /\
  0 <= pathProgress (update dt e) <= 1 /\
  0 <= speed (update dt e) * pathSpeed (update dt e).
Proof.
  intros Hdt Hp Hs. unfold update.
  destruct (negb (alive e) || reachedEnd e).
  - repeat split; try tauto; lra.
  - destruct (updateVisualEffects_progress dt e) as (Ep & Es & Eps & _).
    set (e1 := updateVisualEffects dt e) in *.
    destruct (move_progress dt e1 Hdt) as (Hmono & Hb & Es2 & Eps2).
    { rewrite Ep. exact Hp. }
    { rewrite Es, Eps. exact Hs. }
    destruct (checkEndReached_progress (move dt e1)) as (Ep3 & Es3 & Eps3).
    rewrite Ep3, Es3, Eps3, Es2, Eps2, Es, Eps.
    rewrite Ep in Hmono. tauto.
Qed.

Lemma updates_progress (dts : list Q) :
  forall e, Forall (fun dt => 0 <= dt) dts ->
  0 <= pathProgress e <= 1 -> 0 <= speed e * pathSpeed e ->
  pathProgress e <= pathProgress (updates dts e) /\
  0 <= pathProgress (updates dts e) <= 1 /\
  0 <= speed (updates dts e) * pathSpeed (updates dts e).
Proof.
  induction dts as [|dt dts IH]; intros e Hall Hp Hs; simpl.
  - repeat split; try tauto; lra.
  - inversion Hall as [|? ? Hdt Hrest]; subst.
    destruct (update_progress dt e Hdt Hp Hs) as (Hm & Hb & Hs1).
    destruct (IH (update dt e) Hrest Hb Hs1) as (Hm2 & Hb2 & Hs2).
    repeat split; try tauto; lra.
Qed.

Lemma updates_app (dts1 dts2 : list Q) (e : t) :
  updates (dts1 ++ dts2) e = updates dts2 (updates dts1 e).
Proof.
  revert e. induction dts1 as [|dt dts1 IH]; intro e; simpl; [reflexivity|].
  apply IH.
Qed.

(** C6.  On a path of positive length, for an enemy whose progress is in
    [0,1] and whose speed product is non-negative (as every constructed
    enemy has them), and for every sequence of updates with non-negative
    elapsed times: the progress after any prefix of the sequence is at most
    the progress after the whole sequence, and the progress stays in [0,1].
    [move] and [update] return the enemy unchanged when it is not alive or
    has reached the end. *)
Theorem progress_monotone_bounded (e : t)
    (Hp : 0 <= pathProgress e <= 1) (Hs : 0 <= speed e * pathSpeed e) :
  (forall dt, alive e = false \/ reachedEnd e = true ->
     move dt e = e /\ update dt e = e) /\
  (forall dts1 dts2, Forall (fun dt => 0 <= dt) (dts1 ++ dts2) ->
     pathProgress e <= pathProgress (updates dts1 e) /\
     pathProgress (updates dts1 e) <= pathProgress (updates (dts1 ++ dts2) e) /\
     0 <= pathProgress (updates (dts1 ++ dts2) e) <= 1).
Proof.
  split.
  - intros dt Hdead. split; [apply move_noop|apply update_noop]; exact Hdead.
  - intros dts1 dts2 Hall.
    apply Forall_app in Hall. destruct Hall as [H1 H2].
    destruct (updates_progress dts1 e H1 Hp Hs) as (Hm1 & Hb1 & Hs1).
    destruct (updates_progress dts2 (updates dts1 e) H2 Hb1 Hs1) as (Hm2 & Hb2 & _).
    rewrite updates_app. tauto.
Qed.

End WithMath.

(** Every constructed enemy starts within the bounds assumed above. *)
Lemma new_on_path {M : MathLib} (k : EnemyKind) :
  0 <= pathProgress (new k) <= 1 /\ 0 <= speed (new k) * pathSpeed (new k).
Proof. destruct k; simpl; lra. Qed.

Lemma progress_monotone_bounded_witness :
  let e := @new table_math BASIC in
  pathProgress e <= pathProgress (@updates table_math [16] e) /\
  pathProgress (@updates table_math [16] e)
    <= pathProgress (@updates table_math ([16] ++ [1000; 30000]) e) /\
  0 <= pathProgress (@updates table_math ([16] ++ [1000; 30000]) e) <= 1.
Proof.
  intro e.
  assert (HL : 0 < @calculatePathLength table_math) by (vm_compute; reflexivity).
  assert (Hp : 0 <= pathProgress e <= 1) by (split; vm_compute; discriminate).
  assert (Hs : 0 <= speed e * pathSpeed e) by (vm_compute; discriminate).
  apply (proj2 (@progress_monotone_bounded table_math HL e Hp Hs) [16] [1000; 30000]).
  repeat constructor; vm_compute; discriminate.
Defined.

End EnemyProgress.

(** ** WaveManager: the pause flag *)

Module WavePause.
Import WaveManager.

Create Rewrite HintDb paused.

(** Setting [isPaused] commutes with every other assignment and is seen by
    no other field. *)
Lemma set_currentWave_paused v p w :
  set_currentWave v (set_isPaused p w) = set_isPaused p (set_currentWave v w).
Proof. reflexivity. Qed.

Lemma set_waveInProgress_paused v p w :
  set_waveInProgress v (set_isPaused p w) = set_isPaused p (set_waveInProgress v w).
Proof. reflexivity. Qed.

Lemma set_waveComplete_paused v p w :
  set_waveComplete v (set_isPaused p w) = set_isPaused p (set_waveComplete v w).
Proof. reflexivity. Qed.

Lemma set_allWavesComplete_paused v p w :
  set_allWavesComplete v (set_isPaused p w) = set_isPaused p (set_allWavesComplete v w).
Proof. reflexivity. Qed.

Lemma set_enemiesSpawned_paused v p w :
  set_enemiesSpawned v (set_isPaused p w) = set_isPaused p (set_enemiesSpawned v w).
Proof. reflexivity. Qed.

Lemma set_enemiesToSpawn_paused v p w :
  set_enemiesToSpawn v (set_isPaused p w) = set_isPaused p (set_enemiesToSpawn v w).
Proof. reflexivity. Qed.

Lemma set_spawnQueue_paused v p w :
  set_spawnQueue v (set_isPaused p w) = set_isPaused p (set_spawnQueue v w).
Proof. reflexivity. Qed.

Lemma set_lastSpawnTime_paused v p w :
  set_lastSpawnTime v (set_isPaused p w) = set_isPaused p (set_lastSpawnTime v w).
Proof. reflexivity. Qed.

Lemma set_nextSpawnTime_paused v p w :
  set_nextSpawnTime v (set_isPaused p w) = set_isPaused p (set_nextSpawnTime v w).
Proof. reflexivity. Qed.

Lemma set_waveStartTime_paused v p w :
  set_waveStartTime v (set_isPaused p w) = set_isPaused p (set_waveStartTime v w).
Proof. reflexivity. Qed.

Lemma set_waveCountdown_paused v p w :
  set_waveCountdown v (set_isPaused p w) = set_isPaused p (set_waveCountdown v w).
Proof. reflexivity. Qed.

Lemma set_isCountingDown_paused v p w :
  set_isCountingDown v (set_isPaused p w) = set_isPaused p (set_isCountingDown v w).
Proof. reflexivity. Qed.

Lemma set_stats_paused v p w :
  set_stats v (set_isPaused p w) = set_isPaused p (set_stats v w).
Proof. reflexivity. Qed.

Lemma set_enemies_paused v p w :
  set_enemies v (set_isPaused p w) = set_isPaused p (set_enemies v w).
Proof. reflexivity. Qed.

Lemma set_emitted_paused v p w :
  set_emitted v (set_isPaused p w) = set_isPaused p (set_emitted v w).
Proof. reflexivity. Qed.

Lemma waveData_paused p w : waveData (set_isPaused p w) = waveData w.
Proof. reflexivity. Qed.

Lemma totalWaves_paused p w : totalWaves (set_isPaused p w) = totalWaves w.
Proof. reflexivity. Qed.

Lemma currentWave_paused p w : currentWave (set_isPaused p w) = currentWave w.
Proof. reflexivity. Qed.

Lemma waveInProgress_paused p w : waveInProgress (set_isPaused p w) = waveInProgress w.
Proof. reflexivity. Qed.

Lemma waveComplete_paused p w : waveComplete (set_isPaused p w) = waveComplete w.
Proof. reflexivity. Qed.

Lemma allWavesComplete_paused p w : allWavesComplete (set_isPaused p w) = allWavesComplete w.
Proof. reflexivity. Qed.

Lemma enemiesSpawned_paused p w : enemiesSpawned (set_isPaused p w) = enemiesSpawned w.
Proof. reflexivity. Qed.

Lemma enemiesToSpawn_paused p w : enemiesToSpawn (set_isPaused p w) = enemiesToSpawn w.
Proof. reflexivity. Qed.

Lemma spawnQueue_paused p w : spawnQueue (set_isPaused p w) = spawnQueue w.
Proof. reflexivity. Qed.

Lemma lastSpawnTime_paused p w : lastSpawnTime (set_isPaused p w) = lastSpawnTime w.
Proof. reflexivity. Qed.

Lemma nextSpawnTime_paused p w : nextSpawnTime (set_isPaused p w) = nextSpawnTime w.
Proof. reflexivity. Qed.

Lemma waveStartTime_paused p w : waveStartTime (set_isPaused p w) = waveStartTime w.
Proof. reflexivity. Qed.

Lemma timeBetweenWaves_paused p w : timeBetweenWaves (set_isPaused p w) = timeBetweenWaves w.
Proof. reflexivity. Qed.

Lemma waveCountdown_paused p w : waveCountdown (set_isPaused p w) = waveCountdown w.
Proof. reflexivity. Qed.

Lemma isCountingDown_paused p w : isCountingDown (set_isPaused p w) = isCountingDown w.
Proof. reflexivity. Qed.

Lemma stats_paused p w : stats (set_isPaused p w) = stats w.
Proof. reflexivity. Qed.

Lemma enemies_paused p w : enemies (set_isPaused p w) = enemies w.
Proof. reflexivity. Qed.

Lemma onEnemySpawn_paused p w : onEnemySpawn (set_isPaused p w) = onEnemySpawn w.
Proof. reflexivity. Qed.

Lemma onWaveStart_paused p w : onWaveStart (set_isPaused p w) = onWaveStart w.
Proof. reflexivity. Qed.

Lemma onWaveComplete_paused p w : onWaveComplete (set_isPaused p w) = onWaveComplete w.
Proof. reflexivity. Qed.

Lemma onAllWavesComplete_paused p w : onAllWavesComplete (set_isPaused p w) = onAllWavesComplete w.
Proof. reflexivity. Qed.

Lemma emitted_paused p w : emitted (set_isPaused p w) = emitted w.
Proof. reflexivity. Qed.

#[local] Hint Rewrite set_currentWave_paused set_waveInProgress_paused
  set_waveComplete_paused set_allWavesComplete_paused
  set_enemiesSpawned_paused set_enemiesToSpawn_paused set_spawnQueue_paused
  set_lastSpawnTime_paused set_nextSpawnTime_paused set_waveStartTime_paused
  set_waveCountdown_paused set_isCountingDown_paused set_stats_paused
  set_enemies_paused set_emitted_paused waveData_paused totalWaves_paused
  currentWave_paused waveInProgress_paused waveComplete_paused
  allWavesComplete_paused enemiesSpawned_paused enemiesToSpawn_paused
  spawnQueue_paused lastSpawnTime_paused nextSpawnTime_paused
  waveStartTime_paused timeBetweenWaves_paused waveCountdown_paused
  isCountingDown_paused stats_paused enemies_paused onEnemySpawn_paused
  onWaveStart_paused onWaveComplete_paused onAllWavesComplete_paused
  emitted_paused : paused.

Ltac through_pause := cbv zeta; autorewrite with paused.

(** Pushes the pause flag outwards, splitting on the tests met on the way. *)
Ltac pause_cases :=
  repeat first
    [ progress through_pause
    | match goal with
      | |- context [match ?c with _ => _ end] =>
          lazymatch c with
          | context [set_isPaused] => fail
          | _ => destruct c
          end
      end ];
  try reflexivity.

Lemma emit_paused b ev p w :
  emit b ev (set_isPaused p w) = set_isPaused p (emit b ev w).
Proof. unfold emit. destruct b; reflexivity. Qed.

Lemma getNextSpawnDelay_paused p w :
  getNextSpawnDelay (set_isPaused p w) = getNextSpawnDelay w.
Proof. reflexivity. Qed.

Lemma getCurrentWaveData_paused p w :
  getCurrentWaveData (set_isPaused p w) = getCurrentWaveData w.
Proof. reflexivity. Qed.

Lemma shouldShuffleSpawnOrder_paused p w :
  shouldShuffleSpawnOrder (set_isPaused p w) = shouldShuffleSpawnOrder w.
Proof. reflexivity. Qed.

Lemma shuffleSpawnQueue_paused env p w :
  shuffleSpawnQueue env (set_isPaused p w) = set_isPaused p (shuffleSpawnQueue env w).
Proof. reflexivity. Qed.

Lemma updateWaveStats_paused waveTime p w :
  updateWaveStats waveTime (set_isPaused p w)
  = set_isPaused p (updateWaveStats waveTime w).
Proof. reflexivity. Qed.

Lemma startWaveCountdown_paused p w :
  startWaveCountdown (set_isPaused p w) = set_isPaused p (startWaveCountdown w).
Proof. reflexivity. Qed.

#[local] Hint Rewrite emit_paused getNextSpawnDelay_paused
  getCurrentWaveData_paused shouldShuffleSpawnOrder_paused
  shuffleSpawnQueue_paused updateWaveStats_paused startWaveCountdown_paused
  : paused.

Lemma prepareSpawnQueue_paused env data p w :
  prepareSpawnQueue env data (set_isPaused p w)
  = set_isPaused p (prepareSpawnQueue env data w).
Proof.
  unfold prepareSpawnQueue.
  destruct (pushGroups (wave_enemies data) [] 0) as [queue toSpawn].
  pause_cases.
Qed.

#[local] Hint Rewrite prepareSpawnQueue_paused : paused.

Lemma initializeWave_paused env p w :
  initializeWave env (set_isPaused p w) = set_isPaused p (initializeWave env w).
Proof.
  unfold initializeWave. pause_cases.
Qed.

Lemma completeAllWaves_paused p w :
  completeAllWaves (set_isPaused p w) = set_isPaused p (completeAllWaves w).
Proof.
  unfold completeAllWaves. pause_cases.
Qed.

#[local] Hint Rewrite initializeWave_paused completeAllWaves_paused : paused.

Lemma startNextWave_paused env manual p w :
  startNextWave env manual (set_isPaused p w)
  = (set_isPaused p (fst (startNextWave env manual w)),
     snd (startNextWave env manual w)).
Proof.
  unfold startNextWave. pause_cases.
Qed.

#[local] Hint Rewrite startNextWave_paused : paused.

Lemma updateCountdown_paused env dt p w :
  updateCountdown env dt (set_isPaused p w)
  = set_isPaused p (updateCountdown env dt w).
Proof.
  unfold updateCountdown. pause_cases.
Qed.

Lemma completeCurrentWave_paused env p w :
  completeCurrentWave env (set_isPaused p w)
  = set_isPaused p (completeCurrentWave env w).
Proof.
  unfold completeCurrentWave.
  change (waveComplete (set_isPaused p w)) with (waveComplete w).
  destruct (waveComplete w); [reflexivity|].
  cbv zeta. unfold emit.
  cbn [onWaveComplete currentWave totalWaves set_stats set_currentWave
       updateWaveStats set_waveInProgress set_waveComplete set_isPaused stats].
  destruct (onWaveComplete w); destruct (_ <? _)%nat; reflexivity.
Qed.

#[local] Hint Rewrite updateCountdown_paused completeCurrentWave_paused : paused.

Lemma checkWaveCompletion_paused env p w :
  checkWaveCompletion env (set_isPaused p w)
  = set_isPaused p (checkWaveCompletion env w).
Proof.
  unfold checkWaveCompletion. pause_cases.
Qed.

Lemma checkAllWavesComplete_paused p w :
  checkAllWavesComplete (set_isPaused p w)
  = set_isPaused p (checkAllWavesComplete w).
Proof.
  unfold checkAllWavesComplete. pause_cases.
Qed.

#[local] Hint Rewrite checkWaveCompletion_paused checkAllWavesComplete_paused
  : paused.

Section WithMath.
Context {M : MathLib}.

Lemma spawnNextEnemy_paused env p w :
  spawnNextEnemy env (set_isPaused p w) = set_isPaused p (spawnNextEnemy env w).
Proof.
  unfold spawnNextEnemy.
  change (spawnQueue (set_isPaused p w)) with (spawnQueue w).
  change (enemiesSpawned (set_isPaused p w)) with (enemiesSpawned w).
  destruct (nth_error (spawnQueue w) (enemiesSpawned w)) as [enemyData|];
    [|reflexivity].
  change (onEnemySpawn (set_isPaused p w)) with (onEnemySpawn w).
  destruct (onEnemySpawn w) as [handler|]; reflexivity.
Qed.

Lemma processEnemySpawning_paused env p w :
  processEnemySpawning env (set_isPaused p w)
  = set_isPaused p (processEnemySpawning env w).
Proof.
  unfold processEnemySpawning. pause_cases.
  apply spawnNextEnemy_paused.
Qed.

Lemma update_set_isPaused env dt currentEnemies p w :
  update env dt currentEnemies (set_isPaused p w)
  = set_isPaused p (update env dt currentEnemies w).
Proof.
  unfold update. through_pause.
  set (w1 := set_enemies currentEnemies w).
  destruct (isCountingDown w1); through_pause;
    (destruct (waveInProgress _); through_pause;
     [rewrite processEnemySpawning_paused; through_pause|]; reflexivity).
Qed.

(** C10.  [pause()] only sets [isPaused], and [update] never reads it: for
    every manager, environment, elapsed time and enemies array, [update]
    after [pause()] reaches the state that [update] alone reaches (the same
    spawns, countdown, transitions and callback calls) with [isPaused] set
    to true. *)
Theorem pause_does_not_affect_update env dt currentEnemies w :
  update env dt currentEnemies (pause w) = pause (update env dt currentEnemies w).
Proof. unfold pause. apply update_set_isPaused. Qed.

End WithMath.
End WavePause.

(** ** WaveManager: starting a wave *)

Module WaveStart.
Import WaveManager WaveScenario.

Lemma emit_fields b ev w :
  isCountingDown (emit b ev w) = isCountingDown w /\
  waveCountdown (emit b ev w) = waveCountdown w /\
  waveComplete (emit b ev w) = waveComplete w /\
  waveInProgress (emit b ev w) = waveInProgress w /\
  spawnQueue (emit b ev w) = spawnQueue w /\
  enemiesToSpawn (emit b ev w) = enemiesToSpawn w /\
  enemiesSpawned (emit b ev w) = enemiesSpawned w /\
  stats (emit b ev w) = stats w /\
  currentWave (emit b ev w) = currentWave w /\
  totalWaves (emit b ev w) = totalWaves w.
Proof. unfold emit. destruct b; repeat split. Qed.

Lemma prepareSpawnQueue_countdown env data w :
  isCountingDown (prepareSpawnQueue env data w) = isCountingDown w /\
  waveCountdown (prepareSpawnQueue env data w) = waveCountdown w /\
  waveComplete (prepareSpawnQueue env data w) = waveComplete w /\
  waveInProgress (prepareSpawnQueue env data w) = waveInProgress w.
Proof.
  unfold prepareSpawnQueue.
  destruct (pushGroups (wave_enemies data) [] 0) as [queue toSpawn].
  destruct (shouldShuffleSpawnOrder _); repeat split.
Qed.

Lemma initializeWave_countdown env w :
  isCountingDown (initializeWave env w) = isCountingDown w /\
  waveCountdown (initializeWave env w) = waveCountdown w.
Proof.
  unfold initializeWave.
  destruct (getCurrentWaveData w) as [data|]; [|split; reflexivity].
  cbv zeta.
  match goal with
  | |- context [prepareSpawnQueue env data ?x] =>
      destruct (prepareSpawnQueue_countdown env data x) as (E1 & E2 & _)
  end.
  simpl. rewrite E1, E2. split; reflexivity.
Qed.

Lemma startNextWave_rejected env manual w :
  waveInProgress w = true \/ allWavesComplete w = true ->
  startNextWave env manual w = (w, false).
Proof.
  intros [Hp|Hc]; unfold startNextWave; rewrite ?Hp, ?Hc, ?orb_true_r; reflexivity.
Qed.

Lemma startNextWave_started env manual w :
  snd (startNextWave env manual w) = true ->
  fst (startNextWave env manual w)
  = let w := if manual && isCountingDown w
             then set_waveCountdown 0 (set_isCountingDown false w) else w in
    let w := initializeWave env w in
    emit (onWaveStart w) (WaveStart (currentWave w + 1) (getCurrentWaveData w)) w.
Proof.
  unfold startNextWave.
  destruct (waveInProgress w || allWavesComplete w); [discriminate|].
  destruct (totalWaves w <=? currentWave w)%nat; [discriminate|].
  reflexivity.
Qed.

Lemma completeAllWaves_countdown w :
  isCountingDown w = false -> waveCountdown w = 0 ->
  isCountingDown (completeAllWaves w) = false /\
  waveCountdown (completeAllWaves w) = 0.
Proof.
  intros Hc Ht. unfold completeAllWaves.
  destruct (allWavesComplete w); [tauto|]. cbv zeta.
  match goal with
  | |- context [emit ?b ?ev ?x] =>
      destruct (emit_fields b ev x) as (E1 & E2 & _); rewrite E1, E2
  end.
  simpl. tauto.
Qed.

(** C9, as the code has it.  [startNextWave] returns false and changes
    nothing whenever a wave is in progress or all waves are complete.  When
    it starts a wave, an invocation with [manual = true] during an active
    countdown clears the countdown flag and zeroes the timer, and an
    invocation with [manual = false] leaves the flag and the timer as they
    were.  The automatic invocation, made by [updateCountdown] when the
    timer runs out, clears the flag and zeroes the timer itself before it
    invokes [startNextWave]. *)
Theorem startNextWave_countdown env w :
  (forall manual, waveInProgress w = true \/ allWavesComplete w = true ->
     startNextWave env manual w = (w, false)) /\
  (isCountingDown w = true -> snd (startNextWave env true w) = true ->
     isCountingDown (fst (startNextWave env true w)) = false /\
     waveCountdown (fst (startNextWave env true w)) = 0) /\
  (snd (startNextWave env false w) = true ->
     isCountingDown (fst (startNextWave env false w)) = isCountingDown w /\
     waveCountdown (fst (startNextWave env false w)) = waveCountdown w) /\
  (forall dt, isCountingDown w = true -> waveCountdown w - dt <= 0 ->
     isCountingDown (updateCountdown env dt w) = false /\
     waveCountdown (updateCountdown env dt w) = 0).
Proof.
  split; [|split; [|split]].
  - intros manual Hrej. apply startNextWave_rejected; exact Hrej.
  - intros Hc Hs. rewrite (startNextWave_started env true w Hs).
    rewrite Hc. cbv zeta. simpl andb. cbv iota.
    match goal with
    | |- context [emit ?b ?ev ?x] =>
        destruct (emit_fields b ev x) as (E1 & E2 & _); rewrite E1, E2
    end.
    match goal with
    | |- context [initializeWave env ?x] =>
        destruct (initializeWave_countdown env x) as [E3 E4]; rewrite E3, E4
    end.
    split; reflexivity.
  - intros Hs. rewrite (startNextWave_started env false w Hs).
    cbv zeta. simpl andb. cbv iota.
    match goal with
    | |- context [emit ?b ?ev ?x] =>
        destruct (emit_fields b ev x) as (E1 & E2 & _); rewrite E1, E2
    end.
    apply initializeWave_countdown.
  - intros dt Hc Hexp. unfold updateCountdown. rewrite Hc. simpl negb. cbv iota zeta.
    change (waveCountdown (set_waveCountdown (waveCountdown w - dt) w))
      with (waveCountdown w - dt).
    apply Qleb_le in Hexp. rewrite Hexp.
    set (w0 := set_waveCountdown 0 (set_isCountingDown false _)).
    assert (H0 : isCountingDown w0 = false /\ waveCountdown w0 = 0) by (split; reflexivity).
    destruct (snd (startNextWave env false w0)) eqn:Hs.
    + rewrite (startNextWave_started env false w0 Hs).
      cbv zeta. simpl andb. cbv iota.
      match goal with
      | |- context [emit ?b ?ev ?x] =>
          destruct (emit_fields b ev x) as (E1 & E2 & _); rewrite E1, E2
      end.
      destruct (initializeWave_countdown env w0) as [E3 E4]. rewrite E3, E4.
      exact H0.
    + revert Hs. unfold startNextWave.
      destruct (waveInProgress w0 || allWavesComplete w0); [intros _; exact H0|].
      destruct (totalWaves w0 <=? currentWave w0)%nat; [|discriminate].
      intros _. simpl fst. apply completeAllWaves_countdown; reflexivity.
Qed.

Lemma wave1_done_counting :
  isCountingDown wave1_done = true /\ waveCountdown wave1_done = 8000 /\
  currentWave wave1_done = 1%nat /\ waveInProgress wave1_done = false.
Proof. vm_compute. repeat split. Qed.

(** After the first wave the countdown runs.  A start with [manual = false]
    then begins the second wave and leaves the countdown flag set and the
    timer at 8000 ms. *)
Lemma automatic_start_keeps_countdown :
  isCountingDown wave1_done = true /\
  snd (startNextWave (at_time 10000) false wave1_done) = true /\
  waveInProgress (fst (startNextWave (at_time 10000) false wave1_done)) = true /\
  isCountingDown (fst (startNextWave (at_time 10000) false wave1_done)) = true /\
  ~ cancels_countdown (at_time 10000) false wave1_done.
Proof.
  split; [|split; [|split; [|split]]]; try (vm_compute; reflexivity).
  unfold cancels_countdown. intros [Hflag _]. vm_compute in Hflag. discriminate.
Qed.

Lemma startNextWave_countdown_witness :
  isCountingDown (fst (startNextWave (at_time 10000) true wave1_done)) = false /\
  waveCountdown (fst (startNextWave (at_time 10000) true wave1_done)) = 0 /\
  isCountingDown (fst (startNextWave (at_time 10000) false wave1_done)) = true /\
  startNextWave (at_time 500) true wave1_started = (wave1_started, false) /\
  isCountingDown (updateCountdown (at_time 17100) 8000 wave1_done) = false.
Proof.
  pose proof (startNextWave_countdown (at_time 10000) wave1_done)
    as (_ & Hmanual & Hauto & _).
  pose proof (startNextWave_countdown (at_time 500) wave1_started) as (Hrej & _).
  pose proof (startNextWave_countdown (at_time 17100) wave1_done)
    as (_ & _ & _ & Hexp).
  assert (Hc : isCountingDown wave1_done = true) by (vm_compute; reflexivity).
  assert (Hs1 : snd (startNextWave (at_time 10000) true wave1_done) = true)
    by (vm_compute; reflexivity).
  assert (Hs2 : snd (startNextWave (at_time 10000) false wave1_done) = true)
    by (vm_compute; reflexivity).
  destruct (Hmanual Hc Hs1) as [H1 H2].
  destruct (Hauto Hs2) as [H3 _].
  split; [exact H1|]. split; [exact H2|].
  split; [rewrite H3; exact Hc|].
  split; [apply Hrej; left; vm_compute; reflexivity|].
  apply (Hexp 8000 Hc). vm_compute. discriminate.
Defined.

End WaveStart.

(** ** WaveManager: wave statistics *)

Module WaveStats.
Import WaveManager WaveScenario WaveStart.

Lemma completeCurrentWave_stats env w :
  waveComplete w = false ->
  stats (completeCurrentWave env w)
  = let s := stats (updateWaveStats (now env - waveStartTime w) w) in
    {| totalEnemiesSpawned := totalEnemiesSpawned s;
       totalWavesCompleted := totalWavesCompleted s + 1;
       averageWaveTime := averageWaveTime s;
       fastestWave := fastestWave s;
       slowestWave := slowestWave s |}.
Proof.
  intro Hc. unfold completeCurrentWave. rewrite Hc. cbv zeta.
  match goal with
  | |- stats (if ?c then startWaveCountdown ?x else ?x) = _ =>
      transitivity (stats x); [destruct c; reflexivity|]
  end.
  match goal with
  | |- stats (emit ?b ?ev ?x) = _ =>
      destruct (emit_fields b ev x) as (_ & _ & _ & _ & _ & _ & _ & E & _);
      rewrite E
  end.
  reflexivity.
Qed.

(** With no wave completed yet, [updateWaveStats] divides by zero: the
    average of the first wave is Infinity whatever its positive duration. *)
Lemma first_average_is_infinite env w :
  waveComplete w = false ->
  totalWavesCompleted (stats w) = 0%Z ->
  averageWaveTime (stats w) = JsNum.Fin 0 ->
  waveStartTime w < now env ->
  averageWaveTime (stats (completeCurrentWave env w)) = JsNum.PosInf.
Proof.
  intros Hc Hn Ha Ht. rewrite completeCurrentWave_stats by exact Hc.
  unfold updateWaveStats. simpl. rewrite Hn, Ha. simpl.
  set (x := 0 * inject_Z (-1) + (now env - waveStartTime w)).
  assert (Hx : 0 < x) by (unfold x; change (inject_Z (-1)) with (-1 # 1); lra).
  change (Qeq_bool (inject_Z 0) 0) with true. cbv iota.
  destruct (Qeq_bool x 0) eqn:E.
  - apply Qeq_bool_iff in E. lra.
  - apply Qltb_lt in Hx. rewrite Hx. reflexivity.
Qed.

(** Once the average is Infinity or NaN it is NaN after the next wave. *)
Lemma later_average_is_NaN env w :
  waveComplete w = false ->
  (totalWavesCompleted (stats w) = 1%Z /\ averageWaveTime (stats w) = JsNum.PosInf)
  \/ averageWaveTime (stats w) = JsNum.NaN ->
  averageWaveTime (stats (completeCurrentWave env w)) = JsNum.NaN.
Proof.
  intros Hc H. rewrite completeCurrentWave_stats by exact Hc.
  unfold updateWaveStats. simpl.
  destruct H as [[Hn Ha]|Ha]; rewrite ?Hn, Ha; reflexivity.
Qed.

(** The two records are kept correctly: the fastest and the slowest wave
    move to the new duration exactly when it beats them. *)
Lemma records_updated env w :
  waveComplete w = false ->
  let waveTime := now env - waveStartTime w in
  fastestWave (stats (completeCurrentWave env w))
  = (if JsNum.ltb (JsNum.Fin waveTime) (fastestWave (stats w))
     then JsNum.Fin waveTime else fastestWave (stats w)) /\
  slowestWave (stats (completeCurrentWave env w))
  = (if JsNum.ltb (slowestWave (stats w)) (JsNum.Fin waveTime)
     then JsNum.Fin waveTime else slowestWave (stats w)).
Proof.
  intros Hc waveTime. rewrite completeCurrentWave_stats by exact Hc.
  split; reflexivity.
Qed.

(** C2, on the code.  The first wave of the game, completed 9000 ms after
    its start, leaves [averageWaveTime] at Infinity, where the mean of the
    durations is 9000; after the second wave (11200 ms) it is NaN, where
    the mean is 10100.  [fastestWave] and [slowestWave] are the minimum and
    the maximum, 9000 and 11200. *)
Theorem averageWaveTime_is_not_the_mean :
  totalWavesCompleted (stats wave1_done) = 1%Z /\
  averageWaveTime (stats wave1_done) = JsNum.PosInf /\
  fastestWave (stats wave1_done) = JsNum.Fin 9000 /\
  slowestWave (stats wave1_done) = JsNum.Fin 9000 /\
  totalWavesCompleted (stats wave2_done) = 2%Z /\
  averageWaveTime (stats wave2_done) = JsNum.NaN /\
  fastestWave (stats wave2_done) = JsNum.Fin 9000 /\
  slowestWave (stats wave2_done) = JsNum.Fin 11200.
Proof. vm_compute. repeat split. Qed.

End WaveStats.

(** ** WaveManager: the spawn queue and the end of a wave *)

Module WaveQueue.
Import WaveManager WaveScenario WaveStart.

Lemma wave3_in_WAVE_DATA : nth_error WAVE_DATA 2 = Some wave3.
Proof. reflexivity. Qed.

Lemma length_list_set {A : Type} (i : nat) (v : A) (l : list A) :
  length (list_set i v l) = length l.
Proof.
  revert i. induction l as [|x l IH]; intros [|i]; simpl; auto.
Qed.

Lemma length_swap (i j : nat) (q : list SpawnEntry) :
  length (swap i j q) = length q.
Proof.
  unfold swap.
  destruct (nth_error q i); [|reflexivity].
  destruct (nth_error q j); [|reflexivity].
  rewrite !length_list_set. reflexivity.
Qed.

Lemma length_fisherYates (random : nat -> Q) (i : nat) :
  forall k q, length (fisherYates random i k q) = length q.
Proof.
  induction i as [|i IH]; intros k q; simpl; [reflexivity|].
  rewrite IH. apply length_swap.
Qed.

Lemma length_retime (q : list SpawnEntry) :
  forall index, length (retime index q) = length q.
Proof.
  induction q as [|e q IH]; intro index; simpl; [reflexivity|].
  rewrite IH. reflexivity.
Qed.

Lemma prepareSpawnQueue_wave3 env w :
  length (spawnQueue (prepareSpawnQueue env wave3 w)) = 13%nat /\
  enemiesToSpawn (prepareSpawnQueue env wave3 w) = 13%nat.
Proof.
  unfold prepareSpawnQueue.
  destruct (pushGroups (wave_enemies wave3) [] 0) as [queue toSpawn] eqn:E.
  assert (Hq : length queue = 13%nat /\ toSpawn = 13%nat).
  { vm_compute in E. injection E as <- <-. split; reflexivity. }
  clear E. destruct Hq as [Hlen Hn].
  destruct (shouldShuffleSpawnOrder _).
  - unfold shuffleSpawnQueue.
    cbn [spawnQueue enemiesToSpawn set_spawnQueue set_enemiesToSpawn].
    rewrite length_retime, length_fisherYates. tauto.
  - cbn [spawnQueue enemiesToSpawn set_spawnQueue set_enemiesToSpawn]. tauto.
Qed.

Lemma completeCurrentWave_completes env w :
  waveComplete (completeCurrentWave env w) = true.
Proof.
  unfold completeCurrentWave.
  destruct (waveComplete w) eqn:Hc; [exact Hc|]. cbv zeta.
  match goal with
  | |- waveComplete (if ?c then startWaveCountdown ?x else ?x) = _ =>
      transitivity (waveComplete x); [destruct c; reflexivity|]
  end.
  match goal with
  | |- waveComplete (emit ?b ?ev ?x) = _ =>
      destruct (emit_fields b ev x) as (_ & _ & E & _); rewrite E
  end.
  reflexivity.
Qed.

Lemma noEnemiesAlive_iff (l : list Enemy.t) :
  (length l =? 0)%nat || forallb (fun enemy => negb (Enemy.isAlive enemy)) l = true
  <-> Forall (fun enemy => Enemy.alive enemy = false) l.
Proof.
  rewrite orb_true_iff, forallb_forall, Forall_forall. split.
  - intros [Hlen|Hall] e Hin.
    + destruct l; [destruct Hin|discriminate].
    + apply negb_true_iff. apply Hall. exact Hin.
  - intros Hall. right. intros e Hin. apply negb_true_iff. apply Hall. exact Hin.
Qed.

Lemma initializeWave_wave3 env w :
  getCurrentWaveData w = Some wave3 ->
  length (spawnQueue (initializeWave env w)) = 13%nat /\
  enemiesToSpawn (initializeWave env w) = 13%nat /\
  enemiesSpawned (initializeWave env w) = 0%nat /\
  waveInProgress (initializeWave env w) = true /\
  waveComplete (initializeWave env w) = false.
Proof.
  intro Hdata. unfold initializeWave. rewrite Hdata. cbv zeta.
  set (w0 := set_waveStartTime (now env)
               (set_waveComplete false (set_waveInProgress true w))).
  destruct (prepareSpawnQueue_wave3 env w0) as [L1 L2].
  destruct (prepareSpawnQueue_countdown env wave3 w0) as (_ & _ & C1 & C2).
  change (waveComplete w0) with false in C1.
  change (waveInProgress w0) with true in C2.
  clearbody w0.
  remember (prepareSpawnQueue env wave3 w0) as wq eqn:Ewq. clear Ewq.
  cbn [spawnQueue enemiesToSpawn enemiesSpawned waveInProgress waveComplete
       set_nextSpawnTime set_lastSpawnTime set_enemiesSpawned].
  repeat split; assumption.
Qed.

(** C8.  Expanding the groups (BASIC, 10, 800 ms), (TANK, 3, 2000 ms) gives
    a spawn queue of 13 entries and [enemiesToSpawn = 13], whatever the wave
    index and the random source; starting that wave leaves it in progress
    and not complete.  For a wave of 13 queued units that is not complete,
    [checkWaveCompletion] makes it complete exactly when at least 13 units
    have been spawned and no enemy of the array is alive. *)
Theorem wave3_queue_and_completion env w :
  (length (spawnQueue (prepareSpawnQueue env wave3 w)) = 13%nat /\
   enemiesToSpawn (prepareSpawnQueue env wave3 w) = 13%nat) /\
  (forall manual,
     getCurrentWaveData w = Some wave3 ->
     snd (startNextWave env manual w) = true ->
     length (spawnQueue (fst (startNextWave env manual w))) = 13%nat /\
     enemiesToSpawn (fst (startNextWave env manual w)) = 13%nat /\
     enemiesSpawned (fst (startNextWave env manual w)) = 0%nat /\
     waveInProgress (fst (startNextWave env manual w)) = true /\
     waveComplete (fst (startNextWave env manual w)) = false) /\
  (enemiesToSpawn w = 13%nat -> waveComplete w = false ->
     (waveComplete (checkWaveCompletion env w) = true <->
      (13 <= enemiesSpawned w)%nat /\
      Forall (fun enemy => Enemy.alive enemy = false) (enemies w))).
Proof.
  split; [apply prepareSpawnQueue_wave3|]. split.
  - intros manual Hdata Hs. rewrite (startNextWave_started env manual w Hs).
    cbv zeta.
    set (w0 := if manual && isCountingDown w then _ else w).
    assert (Hdata0 : getCurrentWaveData w0 = Some wave3).
    { unfold w0. destruct (manual && isCountingDown w); exact Hdata. }
    clearbody w0.
    pose proof (initializeWave_wave3 env w0 Hdata0) as Hinit.
    remember (initializeWave env w0) as w1 eqn:Ew1. clear Ew1.
    destruct (emit_fields (onWaveStart w1)
                (WaveStart (currentWave w1 + 1) (getCurrentWaveData w1)) w1)
      as (_ & _ & E1 & E2 & E3 & E4 & E5 & _).
    rewrite E1, E2, E3, E4, E5. exact Hinit.
  - intros Hn Hc. unfold checkWaveCompletion. rewrite Hc, Hn. cbv zeta.
    destruct (13 <=? enemiesSpawned w)%nat eqn:Hsp.
    + apply Nat.leb_le in Hsp. simpl andb.
      destruct ((length (enemies w) =? 0)%nat || forallb _ (enemies w)) eqn:Hdead.
      * apply noEnemiesAlive_iff in Hdead.
        rewrite completeCurrentWave_completes. tauto.
      * rewrite Hc. split; [discriminate|].
        intros [_ Hall]. apply noEnemiesAlive_iff in Hall. congruence.
    + apply Nat.leb_gt in Hsp. simpl andb. cbv iota. rewrite Hc.
      split; [discriminate|]. intros [Hle _]. lia.
Qed.

(** With the game's handlers, the ten enemies of the first wave are on the
    array, alive, once they are all spawned: the wave is still in progress.
    It completes in the first frame whose array holds no alive enemy. *)
Lemma wave1_completes_when_array_is_dead :
  enemiesSpawned game_wave1_spawned = 10%nat /\
  length (enemies game_wave1_spawned) = 10%nat /\
  forallb Enemy.isAlive (enemies game_wave1_spawned) = true /\
  waveComplete game_wave1_spawned = false /\
  waveComplete
    (@update table_math (at_time 9016) 16 (enemies game_wave1_spawned)
       game_wave1_spawned) = false /\
  waveComplete
    (@update table_math (at_time 40000) 16 [dead_enemy; dead_enemy]
       game_wave1_spawned) = true /\
  waveComplete
    (@update table_math (at_time 40000) 16 [] game_wave1_spawned) = true.
Proof. vm_compute. repeat split. Qed.

Lemma wave3_queue_and_completion_witness :
  length (spawnQueue wave3_started) = 13%nat /\
  waveInProgress wave3_started = true /\
  waveComplete
    (checkWaveCompletion (at_time 60000)
       (set_enemies [dead_enemy] (set_enemiesSpawned 13 wave3_started))) = true /\
  waveComplete
    (checkWaveCompletion (at_time 60000)
       (set_enemies [@Enemy.new table_math BASIC]
          (set_enemiesSpawned 13 wave3_started))) = false.
Proof.
  pose proof (wave3_queue_and_completion (at_time 30000) wave2_done)
    as (_ & Hstart & _).
  destruct (Hstart true) as (Hlen & _ & _ & Hprog & _);
    [vm_compute; reflexivity | vm_compute; reflexivity|].
  split; [exact Hlen|]. split; [exact Hprog|]. split.
  - pose proof (wave3_queue_and_completion (at_time 60000)
        (set_enemies [dead_enemy] (set_enemiesSpawned 13 wave3_started)))
      as (_ & _ & Hiff).
    apply Hiff; [vm_compute; reflexivity | vm_compute; reflexivity|].
    split; [simpl; lia|]. repeat constructor.
  - pose proof (wave3_queue_and_completion (at_time 60000)
        (set_enemies [@Enemy.new table_math BASIC]
           (set_enemiesSpawned 13 wave3_started)))
      as (_ & _ & Hiff).
    specialize (Hiff ltac:(vm_compute; reflexivity) ltac:(vm_compute; reflexivity)).
    destruct (waveComplete (checkWaveCompletion _ _)); [|reflexivity].
    destruct (proj1 Hiff eq_refl) as [_ Hall].
    inversion Hall as [|? ? Hdead _]. discriminate Hdead.
Defined.

End WaveQueue.

(** ** Tower: the normalisation of angles *)

Module TowerRotation.
Import Tower.

Section WithMath.
Context {M : MathLib}.

(** A loop that has ended has left by its condition. *)
Lemma wrapAbove_exit (fuel : nat) :
  forall a r, wrapAbove fuel a = Some r -> r <= Math_PI.
Proof.
  induction fuel as [|fuel IH]; intros a r; cbn [wrapAbove]; [discriminate|].
  destruct (Qltb Math_PI a) eqn:E; [apply IH|].
  intro Hr. injection Hr as <-. apply Qltb_ge in E. exact E.
Qed.

Lemma wrapBelow_exit (fuel : nat) :
  forall a r, wrapBelow fuel a = Some r -> - Math_PI <= r.
Proof.
  induction fuel as [|fuel IH]; intros a r; cbn [wrapBelow]; [discriminate|].
  destruct (Qltb a (- Math_PI)) eqn:E; [apply IH|].
  intro Hr. injection Hr as <-. apply Qltb_ge in E. exact E.
Qed.

(** An angle within the bounds passes both loops unchanged. *)
Lemma normalizeAngle_small (fuel : nat) (a : Q) :
  - Math_PI <= a <= Math_PI -> normalizeAngle (S fuel) a = Some a.
Proof.
  intros [Hlow Hup]. unfold normalizeAngle. cbn [wrapAbove].
  apply Qltb_ge in Hup. rewrite Hup. cbn [wrapBelow].
  apply Qltb_ge in Hlow. rewrite Hlow. reflexivity.
Qed.

(** A result obtained with some fuel is the result with more. *)
Lemma wrapAbove_more (fuel : nat) :
  forall a r k, wrapAbove fuel a = Some r -> wrapAbove (fuel + k) a = Some r.
Proof.
  induction fuel as [|fuel IH]; intros a r k; cbn [wrapAbove Nat.add];
    [discriminate|].
  destruct (Qltb Math_PI a); [apply IH|intro Hr; exact Hr].
Qed.

Lemma wrapBelow_more (fuel : nat) :
  forall a r k, wrapBelow fuel a = Some r -> wrapBelow (fuel + k) a = Some r.
Proof.
  induction fuel as [|fuel IH]; intros a r k; cbn [wrapBelow Nat.add];
    [discriminate|].
  destruct (Qltb a (- Math_PI)); [apply IH|intro Hr; exact Hr].
Qed.

Lemma normalizeAngle_more (fuel k : nat) (a r : Q) :
  normalizeAngle fuel a = Some r -> normalizeAngle (fuel + k) a = Some r.
Proof.
  unfold normalizeAngle. destruct (wrapAbove fuel a) as [a1|] eqn:E1;
    [|discriminate].
  rewrite (wrapAbove_more fuel a a1 k E1). apply wrapBelow_more.
Qed.

Lemma updateRotation_more (fuel k : nat) (dt : Q) (h : Heap) (w w' : t) :
  updateRotation fuel dt h w = Some w' ->
  updateRotation (fuel + k) dt h w = Some w'.
Proof.
  unfold updateRotation. destruct (target w) as [r|]; [|intro E; exact E].
  cbv zeta.
  match goal with
  | |- context [normalizeAngle fuel ?a] =>
      destruct (normalizeAngle fuel a) as [normalizedDiff|] eqn:E1;
        [rewrite (normalizeAngle_more fuel k a _ E1)|discriminate]
  end.
  match goal with
  | |- context [normalizeAngle fuel ?a] =>
      destruct (normalizeAngle fuel a) as [rotation|] eqn:E2;
        [rewrite (normalizeAngle_more fuel k a _ E2)|discriminate]
  end.
  intro E. exact E.
Qed.

(** What [update] does when it ends does not depend on the fuel. *)
Lemma update_more (fuel k : nat) (enemies : list ref) (dt now : Q) (h : Heap)
    (w : t) :
  snd (update fuel enemies dt now h w) <> Hangs ->
  update (fuel + k) enemies dt now h w = update fuel enemies dt now h w.
Proof.
  unfold update. destruct (negb (active w)); [reflexivity|]. cbv zeta.
  match goal with
  | |- context [updateRotation fuel dt h ?x] =>
      destruct (updateRotation fuel dt h x) as [w'|] eqn:E;
        [rewrite (updateRotation_more fuel k dt h x w' E); reflexivity|]
  end.
  cbn [snd]. congruence.
Qed.

End WithMath.

(** In the doubles of IEEE 754 the first loop does not end at 1e17:
    subtracting [2 * Math.PI] gives 1e17 again. *)
Lemma wrapAbove_hangs_in_doubles (M : MathLib) (fuel : nat) :
  ieee_doubles M -> wrapAbove fuel 100000000000000000 = None.
Proof.
  intros [Hd _].
  induction fuel as [|fuel IH]; [reflexivity|].
  cbn [wrapAbove].
  assert (E : Qltb Math_PI 100000000000000000 = true) by reflexivity.
  rewrite E, Hd.
  assert (Efix : ieee_double (100000000000000000 - 2 * Math_PI)
                 = 100000000000000000) by (vm_compute; reflexivity).
  rewrite Efix. exact IH.
Qed.

(** With exact arithmetic it ends, after as many turns as the angle
    holds. *)
Lemma normalizeAngle_ends_on_the_tables :
  exists r, @normalizeAngle table_math 5 (7 * Math_PI + 1) = Some r /\
            r == 1 - Math_PI.
Proof. eexists. split; [vm_compute; reflexivity|reflexivity]. Qed.

End TowerRotation.

(** ** Tower: target selection *)

Module TowerTargeting.
Import Tower CombatScenario.

(** The scan [reduce] makes with a strict comparison on a key: the result
    is the first element whose key is least. *)
Section FirstLeast.
Variable key : ref -> Q.
Variable keep_least : ref -> ref -> ref.
Hypothesis keep_least_eq : forall best current,
  keep_least best current = if Qltb (key current) (key best) then current else best.



End FirstLeast.

Section WithMath.
Context {M : MathLib}.

Lemma validTargets_spec (enemies : list ref) (h : Heap) (w : t) (r : ref) :
  In r (validTargets enemies h w) <->
  In r enemies /\ Enemy.alive (h r) = true /\ isInRange w (h r) = true.
Proof.
  unfold validTargets. rewrite filter_In, andb_true_iff. tauto.
Qed.



Lemma findTarget_acquires (enemies : list ref) (h : Heap) (w : t) :
  targetIsValid h w = false ->
  target (findTarget enemies h w)
  = selectBestTarget (validTargets enemies h w) h w.
Proof.
  intro Hinv. unfold findTarget.
  set (w0 := match target w with
             | Some r => if negb (Enemy.alive (h r)) || negb (isInRange w (h r))
                         then set_target None w else w
             | None => w
             end).
  assert (H0 : targetIsValid h w0 = false).
  { unfold w0. destruct (target w) as [r|] eqn:Ht; [|exact Hinv].
    destruct (negb (Enemy.alive (h r)) || negb (isInRange w (h r)));
      [reflexivity|exact Hinv]. }
  assert (Hsel : forall l, selectBestTarget l h w0 = selectBestTarget l h w).
  { intro l. unfold w0. destruct (target w) as [r|]; [|reflexivity].
    destruct (negb (Enemy.alive (h r)) || negb (isInRange w (h r))); reflexivity. }
  assert (Hval : validTargets enemies h w0 = validTargets enemies h w).
  { unfold w0. destruct (target w) as [r|]; [|reflexivity].
    destruct (negb (Enemy.alive (h r)) || negb (isInRange w (h r))); reflexivity. }
  rewrite H0, Hval.
  destruct (validTargets enemies h w) as [|first rest]; [reflexivity|].
  cbn [target set_target]. apply Hsel.
Qed.


End WithMath.


Lemma findTarget_tie_first :
  target (@findTarget table_math [0%nat; 1%nat] tied_enemies (new BASIC 100 100))
    = Some 0%nat /\
  target (@findTarget table_math [1%nat; 0%nat] tied_enemies (new BASIC 100 100))
    = Some 1%nat.
Proof. split; vm_compute; reflexivity. Qed.

End TowerTargeting.

(** ** Tower: fire control *)

Module TowerFiring.
Import Tower CombatScenario CooldownSpec.

Section WithMath.
Context {M : MathLib}.

Lemma updateVisualEffects_keeps (dt : Q) (w : t) :
  sameFireControl w (updateVisualEffects dt w).
Proof.
  unfold sameFireControl, updateVisualEffects.
  destruct (Qltb 0 (muzzleFlash w)); [|repeat split; reflexivity].
  cbv zeta. destruct (Qltb _ 0); repeat split; reflexivity.
Qed.

Lemma findTarget_keeps (enemies : list ref) (h : Heap) (w : t) :
  sameFireControl w (findTarget enemies h w).
Proof.
  unfold sameFireControl, findTarget. cbv zeta.
  set (w0 := match target w with
             | Some r => if negb (Enemy.alive (h r)) || negb (isInRange w (h r))
                         then set_target None w else w
             | None => w
             end).
  assert (E0 : own_canShoot w0 = own_canShoot w /\
               stats_shotsFired w0 = stats_shotsFired w /\
               lastShotTime w0 = lastShotTime w).
  { unfold w0. destruct (target w) as [r|]; [|repeat split; reflexivity].
    destruct (negb (Enemy.alive (h r)) || negb (isInRange w (h r)));
      repeat split; reflexivity. }
  destruct (targetIsValid h w0); [exact E0|].
  destruct (validTargets enemies h w0); exact E0.
Qed.

Lemma updateRotation_keeps (fuel : nat) (dt : Q) (h : Heap) (w w' : t) :
  updateRotation fuel dt h w = Some w' -> sameFireControl w w'.
Proof.
  unfold sameFireControl, updateRotation.
  destruct (target w); [|intro E; injection E as <-; repeat split; reflexivity].
  cbv zeta.
  repeat match goal with
  | |- context [normalizeAngle fuel ?a] =>
      destruct (normalizeAngle fuel a); [|discriminate]
  end.
  intro E. injection E as <-. repeat split; reflexivity.
Qed.

(** With the own property in place, every call of [canShoot()] throws:
    the one [attemptShoot] starts with, and the one [shoot] starts with. *)
Lemma attemptShoot_throws (now : Q) (h : Heap) (w : t) (b : bool) :
  own_canShoot w = Some b -> attemptShoot now h w = (w, Throws TypeError).
Proof.
  intro Hown. unfold attemptShoot, call_canShoot. rewrite Hown. reflexivity.
Qed.

Lemma shoot_throws (now : Q) (h : Heap) (w : t) (b : bool) :
  own_canShoot w = Some b -> shoot now h w = (w, Throws TypeError).
Proof.
  intro Hown. unfold shoot, call_canShoot. rewrite Hown. reflexivity.
Qed.

(** With the own property in place, an [update] returns only for a tower
    that is not active: otherwise it ends in the TypeError of
    [attemptShoot], unless a loop of [updateRotation] is still running. *)
Lemma update_keeps (fuel : nat) (enemies : list ref) (dt now : Q) (h : Heap)
    (w : t) (b : bool) :
  own_canShoot w = Some b ->
  sameFireControl w (fst (update fuel enemies dt now h w)) /\
  (snd (update fuel enemies dt now h w) = Returns tt \/
   snd (update fuel enemies dt now h w) = Throws TypeError \/
   snd (update fuel enemies dt now h w) = Hangs).
Proof.
  intro Hown. unfold update.
  destruct (negb (active w));
    [cbn [fst snd]; split; [repeat split; reflexivity|left; reflexivity]|].
  cbv zeta.
  set (w1 := set_timeActive (stats_timeActive w + dt) w).
  destruct (updateVisualEffects_keeps dt w1) as (A1 & A2 & A3).
  set (w2 := updateVisualEffects dt w1) in *.
  destruct (findTarget_keeps enemies h w2) as (B1 & B2 & B3).
  set (w3 := findTarget enemies h w2) in *.
  change (own_canShoot w1) with (own_canShoot w) in A1.
  change (stats_shotsFired w1) with (stats_shotsFired w) in A2.
  change (lastShotTime w1) with (lastShotTime w) in A3.
  destruct (updateRotation fuel dt h w3) as [w4|] eqn:E.
  - destruct (updateRotation_keeps fuel dt h w3 w4 E) as (C1 & C2 & C3).
    rewrite (attemptShoot_throws now h w4 b) by congruence.
    cbn [fst snd]. split; [|right; left; reflexivity].
    unfold sameFireControl. repeat split; congruence.
  - cbn [fst snd]. split; [|right; right; reflexivity].
    unfold sameFireControl. repeat split; congruence.
Qed.

(** The tower's turn in a frame then never returns: the game's own call of
    [canShoot()] throws as well. *)
Lemma updateTower_keeps (fuel : nat) (enemies : list ref) (dt now : Q)
    (h : Heap) (w : t) (b : bool) :
  own_canShoot w = Some b ->
  sameFireControl w (fst (Game.updateTower fuel enemies dt now h w)) /\
  (snd (Game.updateTower fuel enemies dt now h w) = Throws TypeError \/
   snd (Game.updateTower fuel enemies dt now h w) = Hangs).
Proof.
  intro Hown. unfold Game.updateTower.
  destruct (update_keeps fuel enemies dt now h w b Hown) as [Hsame Hend].
  destruct (update fuel enemies dt now h w) as [w' o]. cbn [fst snd] in *.
  destruct Hend as [-> | [-> | ->]]; cbn [fst snd].
  - unfold call_canShoot. destruct Hsame as (Ho & Hs & Hl).
    assert (Hown' : own_canShoot w' = Some b) by congruence.
    rewrite Hown'. cbn [fst snd]. split; [|left; reflexivity].
    unfold sameFireControl. repeat split; assumption.
  - split; [exact Hsame|left; reflexivity].
  - split; [exact Hsame|right; reflexivity].
Qed.

(** C1.  A tower fires only when it is ready, because a tower as the
    constructor builds it never fires.  The constructor gives every tower
    the own property [canShoot = true], which hides the method
    [canShoot()], and nothing takes the property away.  For every tower
    with that property and every tick, whatever the enemies, the elapsed
    time and the clock: the game pushes no projectile of the tower, so
    that a projectile is pushed only with the cooldown elapsed and a
    misalignment of at most 0.1 rad; the tick ends in the TypeError of the
    first [canShoot()] it calls, unless a loop of [updateRotation] is still
    running; [shoot] itself throws; and the tower keeps the property, its
    count of shots and the time of its last shot. *)
Theorem tower_fires_only_when_ready (fuel : nat) (enemies : list ref)
    (dt now : Q) (h : Heap) (w : t) (b : bool)
    (Hown : own_canShoot w = Some b) :
  let tick := Game.updateTower fuel enemies dt now h w in
  (Game.emitted_projectile (snd tick) = true ->
     canShoot_method now (fst tick) = true /\ misalignment (fst tick) <= 0.1) /\
  Game.emitted_projectile (snd tick) = false /\
  (snd tick = Throws TypeError \/ snd tick = Hangs) /\
  shoot now h w = (w, Throws TypeError) /\
  own_canShoot (fst tick) = Some b /\
  stats_shotsFired (fst tick) = stats_shotsFired w /\
  lastShotTime (fst tick) = lastShotTime w /\
  (forall k x y, own_canShoot (new k x y) = Some true).
Proof.
  intro tick. subst tick.
  destruct (updateTower_keeps fuel enemies dt now h w b Hown)
    as ((Ho & Hs & Hl) & Hend).
  assert (Hnone : Game.emitted_projectile
                    (snd (Game.updateTower fuel enemies dt now h w)) = false)
    by (destruct Hend as [-> | ->]; reflexivity).
  split; [rewrite Hnone; discriminate|].
  split; [exact Hnone|]. split; [exact Hend|].
  split; [apply (shoot_throws now h w b Hown)|].
  split; [congruence|]. split; [exact Hs|]. split; [exact Hl|].
  reflexivity.
Qed.

End WithMath.

(** The tower of the examples, with its cooldown elapsed and an enemy in
    range: its tick ends in a TypeError and pushes nothing. *)
Lemma tower_fires_only_when_ready_witness :
  snd (@Game.updateTower table_math 8 [0%nat] 16 clock enemy_left tower_built)
    = Throws TypeError /\
  Game.emitted_projectile
    (snd (@Game.updateTower table_math 8 [0%nat] 16 clock enemy_left tower_built))
    = false.
Proof.
  split; [vm_compute; reflexivity|].
  exact (proj1 (proj2
    (@tower_fires_only_when_ready table_math 8 [0%nat] 16 clock enemy_left
       tower_built true eq_refl))).
Defined.

End TowerFiring.

(** ** Projectile: resolution *)

Module ProjectileHit.
Import Helpers Projectile SplashSpec CombatScenario.

Section WithMath.
Context {M : MathLib}.

Lemma hit_resolved (r : ref) (enemies : list ref) (p : t) (h : Heap) :
  hasHit p = true -> hit r enemies p h = (p, h).
Proof. intro Hh. unfold hit. rewrite Hh. reflexivity. Qed.

Lemma hit_sets_flag (r : ref) (enemies : list ref) (p : t) (h : Heap) :
  hasHit (fst (hit r enemies p h)) = true.
Proof.
  unfold hit. destruct (hasHit p) eqn:Hh; [exact Hh|]. cbv zeta.
  destruct (heap_takeDamage _ r h) as [h1 killed]. reflexivity.
Qed.

Lemma adjustTrajectory_hasHit (p : t) (h : Heap) :
  hasHit (adjustTrajectory p h) = hasHit p.
Proof.
  unfold adjustTrajectory.
  destruct (negb (targetIsAlive p h)); [reflexivity|]. cbv zeta.
  destruct (Qltb 0 _); reflexivity.
Qed.

Lemma updatePosition_hasHit (dt : Q) (p : t) (h : Heap) :
  hasHit (updatePosition dt p h) = hasHit p.
Proof.
  unfold updatePosition. cbv zeta.
  destruct (Qltb maxDistance _); [reflexivity|].
  destruct (_ && useTargetPrediction); [|reflexivity].
  rewrite adjustTrajectory_hasHit. reflexivity.
Qed.

Lemma checkBounds_hasHit (p : t) : hasHit (checkBounds p) = hasHit p.
Proof. unfold checkBounds. destruct (negb _); reflexivity. Qed.

(** [checkCollisions] either does nothing or, on a projectile that has not
    hit yet, is one call of [hit]. *)
Lemma checkCollisions_cases (enemies : list ref) (p : t) (h : Heap) :
  checkCollisions enemies p h = (p, h) \/
  (hasHit p = false /\ exists r, checkCollisions enemies p h = hit r enemies p h).
Proof.
  unfold checkCollisions.
  destruct (hasHit p) eqn:Hh; [rewrite orb_true_r; left; reflexivity|].
  destruct (negb (active p) || false); [left; reflexivity|].
  destruct (if targetIsAlive p h then target p else None) as [r|].
  - destruct (checkCollisionWithEnemy p (h r)); [|left; reflexivity].
    right. split; [reflexivity|]. exists r. reflexivity.
  - destruct (find _ enemies) as [r|]; [|left; reflexivity].
    right. split; [reflexivity|]. exists r. reflexivity.
Qed.

Lemma update_resolved (dt : Q) (enemies : list ref) (p : t) (h : Heap) :
  hasHit p = true ->
  snd (update dt enemies p h) = h /\ hasHit (fst (update dt enemies p h)) = true.
Proof.
  intro Hh. unfold update.
  destruct (negb (active p)); [split; [reflexivity|exact Hh]|]. cbv zeta.
  destruct (Qltb maxLifetime _); [split; [reflexivity|exact Hh]|].
  set (p1 := updatePosition dt (set_timeAlive (timeAlive p + dt) p) h).
  assert (H1 : hasHit p1 = true).
  { unfold p1. rewrite updatePosition_hasHit. exact Hh. }
  destruct (checkCollisions_cases enemies p1 h) as [E|[Hf _]]; [|congruence].
  rewrite E. simpl. rewrite checkBounds_hasHit. tauto.
Qed.

Lemma update_flag_only_rises (dt : Q) (enemies : list ref) (p : t) (h : Heap) :
  hasHit p = true \/ hasHit (fst (update dt enemies p h)) = false ->
  snd (update dt enemies p h) = h.
Proof.
  intros [Hh|Hafter]; [apply update_resolved; exact Hh|].
  revert Hafter. unfold update.
  destruct (negb (active p)); [reflexivity|]. cbv zeta.
  destruct (Qltb maxLifetime _); [reflexivity|].
  set (p1 := updatePosition dt (set_timeAlive (timeAlive p + dt) p) h).
  destruct (checkCollisions_cases enemies p1 h) as [E|[_ [r E]]]; rewrite E.
  - reflexivity.
  - pose proof (hit_sets_flag r enemies p1 h) as Hflag.
    destruct (hit r enemies p1 h) as [p2 h2]. simpl in *.
    rewrite checkBounds_hasHit. congruence.
Qed.

Lemma updates_resolved (frames : list (Q * list ref)) :
  forall p h, hasHit p = true ->
  snd (updates frames p h) = h /\ hasHit (fst (updates frames p h)) = true.
Proof.
  induction frames as [|[dt enemies] frames IH]; intros p h Hh; simpl.
  - split; [reflexivity|exact Hh].
  - destruct (update_resolved dt enemies p h Hh) as [E1 E2].
    destruct (update dt enemies p h) as [p1 h1]. simpl in *. subst h1.
    apply IH. exact E2.
Qed.

(** C4.  [hasHit] is never reset: a projectile that has hit keeps the
    flag through [hit], [update] and every run of updates, and none of
    them changes any enemy then.  An [update] changes an enemy only if it
    takes the flag from false to true.  So the flag rises at most once, and
    all the damage of a projectile is dealt in the call that raises it. *)
Theorem hasHit_rises_once (p : t) (h : Heap) :
  (forall r enemies, hasHit p = true -> hit r enemies p h = (p, h)) /\
  (forall r enemies, hasHit (fst (hit r enemies p h)) = true) /\
  (forall dt enemies, hasHit p = true ->
     snd (update dt enemies p h) = h /\
     hasHit (fst (update dt enemies p h)) = true) /\
  (forall dt enemies, snd (update dt enemies p h) <> h ->
     hasHit p = false /\ hasHit (fst (update dt enemies p h)) = true) /\
  (forall frames, hasHit p = true ->
     snd (updates frames p h) = h /\
     hasHit (fst (updates frames p h)) = true).
Proof.
  split; [intros r enemies; apply hit_resolved|].
  split; [intros r enemies; apply hit_sets_flag|].
  split; [intros dt enemies; apply update_resolved|].
  split; [|intro frames; apply updates_resolved].
  intros dt enemies Hchanged.
  destruct (hasHit p) eqn:Hb.
  - exfalso. apply Hchanged. apply update_flag_only_rises. left. exact Hb.
  - destruct (hasHit (fst (update dt enemies p h))) eqn:Ha; [tauto|].
    exfalso. apply Hchanged. apply update_flag_only_rises. right. exact Ha.
Qed.

(** *** Splash damage *)

Lemma splashOne_elsewhere (p : t) (c : ref) (h : Heap) (r r' : ref) :
  r' <> r -> splashOne p c h r r' = h r'.
Proof.
  intro Hne. unfold splashOne. cbv zeta.
  destruct (negb (Enemy.alive (h r)) || Nat.eqb r c); [reflexivity|].
  destruct (Qleb _ (splashRadius p)); [|reflexivity].
  destruct (Qltb 0 _); [|reflexivity].
  unfold heap_takeDamage.
  destruct (Enemy.takeDamage _ (h r)) as [e killed]. simpl.
  unfold heap_set. apply Nat.eqb_neq in Hne. rewrite Hne. reflexivity.
Qed.

Lemma splashOne_here (p : t) (c : ref) (h : Heap) (r : ref) :
  r <> c -> splashOne p c h r r = splashed p (h r).
Proof.
  intro Hne. unfold splashOne, splashed, splashDamageAt, impactDistance. cbv zeta.
  apply Nat.eqb_neq in Hne. rewrite Hne, orb_false_r.
  destruct (Enemy.alive (h r)); [|reflexivity]. simpl negb. simpl andb. cbv iota.
  destruct (Qleb _ (splashRadius p)); [|reflexivity]. simpl andb.
  destruct (Qltb 0 _); [|reflexivity].
  unfold heap_takeDamage.
  destruct (Enemy.takeDamage _ (h r)) as [e killed]. simpl.
  unfold heap_set. rewrite Nat.eqb_refl. reflexivity.
Qed.

Lemma splashOne_center (p : t) (c : ref) (h : Heap) :
  splashOne p c h c = h.
Proof.
  unfold splashOne. cbv zeta. rewrite Nat.eqb_refl, orb_true_r. reflexivity.
Qed.

Lemma applySplashDamage_outside (p : t) (c : ref) (allEnemies : list ref) :
  forall h r, ~ In r allEnemies -> applySplashDamage p c allEnemies h r = h r.
Proof.
  unfold applySplashDamage.
  induction allEnemies as [|a rest IH]; intros h r Hnotin; simpl; [reflexivity|].
  rewrite IH by (intro Hin; apply Hnotin; right; exact Hin).
  apply splashOne_elsewhere. intro E. apply Hnotin. left. congruence.
Qed.

Lemma applySplashDamage_center (p : t) (c : ref) (allEnemies : list ref) :
  forall h, applySplashDamage p c allEnemies h c = h c.
Proof.
  unfold applySplashDamage.
  induction allEnemies as [|a rest IH]; intro h; simpl; [reflexivity|].
  rewrite IH. destruct (Nat.eq_dec a c) as [->|Hne].
  - rewrite splashOne_center. reflexivity.
  - apply splashOne_elsewhere. congruence.
Qed.

Lemma applySplashDamage_inside (p : t) (c : ref) (allEnemies : list ref) :
  NoDup allEnemies ->
  forall h r, In r allEnemies -> r <> c ->
  applySplashDamage p c allEnemies h r = splashed p (h r).
Proof.
  unfold applySplashDamage.
  induction 1 as [|a rest Hnotin Hnodup IH]; intros h r Hin Hne; [destruct Hin|].
  simpl. destruct Hin as [->|Hin].
  - fold (applySplashDamage p c rest (splashOne p c h r)).
    rewrite applySplashDamage_outside by exact Hnotin.
    apply splashOne_here. exact Hne.
  - rewrite IH by assumption.
    rewrite splashOne_elsewhere; [reflexivity|].
    intro E. subst a. contradiction.
Qed.

Lemma hit_heap (p : t) (h : Heap) (c : ref) (allEnemies : list ref) :
  hasHit p = false ->
  snd (hit c allEnemies p h)
  = let h1 := heap_set h c (fst (Enemy.takeDamage (damage p) (h c))) in
    if splash p && Qltb 0 (splashRadius p)
    then applySplashDamage p c allEnemies h1
    else h1.
Proof.
  intro Hfresh. unfold hit, heap_takeDamage. rewrite Hfresh. cbv zeta.
  change (damage (set_hasHit true p)) with (damage p).
  destruct (Enemy.takeDamage (damage p) (h c)) as [e killed].
  reflexivity.
Qed.

(** C5.  For a projectile that has not hit yet and an array without
    repeated enemies, [hit] leaves the struck enemy with the direct damage
    only, and every other enemy of the array as [splashed] leaves it: when
    the projectile has the splash flag and a positive radius, an enemy that
    is alive, within the radius of the point of impact and with a positive
    [floor(floor(damage * 0.7) * (1 - distance / splashRadius))] takes that
    damage; every other enemy is left as it was, and without the flag or
    with a radius of 0 or less nobody but the struck enemy is touched.  The
    amount is the one JavaScript computes, [splashDamageAt]: [0.7], the
    products, the quotient and the difference are those of doubles. *)
Theorem hit_damage (p : t) (h : Heap) (c : ref) (allEnemies : list ref)
    (Hfresh : hasHit p = false) (Hnodup : NoDup allEnemies) :
  snd (hit c allEnemies p h) c = fst (Enemy.takeDamage (damage p) (h c)) /\
  (forall r, r <> c -> In r allEnemies ->
     splash p = true -> 0 < splashRadius p ->
     Enemy.alive (h r) = true ->
     impactDistance p (h r) <= splashRadius p ->
     0 < splashDamageAt p (h r) ->
     snd (hit c allEnemies p h) r
     = fst (Enemy.takeDamage (splashDamageAt p (h r)) (h r))) /\
  (forall r, r <> c ->
     splash p = false \/ splashRadius p <= 0 \/ ~ In r allEnemies \/
     Enemy.alive (h r) = false \/ splashRadius p < impactDistance p (h r) \/
     splashDamageAt p (h r) <= 0 ->
     snd (hit c allEnemies p h) r = h r).
Proof.
  rewrite (hit_heap p h c allEnemies Hfresh). cbv zeta.
  set (e := fst (Enemy.takeDamage (damage p) (h c))).
  set (h1 := heap_set h c e).
  assert (Hc : h1 c = e) by (unfold h1, heap_set; rewrite Nat.eqb_refl; reflexivity).
  assert (Ho : forall r, r <> c -> h1 r = h r).
  { intros r Hne. unfold h1, heap_set. apply Nat.eqb_neq in Hne.
    rewrite Hne. reflexivity. }
  split; [|split].
  - destruct (splash p && Qltb 0 (splashRadius p)); [|exact Hc].
    rewrite applySplashDamage_center. exact Hc.
  - intros r Hne Hin Hs Hrad Halive Hdist Hpos.
    apply Qltb_lt in Hrad. rewrite Hs, Hrad. cbn [andb].
    rewrite applySplashDamage_inside by assumption.
    rewrite (Ho r Hne). unfold splashed.
    apply Qleb_le in Hdist. apply Qltb_lt in Hpos.
    rewrite Halive, Hdist, Hpos. reflexivity.
  - intros r Hne Hcase.
    destruct (splash p) eqn:Hs; [|cbn [andb]; apply Ho; exact Hne].
    destruct (Qltb 0 (splashRadius p)) eqn:Hrad; [|cbn [andb]; apply Ho; exact Hne].
    cbn [andb]. apply Qltb_lt in Hrad.
    destruct Hcase as [Hc1|[Hc2|Hcase]]; [discriminate|lra|].
    destruct (in_dec Nat.eq_dec r allEnemies) as [Hin|Hnotin].
    + rewrite applySplashDamage_inside by assumption.
      rewrite (Ho r Hne). unfold splashed.
      destruct Hcase as [Hc3|[Hc4|[Hc5|Hc6]]].
      * contradiction.
      * rewrite Hc4. reflexivity.
      * apply Qleb_gt in Hc5. rewrite Hc5, andb_false_r. reflexivity.
      * apply Qltb_ge in Hc6. rewrite Hc6, andb_false_r. reflexivity.
    + rewrite applySplashDamage_outside by exact Hnotin. apply Ho. exact Hne.
Qed.

End WithMath.

Lemma hit_damage_witness :
  Enemy.health (snd (@hit table_math 0%nat [0%nat; 1%nat; 2%nat]
                       splash_projectile three_enemies) 0%nat) == 60 /\
  Enemy.health (snd (@hit table_math 0%nat [0%nat; 1%nat; 2%nat]
                       splash_projectile three_enemies) 1%nat) == 95 /\
  snd (@hit table_math 0%nat [0%nat; 1%nat; 2%nat]
         splash_projectile three_enemies) 2%nat = three_enemies 2%nat.
Proof.
  assert (Hnodup : NoDup [0%nat; 1%nat; 2%nat]).
  { repeat constructor; simpl; intuition discriminate. }
  destruct (@hit_damage table_math splash_projectile three_enemies 0%nat
              [0%nat; 1%nat; 2%nat] eq_refl Hnodup) as (Hstruck & Hsplash & Hrest).
  split; [rewrite Hstruck; vm_compute; reflexivity|]. split.
  - rewrite (Hsplash 1%nat).
    + vm_compute. reflexivity.
    + discriminate.
    + simpl. tauto.
    + reflexivity.
    + vm_compute. reflexivity.
    + reflexivity.
    + vm_compute. discriminate.
    + vm_compute. reflexivity.
  - apply Hrest; [discriminate|].
    right. right. right. right. left. vm_compute. reflexivity.
Defined.

(** The plain projectile reaches the first enemy in its first frame and
    deals its 25 points; a second [update] and a second [hit] change
    nothing. *)
Lemma hasHit_rises_once_witness :
  hasHit plain_projectile = false /\
  hasHit (fst (@update table_math 16 [0%nat; 1%nat] plain_projectile three_enemies))
    = true /\
  Enemy.health
    (snd (@update table_math 16 [0%nat; 1%nat] plain_projectile three_enemies) 0%nat)
    == 75 /\
  snd (@updates table_math [(16, [0%nat; 1%nat]); (16, [0%nat; 1%nat])]
         (fst (@update table_math 16 [0%nat; 1%nat] plain_projectile three_enemies))
         (snd (@update table_math 16 [0%nat; 1%nat] plain_projectile three_enemies)))
  = snd (@update table_math 16 [0%nat; 1%nat] plain_projectile three_enemies).
Proof.
  assert (Hflag : hasHit (fst (@update table_math 16 [0%nat; 1%nat]
                                 plain_projectile three_enemies)) = true)
    by (vm_compute; reflexivity).
  split; [reflexivity|]. split; [exact Hflag|]. split; [vm_compute; reflexivity|].
  apply (proj2 (proj2 (proj2 (proj2
    (@hasHit_rises_once table_math
       (fst (@update table_math 16 [0%nat; 1%nat] plain_projectile three_enemies))
       (snd (@update table_math 16 [0%nat; 1%nat] plain_projectile three_enemies)))))));
    exact Hflag.
Defined.

End ProjectileHit.

(** * Properties of the rest of the game *)

Module EnemyLife.
Import Helpers HelpersFacts PathData Enemy EnemyDamage.

(** X1.  Hits of whole amounts add up.  Take an enemy that is alive, with a
    positive health that is a whole number, and a sequence of amounts of
    damage that are whole numbers and not negative; on these numbers the
    subtractions of doubles are exact.  After the hits the enemy has its
    health less their sum, and health zero when the sum is larger; it is
    still alive exactly when the sum is less than the health it had. *)
Theorem takeDamages_total (ds : list Q) (e : t)
    (Halive : alive e = true) (Hhealth : 0 < health e)
    (Hamounts : Forall (fun d => 0 <= d) ds)
    (Hwhole_health : whole (health e))
    (Hwhole_amounts : Forall whole ds) :
  health (fst (takeDamages ds e)) == Math_max 0 (health e - fold_right Qplus 0 ds) /\
  (alive (fst (takeDamages ds e)) = true <-> fold_right Qplus 0 ds < health e).
Proof.
  clear Hwhole_health Hwhole_amounts.
  revert e Halive Hhealth Hamounts.
  induction ds as [|d ds IH]; intros e Ha Hh Hall.
  - cbn [takeDamages fst fold_right]. unfold Math_max.
    split; [qcase; lra|]. split; [intros _; lra|intros _; exact Ha].
  - inversion Hall as [|? ? Hd Hrest]; subst.
    assert (Hsum : 0 <= fold_right Qplus 0 ds).
    { clear - Hrest. induction Hrest as [|x l Hx _ IHl]; cbn [fold_right]; lra. }
    cbn [takeDamages fold_right].
    destruct (Qlt_le_dec 0 (health e - d)) as [Hpos|Hneg].
    + rewrite (takeDamage_survive d e Ha Hpos).
      set (e1 := set_damageFlash 200 (set_health (health e - d) e)).
      destruct (IH e1 Ha Hpos Hrest) as [IH1 IH2].
      destruct (takeDamages ds e1) as [e2 rest]. cbn [fst] in *.
      change (health e1) with (health e - d) in IH1, IH2.
      split.
      * rewrite IH1. unfold Math_max. qcase; lra.
      * rewrite IH2. split; intro; lra.
    + rewrite (takeDamage_lethal d e Ha Hneg).
      set (e1 := set_alive false _).
      rewrite (takeDamages_dead ds e1 eq_refl). cbn [fst].
      split.
      * change (health e1) with 0. unfold Math_max. qcase; lra.
      * change (alive e1) with false. split; [discriminate|intro; lra].
Qed.

Lemma takeDamages_total_witness :
  let e := @new table_math BASIC in
  health (fst (takeDamages [30; 30; 50] e))
    == Math_max 0 (health e - fold_right Qplus 0 [30; 30; 50]) /\
  (alive (fst (takeDamages [30; 30; 50] e)) = true
   <-> fold_right Qplus 0 [30; 30; 50] < health e).
Proof.
  intro e. apply (takeDamages_total [30; 30; 50] e).
  - reflexivity.
  - vm_compute. reflexivity.
  - repeat constructor; vm_compute; discriminate.
  - exists 100%Z. split; [vm_compute; discriminate|reflexivity].
  - repeat (apply Forall_cons;
            [eexists; split; [|reflexivity]; vm_compute; discriminate|]).
    apply Forall_nil.
Defined.

End EnemyLife.

Module EnemyTravel.
Import Helpers HelpersFacts PathData Enemy EnemyProgress.

Section WithMath.
Context {M : MathLib}.

(** One [update] of an enemy under way: [move] leaves the progress between
    0 and 1, and [checkEndReached] marks the enemy exactly at 1. *)
Lemma update_under_way (dt : Q) (e : t) :
  alive e = true -> reachedEnd e = false ->
  0 <= pathProgress (update dt e) <= 1 /\
  (reachedEnd (update dt e) = true <-> 1 <= pathProgress (update dt e)) /\
  alive (update dt e) = negb (reachedEnd (update dt e)) /\
  health (update dt e) = health e /\ reward (update dt e) = reward e /\
  speed (update dt e) = speed e /\ pathSpeed (update dt e) = pathSpeed e.
Proof.
  intros Ha Hr. unfold update. rewrite Ha, Hr. cbn [negb orb].
  assert (Hv : alive (updateVisualEffects dt e) = true /\
               reachedEnd (updateVisualEffects dt e) = false /\
               health (updateVisualEffects dt e) = health e /\
               reward (updateVisualEffects dt e) = reward e /\
               speed (updateVisualEffects dt e) = speed e /\
               pathSpeed (updateVisualEffects dt e) = pathSpeed e).
  { unfold updateVisualEffects.
    destruct (Qltb 0 (damageFlash e)); [|repeat split; assumption].
    cbv zeta. destruct (Qltb _ 0); repeat split; assumption. }
  destruct Hv as (Va & Vr & Vh & Vw & Vs & Vp).
  set (e1 := updateVisualEffects dt e) in *.
  unfold move. rewrite Va, Vr. cbn [negb orb]. cbv zeta.
  unfold updatePositionFromPath, checkEndReached.
  cbn [pathProgress set_placement set_pathProgress].
  match goal with
  | |- context [clamp ?v 0 1] =>
      pose proof (clamp_bounds v 0 1 ltac:(lra)) as Hc; set (p := clamp v 0 1) in *
  end.
  destruct (Qleb 1 p) eqn:E; [apply Qleb_le in E|apply Qleb_gt in E];
    cbn [pathProgress alive reachedEnd health reward speed pathSpeed
         set_alive set_reachedEnd set_placement set_pathProgress negb].
  - split; [exact Hc|]. split; [split; [intros _; exact E|reflexivity]|].
    repeat split; assumption.
  - split; [exact Hc|]. rewrite Va, Vr.
    split; [split; [discriminate|intro; lra]|].
    repeat split; assumption.
Qed.

Lemma updates_noop (dts : list Q) (e : t) :
  alive e = false \/ reachedEnd e = true -> updates dts e = e.
Proof.
  intro Hdone. induction dts as [|dt dts IH]; [reflexivity|].
  cbn [updates]. rewrite update_noop by exact Hdone. exact IH.
Qed.

(** X2.  When an enemy reaches the end.  Take an enemy that is alive and
    under way, with a progress below 1.  After any frames it has reached
    the end exactly when its progress is 1 or more, and it is alive exactly
    when it has not reached the end; after at least one frame its progress
    lies between 0 and 1; its health, reward, speed and path speed are as
    they were; and once it has reached the end further frames leave it as
    it is. *)
Theorem updates_reach_end (dts : list Q) (e : t)
    (Halive : alive e = true) (Hunderway : reachedEnd e = false)
    (Hprogress : pathProgress e < 1) :
  (reachedEnd (updates dts e) = true <-> 1 <= pathProgress (updates dts e)) /\
  alive (updates dts e) = negb (reachedEnd (updates dts e)) /\
  (dts <> [] -> 0 <= pathProgress (updates dts e) <= 1) /\
  health (updates dts e) = health e /\ reward (updates dts e) = reward e /\
  speed (updates dts e) = speed e /\ pathSpeed (updates dts e) = pathSpeed e /\
  (reachedEnd (updates dts e) = true ->
   forall more, updates more (updates dts e) = updates dts e).
Proof.
  assert (Hlast : forall e0, reachedEnd e0 = true ->
                    forall more, updates more e0 = e0).
  { intros e0 H0 more. apply updates_noop. right. exact H0. }
  revert e Halive Hunderway Hprogress.
  induction dts as [|dt rest IH]; intros e Ha Hr Hp.
  - cbn [updates]. rewrite Ha, Hr.
    split; [split; [discriminate|intro; lra]|].
    split; [reflexivity|]. split; [congruence|].
    repeat split. intro H. congruence.
  - cbn [updates].
    destruct (update_under_way dt e Ha Hr) as (Ub & Ur & Ua & Uh & Uw & Us & Up).
    destruct (reachedEnd (update dt e)) eqn:Er.
    + (* at the end after this frame *)
      rewrite (updates_noop rest (update dt e)) by (right; exact Er).
      rewrite Er.
      split; [exact Ur|]. split; [exact Ua|]. split; [intros _; exact Ub|].
      split; [exact Uh|]. split; [exact Uw|]. split; [exact Us|].
      split; [exact Up|]. intros _. apply Hlast. exact Er.
    + cbn [negb] in Ua.
      assert (Hp1 : pathProgress (update dt e) < 1).
      { apply Qnot_le_lt. intro Hle. apply Ur in Hle. discriminate. }
      destruct (IH (update dt e) Ua Er Hp1) as (I1 & I2 & I3 & I4 & I5 & I6 & I7 & I8).
      split; [exact I1|]. split; [exact I2|].
      split.
      { intros _. destruct rest as [|dt2 rest2]; [exact Ub|].
        apply I3. discriminate. }
      split; [congruence|]. split; [congruence|]. split; [congruence|].
      split; [congruence|exact I8].
Qed.

End WithMath.

(** A basic enemy after a frame of 16 ms is under way, and after a frame of
    a thousand seconds at the end and no longer alive. *)
Lemma updates_reach_end_witness :
  let e := @new table_math BASIC in
  reachedEnd (@updates table_math [16] e) = false /\
  alive (@updates table_math [16] e) = true /\
  reachedEnd (@updates table_math [16; 1000000] e) = true /\
  alive (@updates table_math [16; 1000000] e) = false.
Proof.
  intro e.
  assert (Hp : pathProgress e < 1) by (vm_compute; reflexivity).
  destruct (@updates_reach_end table_math [16] e eq_refl eq_refl Hp)
    as (_ & A1 & _).
  destruct (@updates_reach_end table_math [16; 1000000] e eq_refl eq_refl Hp)
    as (_ & A2 & _).
  assert (R1 : reachedEnd (@updates table_math [16] e) = false)
    by (vm_compute; reflexivity).
  assert (R2 : reachedEnd (@updates table_math [16; 1000000] e) = true)
    by (vm_compute; reflexivity).
  rewrite A1, A2, R1, R2. repeat split.
Defined.

End EnemyTravel.

Module EnemyEnd.
Import GameFrame.

Lemma takeDamage_reachedEnd (d : Q) (e : Enemy.t) :
  Enemy.reachedEnd (fst (Enemy.takeDamage d e)) = Enemy.reachedEnd e /\
  (Enemy.alive e = false -> Enemy.alive (fst (Enemy.takeDamage d e)) = false).
Proof.
  unfold Enemy.takeDamage. destruct (Enemy.alive e) eqn:Ha; cbn [negb fst].
  - cbv zeta. destruct (Qleb _ 0); cbn [fst]; split; try reflexivity; discriminate.
  - split; [reflexivity|intros _; exact Ha].
Qed.

Section WithMath.
Context {M : MathLib}.

Lemma update_reached_dead (dt : Q) (e : Enemy.t) :
  (Enemy.reachedEnd e = true -> Enemy.alive e = false) ->
  Enemy.reachedEnd (Enemy.update dt e) = true ->
  Enemy.alive (Enemy.update dt e) = false.
Proof.
  intro Hc. unfold Enemy.update.
  destruct (Enemy.alive e) eqn:Ha; cbn [negb orb]; [|intros _; exact Ha].
  destruct (Enemy.reachedEnd e) eqn:Hr; [discriminate (Hc eq_refl)|].
  destruct (EnemyProgress.updateVisualEffects_progress dt e) as (_ & _ & _ & Ea & Er).
  set (e1 := Enemy.updateVisualEffects dt e) in *.
  assert (Hm : Enemy.reachedEnd (Enemy.move dt e1) = false).
  { unfold Enemy.move. rewrite Ea, Er, Ha, Hr. cbn [negb orb]. cbv zeta.
    unfold Enemy.updatePositionFromPath.
    cbn [Enemy.reachedEnd Enemy.set_placement Enemy.set_pathProgress]. congruence. }
  unfold Enemy.checkEndReached.
  destruct (Qleb 1 _); [intros _; reflexivity|]. congruence.
Qed.

Lemma updateEnemy_step (dt : Q) (g : t) (r : ref) :
  (Enemy.reachedEnd (heap g r) = true -> Enemy.alive (heap g r) = false) ->
  updateEnemy dt g r
  = set_heap (heap_set (heap g) r (Enemy.update dt (heap g r))) g.
Proof.
  intro Hc. unfold updateEnemy. cbv zeta.
  cbn [heap set_heap]. unfold heap_set at 1 2. rewrite Nat.eqb_refl.
  unfold Enemy.hasReachedEnd, Enemy.isAlive.
  destruct (Enemy.reachedEnd (Enemy.update dt (heap g r))) eqn:Hr; [|reflexivity].
  rewrite (update_reached_dead dt (heap g r) Hc Hr). reflexivity.
Qed.

Lemma fold_updateEnemy (dt : Q) (l : list ref) :
  forall g,
  (forall r, In r l -> Enemy.reachedEnd (heap g r) = true -> Enemy.alive (heap g r) = false) ->
  let g' := fold_left (updateEnemy dt) l g in
  lives g' = lives g /\ stats_livesLost g' = stats_livesLost g /\
  enemies g' = enemies g /\
  (forall r, ~ In r l -> heap g' r = heap g r) /\
  (NoDup l -> forall r, In r l -> heap g' r = Enemy.update dt (heap g r)) /\
  (forall r, (Enemy.reachedEnd (heap g r) = true -> Enemy.alive (heap g r) = false) ->
     Enemy.reachedEnd (heap g' r) = true -> Enemy.alive (heap g' r) = false).
Proof.
  induction l as [|a l IH]; intros g Hc; cbn [fold_left].
  - repeat split; try reflexivity; try tauto. intros _ r [].
  - rewrite (updateEnemy_step dt g a) by (apply Hc; left; reflexivity).
    set (g1 := set_heap _ g).
    assert (Hh1 : forall r, heap g1 r = if Nat.eqb r a then Enemy.update dt (heap g a)
                                       else heap g r) by reflexivity.
    assert (Hc1 : forall r,
               (Enemy.reachedEnd (heap g r) = true -> Enemy.alive (heap g r) = false) ->
               Enemy.reachedEnd (heap g1 r) = true -> Enemy.alive (heap g1 r) = false).
    { intros r Hr. rewrite Hh1. destruct (Nat.eqb r a) eqn:E; [|exact Hr].
      apply Nat.eqb_eq in E. subst r. apply update_reached_dead. exact Hr. }
    destruct (IH g1) as (Hl & Hll & He & Hout & Hin & Hcons).
    { intros r Hr. apply Hc1. apply Hc. right. exact Hr. }
    split; [exact Hl|]. split; [exact Hll|]. split; [exact He|].
    split; [|split].
    + intros r Hnot. rewrite Hout by (intro Hr; apply Hnot; right; exact Hr).
      rewrite Hh1. destruct (Nat.eqb r a) eqn:E; [|reflexivity].
      apply Nat.eqb_eq in E. subst r. exfalso. apply Hnot. left. reflexivity.
    + intros Hnd r Hr. inversion Hnd as [|? ? Hna Hnd']; subst.
      destruct Hr as [->|Hr].
      * rewrite Hout by exact Hna. rewrite Hh1, Nat.eqb_refl. reflexivity.
      * rewrite (Hin Hnd' r Hr). rewrite Hh1.
        destruct (Nat.eqb r a) eqn:E; [|reflexivity].
        apply Nat.eqb_eq in E. subst r. contradiction.
    + intros r Hr Hreach. apply Hcons; [|exact Hreach]. apply Hc1. exact Hr.
Qed.

(** X3.  The enemies' part of [Game.updateEntities] never takes a life.
    When every enemy of the array that has reached the end is marked as not
    alive, the step leaves [lives] and [stats.livesLost] as they were:
    [Enemy.update] marks the enemy that reaches the end as not alive, so
    the test [hasReachedEnd() && isAlive()] that guards
    [handleEnemyReachedEnd] fails.  The step leaves the enemies outside the
    array alone, updates each enemy of an array without repetitions once,
    and keeps the condition; the condition holds of every new enemy and
    [takeDamage] keeps it. *)
Theorem enemies_step_keeps_lives (dt : Q) (g : t)
    (Hc : forall r, In r (enemies g) ->
          Enemy.reachedEnd (heap g r) = true -> Enemy.alive (heap g r) = false) :
  lives (updateEnemies dt g) = lives g /\
  stats_livesLost (updateEnemies dt g) = stats_livesLost g /\
  (forall r, ~ In r (enemies g) -> heap (updateEnemies dt g) r = heap g r) /\
  (NoDup (enemies g) -> forall r, In r (enemies g) ->
     heap (updateEnemies dt g) r = Enemy.update dt (heap g r)) /\
  (forall r, In r (enemies g) ->
     Enemy.reachedEnd (heap (updateEnemies dt g) r) = true ->
     Enemy.alive (heap (updateEnemies dt g) r) = false) /\
  (forall k, Enemy.reachedEnd (Enemy.new k) = false) /\
  (forall d e, (Enemy.reachedEnd e = true -> Enemy.alive e = false) ->
     Enemy.reachedEnd (fst (Enemy.takeDamage d e)) = true ->
     Enemy.alive (fst (Enemy.takeDamage d e)) = false).
Proof.
  unfold updateEnemies.
  destruct (fold_updateEnemy dt (enemies g) g Hc) as (Hl & Hll & _ & Hout & Hin & Hcons).
  split; [exact Hl|]. split; [exact Hll|]. split; [exact Hout|].
  split; [exact Hin|]. split; [|split].
  - intros r Hr. apply Hcons. apply Hc. exact Hr.
  - intro k. reflexivity.
  - intros d e He. destruct (takeDamage_reachedEnd d e) as [Er Ea].
    rewrite Er. intro Hr. apply Ea. apply He. exact Hr.
Qed.

End WithMath.

(** A basic enemy walks to the end of the path within half a minute, and
    the lives stay as they were. *)
Lemma enemies_step_keeps_lives_witness :
  let g := FrameScenario.game_with [0%nat; 1%nat; 2%nat]
             FrameScenario.mixed_enemies in
  Enemy.reachedEnd (heap (@updateEnemies table_math 30000 g) 0%nat) = true /\
  lives (@updateEnemies table_math 30000 g) = lives g.
Proof.
  intro g. split; [vm_compute; reflexivity|].
  apply (@enemies_step_keeps_lives table_math 30000 g).
  intros r [<-|[<-|[<-|[]]]]; vm_compute; intro H;
    first [reflexivity|discriminate H].
Defined.

End EnemyEnd.

Module EconomyLedger.
Import EconomyManager EconomyCalls.

Section WithMath.
Context {M : MathLib}.

Lemma addMoney_rejected (amount : Q) (source : Label) (e : t) :
  amount <= 0 -> addMoney amount source e = (e, money e).
Proof. intro H. unfold addMoney. apply Qleb_le in H. rewrite H. reflexivity. Qed.

Lemma addMoney_fields (amount : Q) (source : Label) (e : t) :
  0 < amount ->
  let finalAmount := Math_floor (double (amount * earningsMultiplier e)) in
  let e' := fst (addMoney amount source e) in
  money e' = money e + finalAmount /\
  totalEarned (stats e') = totalEarned (stats e) + finalAmount /\
  totalSpent (stats e') = totalSpent (stats e) /\
  startingMoney e' = startingMoney e /\
  earningsMultiplier e' = earningsMultiplier e /\
  costMultiplier e' = costMultiplier e /\
  transactions e'
  = transactions e ++ [{| txn_type := income; txn_amount := finalAmount;
                          txn_source := source;
                          txn_balanceAfter := money e + finalAmount |}].
Proof.
  intro H. apply Qleb_gt in H. unfold addMoney. rewrite H. cbv zeta.
  unfold updateEarningsStats, recordTransaction. cbv zeta.
  destruct source; cbn; repeat split.
Qed.

Lemma spendMoney_rejected (amount : Q) (purpose : Label) (e : t) :
  snd (spendMoney amount purpose e) = false -> fst (spendMoney amount purpose e) = e.
Proof.
  unfold spendMoney. destruct (Qleb amount 0); [reflexivity|]. cbv zeta.
  destruct (negb (canAfford _ e)); [reflexivity|]. discriminate.
Qed.

Lemma spendMoney_fields (amount : Q) (purpose : Label) (e : t) :
  snd (spendMoney amount purpose e) = true ->
  let finalAmount := Math_floor (double (amount * costMultiplier e)) in
  let e' := fst (spendMoney amount purpose e) in
  money e' = money e - finalAmount /\
  totalSpent (stats e') = totalSpent (stats e) + finalAmount /\
  totalEarned (stats e') = totalEarned (stats e) /\
  startingMoney e' = startingMoney e /\
  earningsMultiplier e' = earningsMultiplier e /\
  costMultiplier e' = costMultiplier e /\
  transactions e'
  = transactions e ++ [{| txn_type := expense; txn_amount := finalAmount;
                          txn_source := purpose;
                          txn_balanceAfter := money e - finalAmount |}].
Proof.
  unfold spendMoney. destruct (Qleb amount 0); [discriminate|]. cbv zeta.
  destruct (negb (canAfford _ e)); [discriminate|]. intros _.
  unfold updateSpendingStats, recordTransaction. cbv zeta.
  cbn. repeat split.
Qed.

Lemma spendMoney_succeeds (amount : Q) (purpose : Label) (e : t) :
  snd (spendMoney amount purpose e) = true <->
  0 < amount /\
  Math_floor (double (Math_floor (double (amount * costMultiplier e))
                      * costMultiplier e)) <= money e.
Proof.
  unfold spendMoney, canAfford. cbv zeta.
  destruct (Qleb amount 0) eqn:Ea; [apply Qleb_le in Ea|apply Qleb_gt in Ea].
  - cbn [snd]. split; [discriminate|]. intros [H _]. lra.
  - destruct (Qleb (Math_floor (double (Math_floor (double (amount * costMultiplier e))
                                        * costMultiplier e))) (money e)) eqn:Ec;
      [apply Qleb_le in Ec|apply Qleb_gt in Ec]; cbn [negb snd].
    + split; [intros _; split; assumption|reflexivity].
    + split; [discriminate|]. intros [_ H]. lra.
Qed.

(** X5.  [spendMoney] charges the amount times the cost multiplier, the
    product of doubles rounded down.  It succeeds exactly when the amount
    is positive and the money covers that charge multiplied by the cost
    multiplier once more, in doubles, and rounded down, which is the test
    [canAfford] makes.  When it succeeds it takes the charge from the
    money, adds it to [stats.totalSpent] and appends one expense with the
    charge and the new balance; when it fails the manager is unchanged. *)
Theorem spendMoney_outcome (amount : Q) (purpose : Label) (e : t) :
  let finalAmount := Math_floor (double (amount * costMultiplier e)) in
  (snd (spendMoney amount purpose e) = true <->
     0 < amount /\
     Math_floor (double (finalAmount * costMultiplier e)) <= money e) /\
  (snd (spendMoney amount purpose e) = false ->
     fst (spendMoney amount purpose e) = e) /\
  (snd (spendMoney amount purpose e) = true ->
     money (fst (spendMoney amount purpose e)) = money e - finalAmount /\
     totalSpent (stats (fst (spendMoney amount purpose e)))
       = totalSpent (stats e) + finalAmount /\
     transactions (fst (spendMoney amount purpose e))
       = transactions e ++ [{| txn_type := expense; txn_amount := finalAmount;
                               txn_source := purpose;
                               txn_balanceAfter := money e - finalAmount |}]).
Proof.
  intro finalAmount. split; [|split].
  - apply spendMoney_succeeds.
  - apply spendMoney_rejected.
  - intro Hs. destruct (spendMoney_fields amount purpose e Hs)
      as (Hm & Hsp & _ & _ & _ & _ & Ht).
    split; [exact Hm|]. split; [exact Hsp|exact Ht].
Qed.

Lemma processEnemyKillReward_fields (enemy : Enemy.t) (e : t) :
  let e' := fst (processEnemyKillReward enemy e) in
  money e' - totalEarned (stats e') + totalSpent (stats e')
    == money e - totalEarned (stats e) + totalSpent (stats e) /\
  startingMoney e' = startingMoney e /\
  earningsMultiplier e' = earningsMultiplier e /\
  costMultiplier e' = costMultiplier e.
Proof.
  unfold processEnemyKillReward. cbn [fst].
  set (a := getFinalEarnings _ e).
  destruct (Qlt_le_dec 0 a) as [Hpos|Hneg].
  - destruct (addMoney_fields a enemy_kill e Hpos) as (Hm & He & Hs & H1 & H2 & H3 & _).
    rewrite Hm, He, Hs. repeat split; try assumption. ring.
  - rewrite (addMoney_rejected a enemy_kill e Hneg). cbn [fst].
    repeat split; reflexivity.
Qed.

(** The three quantities every call keeps: the ledger balance and the
    starting money. *)
Lemma call_ledger (c : Call) (e : t) :
  money e == startingMoney e + totalEarned (stats e) - totalSpent (stats e) ->
  money (call e c)
  == startingMoney (call e c) + totalEarned (stats (call e c))
     - totalSpent (stats (call e c)).
Proof.
  intro Hinv. destruct c as [a src|a p|enemy|[k|]|now|now m d| |em cm|]; cbn [call].
  - destruct (Qlt_le_dec 0 a) as [Hpos|Hneg].
    + destruct (addMoney_fields a src e Hpos) as (Hm & He & Hs & H1 & _).
      rewrite Hm, He, Hs, H1. lra.
    + rewrite (addMoney_rejected a src e Hneg). exact Hinv.
  - destruct (snd (spendMoney a p e)) eqn:Hs.
    + destruct (spendMoney_fields a p e Hs) as (Hm & Hsp & He & H1 & _).
      rewrite Hm, Hsp, He, H1. lra.
    + rewrite (spendMoney_rejected a p e Hs). exact Hinv.
  - destruct (processEnemyKillReward_fields enemy e) as (Hb & H1 & _).
    cbv zeta in Hb, H1. rewrite H1. lra.
  - unfold processTowerPurchase. cbv zeta.
    set (a := getFinalCost (cost k) e).
    destruct (snd (spendMoney a tower_purchase e)) eqn:Hs.
    + destruct (spendMoney_fields a tower_purchase e Hs) as (Hm & Hsp & He & H1 & _).
      rewrite Hm, Hsp, He, H1. lra.
    + rewrite (spendMoney_rejected a tower_purchase e Hs). exact Hinv.
  - exact Hinv.
  - unfold update, cleanupTransactionHistory, updateBonuses, deactivateBonus.
    destruct (bonusActive e && Qltb (bonusEndTime e) now);
      destruct (_ <? _)%nat; exact Hinv.
  - exact Hinv.
  - exact Hinv.
  - exact Hinv.
  - cbn. lra.
Qed.

Lemma call_startingMoney (c : Call) (e : t) :
  startingMoney (call e c) = startingMoney e.
Proof.
  destruct c as [a src|a p|enemy|[k|]|now|now m d| |em cm|]; cbn [call];
    try reflexivity.
  - destruct (Qlt_le_dec 0 a) as [Hpos|Hneg].
    + apply (addMoney_fields a src e Hpos).
    + rewrite (addMoney_rejected a src e Hneg). reflexivity.
  - destruct (snd (spendMoney a p e)) eqn:Hs.
    + apply (spendMoney_fields a p e Hs).
    + rewrite (spendMoney_rejected a p e Hs). reflexivity.
  - apply processEnemyKillReward_fields.
  - unfold processTowerPurchase. cbv zeta.
    destruct (snd (spendMoney (getFinalCost (cost k) e) tower_purchase e)) eqn:Hs.
    + apply (spendMoney_fields _ _ e Hs).
    + rewrite (spendMoney_rejected _ _ e Hs). reflexivity.
  - unfold update, cleanupTransactionHistory, updateBonuses, deactivateBonus.
    destruct (bonusActive e && Qltb (bonusEndTime e) now);
      destruct (_ <? _)%nat; reflexivity.
Qed.

(** X6.  The ledger balances.  After every sequence of calls of [addMoney],
    [spendMoney], [processEnemyKillReward], [processTowerPurchase],
    [update], [activateBonus], [deactivateBonus], [setMultipliers] and
    [reset] on a new manager, the starting money is the one the manager
    was created with and the money is the starting money plus
    [stats.totalEarned] less [stats.totalSpent]. *)
Theorem ledger_balanced (initial : Q) (cs : list Call) :
  startingMoney (calls cs (new initial)) = initial /\
  money (calls cs (new initial))
  == initial + totalEarned (stats (calls cs (new initial)))
     - totalSpent (stats (calls cs (new initial))).
Proof.
  unfold calls.
  assert (H0 : startingMoney (new initial) = initial /\
               money (new initial)
               == startingMoney (new initial)
                  + totalEarned (stats (new initial))
                  - totalSpent (stats (new initial))).
  { split; [reflexivity|]. cbn. lra. }
  revert H0. generalize (new initial).
  induction cs as [|c cs IH]; intros e [Hs He]; cbn [fold_left].
  - split; [exact Hs|]. rewrite <- Hs. exact He.
  - apply IH. split; [rewrite call_startingMoney; exact Hs|].
    apply call_ledger. exact He.
Qed.

Lemma floor_nonneg (x : Q) : 0 <= x -> 0 <= Math_floor x.
Proof.
  intro H. unfold Math_floor. change 0 with (inject_Z 0).
  rewrite <- Zle_Qle. change 0%Z with (Qfloor 0). apply Qfloor_resp_le. exact H.
Qed.

(** At a multiplier of 1 a whole amount that is a double is charged or
    paid as it is. *)
Lemma floor_at_par (x c : Q) (z : Z) :
  c == 1 -> x == inject_Z z -> double x == x ->
  Math_floor (double (x * c)) = inject_Z z.
Proof.
  intros Hc Hx Hd. unfold Math_floor. f_equal.
  rewrite <- (Qfloor_Z z). apply Qfloor_comp.
  apply (Qeq_trans _ (double x)); [apply double_comp; rewrite Hc; ring|].
  apply (Qeq_trans _ x); assumption.
Qed.

(** A charge is covered by the charge [canAfford] compares with the money. *)
Lemma floor_grows (x c : Q) :
  0 <= x -> 1 <= c ->
  Math_floor (double x) <= Math_floor (double (Math_floor (double x) * c)).
Proof.
  intros Hx Hc.
  pose proof (floor_nonneg (double x) (Rounding.double_nonneg x Hx)) as Hn.
  pose proof (double_floor x) as Hd.
  set (n := Math_floor (double x)) in *.
  assert (Hle : n <= double (n * c)).
  { rewrite <- Hd at 1. apply double_monotone. nra. }
  unfold n at 1. unfold n in Hle. unfold Math_floor in *.
  rewrite <- Zle_Qle.
  rewrite <- (Qfloor_Z (Qfloor (double x))) at 1. apply Qfloor_resp_le.
  exact Hle.
Qed.

Lemma addMoney_grows (amount : Q) (source : Label) (e : t) :
  0 <= earningsMultiplier e ->
  money e <= money (fst (addMoney amount source e)) /\
  earningsMultiplier (fst (addMoney amount source e)) = earningsMultiplier e /\
  costMultiplier (fst (addMoney amount source e)) = costMultiplier e.
Proof.
  intro Hem. destruct (Qlt_le_dec 0 amount) as [Hpos|Hneg].
  - destruct (addMoney_fields amount source e Hpos) as (Hm & _ & _ & _ & H2 & H3 & _).
    rewrite Hm. split; [|split; assumption].
    assert (0 <= Math_floor (double (amount * earningsMultiplier e))).
    { apply floor_nonneg. apply Rounding.double_nonneg. apply Qmult_le_0_compat; lra. }
    lra.
  - rewrite (addMoney_rejected amount source e Hneg). cbn [fst].
    split; [lra|split; reflexivity].
Qed.

Lemma spendMoney_covered (amount : Q) (purpose : Label) (e : t) :
  1 <= costMultiplier e -> 0 <= money e ->
  0 <= money (fst (spendMoney amount purpose e)) /\
  earningsMultiplier (fst (spendMoney amount purpose e)) = earningsMultiplier e /\
  costMultiplier (fst (spendMoney amount purpose e)) = costMultiplier e.
Proof.
  intros Hcm Hm. destruct (snd (spendMoney amount purpose e)) eqn:Hs.
  - destruct (spendMoney_fields amount purpose e Hs) as (Hmoney & _ & _ & _ & H2 & H3 & _).
    split; [|split; assumption]. rewrite Hmoney.
    apply spendMoney_succeeds in Hs. destruct Hs as [Hpos Hcheck].
    assert (Hx : 0 <= amount * costMultiplier e)
      by (apply Qmult_le_0_compat; lra).
    pose proof (floor_grows (amount * costMultiplier e) (costMultiplier e) Hx Hcm)
      as Hg.
    lra.
  - rewrite (spendMoney_rejected amount purpose e Hs).
    split; [exact Hm|split; reflexivity].
Qed.

Lemma call_solvent (c : Call) (e : t) :
  keepsMultipliers c ->
  0 <= startingMoney e /\ 0 <= money e /\
    0 <= earningsMultiplier e /\ 1 <= costMultiplier e ->
  0 <= startingMoney (call e c) /\ 0 <= money (call e c) /\
    0 <= earningsMultiplier (call e c) /\ 1 <= costMultiplier (call e c).
Proof.
  intros Hc (Hs & Hm & Hem & Hcm).
  split; [rewrite call_startingMoney; exact Hs|].
  destruct c as [a src|a p|enemy|[k|]|now|now m d| |em cm|]; cbn [call].
  - destruct (addMoney_grows a src e Hem) as (H1 & H2 & H3).
    rewrite H2, H3. repeat split; lra.
  - destruct (spendMoney_covered a p e Hcm Hm) as (H1 & H2 & H3).
    rewrite H2, H3. repeat split; lra.
  - unfold processEnemyKillReward. cbn [fst].
    destruct (addMoney_grows (getFinalEarnings (Enemy.reward enemy) e) enemy_kill e Hem)
      as (H1 & H2 & H3).
    rewrite H2, H3. repeat split; lra.
  - unfold processTowerPurchase. cbv zeta.
    destruct (spendMoney_covered (getFinalCost (cost k) e) tower_purchase e Hcm Hm)
      as (H1 & H2 & H3).
    rewrite H2, H3. repeat split; lra.
  - repeat split; assumption.
  - unfold update, cleanupTransactionHistory, updateBonuses, deactivateBonus.
    destruct (bonusActive e && Qltb (bonusEndTime e) now);
      destruct (_ <? _)%nat; cbn; repeat split; lra.
  - cbn in *. repeat split; lra.
  - cbn. repeat split; lra.
  - cbn in *. unfold Math_max. repeat split; try lra; qcase; lra.
  - cbn. repeat split; lra.
Qed.

(** X7.  The balance never goes below zero.  On a manager created with
    money that is not negative, after every sequence of the calls above in
    which [setMultipliers] is given a cost multiplier of at least 1 and
    [activateBonus] a multiplier that is not negative, the money is not
    negative. *)
Theorem money_never_negative (initial : Q) (cs : list Call)
    (Hinitial : 0 <= initial) (Hcalls : Forall keepsMultipliers cs) :
  0 <= money (calls cs (new initial)).
Proof.
  unfold calls.
  assert (H0 : 0 <= startingMoney (new initial) /\ 0 <= money (new initial) /\
               0 <= earningsMultiplier (new initial) /\
               1 <= costMultiplier (new initial)).
  { cbn. repeat split; lra. }
  revert H0. generalize (new initial).
  induction Hcalls as [|c cs Hc _ IH]; intros e He; cbn [fold_left].
  - tauto.
  - apply IH. apply call_solvent; assumption.
Qed.

(** X8.  After [update] the history holds at most 100 transactions: all of
    them when there were at most 100, and otherwise the latest 100, in
    their order. *)
Theorem history_bounded (now : Q) (e : t) :
  length (transactions (update now e))
    = Nat.min (length (transactions e)) maxTransactionHistory /\
  exists dropped, transactions e = dropped ++ transactions (update now e).
Proof.
  unfold update, cleanupTransactionHistory.
  assert (Ht : transactions (updateBonuses now e) = transactions e).
  { unfold updateBonuses. destruct (_ && _); reflexivity. }
  rewrite Ht.
  destruct (maxTransactionHistory <? length (transactions e))%nat eqn:E.
  - apply Nat.ltb_lt in E. cbn [transactions set_transactions].
    split; [rewrite length_skipn; lia|].
    exists (firstn (length (transactions e) - maxTransactionHistory) (transactions e)).
    symmetry. apply firstn_skipn.
  - apply Nat.ltb_ge in E. rewrite Ht.
    split; [lia|]. exists []. reflexivity.
Qed.

End WithMath.

Lemma money_never_negative_witness :
  0 <= money (@calls table_math
                [SpendMoney 100 tower_purchase; AddMoney 10 enemy_kill;
                 SetMultipliers 2 (3 # 2); SpendMoney 300 tower_purchase;
                 SpendMoney 300 tower_purchase]
                (new STARTING_MONEY)).
Proof.
  apply (@money_never_negative table_math).
  - vm_compute. discriminate.
  - repeat constructor; vm_compute; discriminate.
Defined.

End EconomyLedger.

Module GameCleanup.
Import GameFrame CleanupSpec.

Section WithMath.
Context {M : MathLib}.

Lemma kill_reward (enemy : Enemy.t) (e : EconomyManager.t) (z : Z) :
  EconomyManager.earningsMultiplier e == 1 ->
  (0 < z)%Z -> Enemy.reward enemy == inject_Z z ->
  double (Enemy.reward enemy) == Enemy.reward enemy ->
  snd (EconomyManager.processEnemyKillReward enemy e) == Enemy.reward enemy /\
  EconomyManager.money (fst (EconomyManager.processEnemyKillReward enemy e))
    == EconomyManager.money e + Enemy.reward enemy /\
  EconomyManager.earningsMultiplier (fst (EconomyManager.processEnemyKillReward enemy e))
    = EconomyManager.earningsMultiplier e.
Proof.
  intros Hem Hz Hr Hd. unfold EconomyManager.processEnemyKillReward. cbn [fst snd].
  unfold EconomyManager.getFinalEarnings.
  assert (Hf : Math_floor (double (Enemy.reward enemy
                                   * EconomyManager.earningsMultiplier e))
               = inject_Z z).
  { apply EconomyLedger.floor_at_par; [exact Hem|exact Hr|exact Hd]. }
  rewrite Hf.
  assert (Hpos : 0 < inject_Z z).
  { change 0 with (inject_Z 0). rewrite <- Zlt_Qlt. exact Hz. }
  destruct (EconomyLedger.addMoney_fields (inject_Z z) EconomyManager.enemy_kill e Hpos)
    as (Hm & _ & _ & _ & He & _).
  rewrite Hm, He.
  assert (Hf2 : Math_floor (double (inject_Z z * EconomyManager.earningsMultiplier e))
                = inject_Z z).
  { apply EconomyLedger.floor_at_par; [exact Hem|reflexivity|].
    apply (Qeq_trans _ (double (Enemy.reward enemy)));
      [apply double_comp; symmetry; exact Hr|].
    apply (Qeq_trans _ (Enemy.reward enemy)); assumption. }
  rewrite Hf2. split; [symmetry; exact Hr|]. split; [rewrite Hr; reflexivity|reflexivity].
Qed.

Lemma cleanupEnemies_spec (l : list ref) :
  forall g,
  NoDup l ->
  (forall r, In r l -> rewardProcessed g r = false) ->
  EconomyManager.earningsMultiplier (economyManager g) == 1 ->
  (forall r, In r l -> exists z, (0 < z)%Z /\ Enemy.reward (heap g r) == inject_Z z) ->
  (forall r, In r l ->
     double (Enemy.reward (heap g r)) == Enemy.reward (heap g r)) ->
  let g' := fst (cleanupEnemies l g) in
  snd (cleanupEnemies l g) = filter (survivor (heap g)) l /\
  heap g' = heap g /\ lives g' = lives g /\ enemies g' = enemies g /\
  projectiles g' = projectiles g /\
  EconomyManager.money (economyManager g')
    == EconomyManager.money (economyManager g)
       + rewards (heap g) (filter (killed (heap g)) l) /\
  stats_moneyEarned g'
    == stats_moneyEarned g + rewards (heap g) (filter (killed (heap g)) l) /\
  stats_enemiesKilled g'
    = (stats_enemiesKilled g + Z.of_nat (length (filter (killed (heap g)) l)))%Z.
Proof.
  induction l as [|a l IH]; intros g Hnd Hflags Hem Hrew Hdbl.
  - cbn. repeat split; try reflexivity; try lra. lia.
  - inversion Hnd as [|? ? Hna Hnd']; subst.
    cbn [cleanupEnemies filter].
    assert (Es : survivor (heap g) a
                 = Enemy.alive (heap g a) && negb (Enemy.reachedEnd (heap g a)))
      by reflexivity.
    assert (Ek : killed (heap g) a
                 = negb (Enemy.alive (heap g a)) && negb (Enemy.reachedEnd (heap g a)))
      by reflexivity.
    rewrite Es, Ek. clear Es Ek.
    unfold cleanupEnemy, Enemy.isAlive, Enemy.hasReachedEnd.
    destruct (Enemy.alive (heap g a)) eqn:Ha;
      destruct (Enemy.reachedEnd (heap g a)) eqn:Hr; cbn [negb andb].
    + (* alive and at the end: dropped *)
      destruct (IH g Hnd') as (K & Hh & Hl & He & Hp & Hm & Hme & Hk);
        [intros r Hin; apply Hflags; right; exact Hin|exact Hem
        |intros r Hin; apply Hrew; right; exact Hin
        |intros r Hin; apply Hdbl; right; exact Hin|].
      destruct (cleanupEnemies l g) as [g2 kept]. cbn [fst snd] in *.
      repeat split; assumption.
    + (* alive, under way: kept *)
      destruct (IH g Hnd') as (K & Hh & Hl & He & Hp & Hm & Hme & Hk);
        [intros r Hin; apply Hflags; right; exact Hin|exact Hem
        |intros r Hin; apply Hrew; right; exact Hin
        |intros r Hin; apply Hdbl; right; exact Hin|].
      destruct (cleanupEnemies l g) as [g2 kept]. cbn [fst snd] in *.
      rewrite K. repeat split; assumption.
    + (* dead at the end: dropped *)
      destruct (IH g Hnd') as (K & Hh & Hl & He & Hp & Hm & Hme & Hk);
        [intros r Hin; apply Hflags; right; exact Hin|exact Hem
        |intros r Hin; apply Hrew; right; exact Hin
        |intros r Hin; apply Hdbl; right; exact Hin|].
      destruct (cleanupEnemies l g) as [g2 kept]. cbn [fst snd] in *.
      repeat split; assumption.
    + (* killed by the towers *)
      rewrite (Hflags a (or_introl eq_refl)). cbn [negb].
      destruct (Hrew a (or_introl eq_refl)) as (z & Hz & Hra).
      destruct (kill_reward (heap g a) (economyManager g) z Hem Hz Hra
                  (Hdbl a (or_introl eq_refl)))
        as (Hpaid & Hmoney & Hmult).
      unfold handleEnemyKilled. cbv zeta.
      cbn [heap economyManager set_stats_enemiesKilled].
      destruct (EconomyManager.processEnemyKillReward (heap g a) (economyManager g))
        as [economy reward] eqn:Ep.
      cbn [fst snd] in Hpaid, Hmoney, Hmult.
      set (g1 := set_rewardProcessed _ _).
      destruct (IH g1 Hnd') as (K & Hh & Hl & He & Hp & Hm & Hme & Hk).
      { intros r Hin. unfold g1. cbn [rewardProcessed set_rewardProcessed
          set_stats_moneyEarned set_economyManager set_stats_enemiesKilled].
        destruct (Nat.eqb r a) eqn:E.
        - apply Nat.eqb_eq in E. subst r. contradiction.
        - apply Hflags. right. exact Hin. }
      { unfold g1. cbn [economyManager set_rewardProcessed set_stats_moneyEarned
          set_economyManager]. rewrite Hmult. exact Hem. }
      { intros r Hin. apply Hrew. right. exact Hin. }
      { intros r Hin. apply Hdbl. right. exact Hin. }
      destruct (cleanupEnemies l g1) as [g2 kept]. cbn [fst snd] in *.
      change (heap g1) with (heap g) in *.
      change (lives g1) with (lives g) in *.
      change (enemies g1) with (enemies g) in *.
      change (projectiles g1) with (projectiles g) in *.
      change (economyManager g1) with economy in *.
      change (stats_moneyEarned g1) with (stats_moneyEarned g + reward) in *.
      change (stats_enemiesKilled g1) with (stats_enemiesKilled g + 1)%Z in *.
      cbn [rewards fold_right length]. fold (rewards (heap g)) in *.
      repeat split; try assumption.
      * rewrite Hm, Hmoney. unfold rewards. ring.
      * rewrite Hme, Hpaid. unfold rewards. ring.
      * rewrite Hk. lia.
Qed.

(** X4.  What a clean-up keeps and pays.  For an array of distinct enemies
    whose rewards are positive whole numbers and not yet paid, with the
    earnings multiplier at 1, [cleanupEntities] keeps the enemies that are
    alive and under way, in their order, and the projectiles that are
    active and not marked for removal; it pays the reward of every enemy
    that is neither alive nor at the end into the money and into
    [stats.moneyEarned], counts these enemies in [stats.enemiesKilled], and
    leaves the lives and the enemies themselves as they were.  The rewards
    are doubles, as the numbers of JavaScript are. *)
Theorem cleanupEntities_pays_kills (g : t)
    (Hdistinct : NoDup (enemies g))
    (Hunpaid : forall r, In r (enemies g) -> rewardProcessed g r = false)
    (Hpar : EconomyManager.earningsMultiplier (economyManager g) == 1)
    (Hrewards : forall r, In r (enemies g) ->
       exists z, (0 < z)%Z /\ Enemy.reward (heap g r) == inject_Z z)
    (Hdoubles : forall r, In r (enemies g) ->
       double (Enemy.reward (heap g r)) == Enemy.reward (heap g r)) :
  let dead := filter (killed (heap g)) (enemies g) in
  enemies (cleanupEntities g) = filter (survivor (heap g)) (enemies g) /\
  projectiles (cleanupEntities g)
  = filter (fun p => Projectile.isActive p && negb (Projectile.markedForRemoval p))
      (projectiles g) /\
  heap (cleanupEntities g) = heap g /\
  lives (cleanupEntities g) = lives g /\
  EconomyManager.money (economyManager (cleanupEntities g))
    == EconomyManager.money (economyManager g) + rewards (heap g) dead /\
  stats_moneyEarned (cleanupEntities g)
    == stats_moneyEarned g + rewards (heap g) dead /\
  stats_enemiesKilled (cleanupEntities g)
    = (stats_enemiesKilled g + Z.of_nat (length dead))%Z.
Proof.
  intro dead. unfold dead, cleanupEntities.
  destruct (cleanupEnemies_spec (enemies g) g Hdistinct Hunpaid Hpar Hrewards
              Hdoubles)
    as (K & Hh & Hl & He & Hp & Hm & Hme & Hk).
  destruct (cleanupEnemies (enemies g) g) as [g2 kept]. cbn [fst snd] in *.
  cbv zeta.
  cbn [enemies projectiles heap lives economyManager stats_moneyEarned
       stats_enemiesKilled set_projectiles set_enemies].
  rewrite Hp, Hh, Hl. repeat split; assumption.
Qed.

End WithMath.

(** Of an enemy under way, one killed by a tower and one at the end of the
    path, the first stays and the second is paid for. *)
Lemma cleanupEntities_pays_kills_witness :
  let g := FrameScenario.game_with [0%nat; 1%nat; 2%nat]
             FrameScenario.mixed_enemies in
  enemies (@cleanupEntities table_math g) = [0%nat] /\
  EconomyManager.money (economyManager (@cleanupEntities table_math g)) == 500 + 25.
Proof.
  intro g.
  assert (Hd : NoDup (enemies g)).
  { repeat constructor; simpl; intuition discriminate. }
  assert (Hu : forall r, In r (enemies g) -> rewardProcessed g r = false)
    by (intros r _; reflexivity).
  assert (Hp : EconomyManager.earningsMultiplier (economyManager g) == 1)
    by reflexivity.
  assert (Hr : forall r, In r (enemies g) ->
            exists z, (0 < z)%Z /\ Enemy.reward (heap g r) == inject_Z z).
  { intros r [<-|[<-|[<-|[]]]];
      [exists 10%Z|exists 25%Z|exists 10%Z]; split;
      try reflexivity; vm_compute; reflexivity. }
  destruct (@cleanupEntities_pays_kills table_math g Hd Hu Hp Hr
              (fun r _ => Qeq_refl _))
    as (Hkept & _ & _ & _ & Hmoney & _).
  split.
  - rewrite Hkept. vm_compute. reflexivity.
  - rewrite Hmoney. vm_compute. reflexivity.
Defined.

End GameCleanup.

Module GridFacts.
Import Helpers Grid.

(** The floor of a number is the integer just below it. *)
Lemma Qfloor_between (q : Q) (n : Z) :
  inject_Z n <= q -> q < inject_Z n + 1 -> Qfloor q = n.
Proof.
  intros Hlo Hhi. apply Z.le_antisymm.
  - assert (H : inject_Z (Qfloor q) < inject_Z (n + 1)).
    { rewrite inject_Z_plus. pose proof (Qfloor_le q). change (inject_Z 1) with 1. lra. }
    rewrite <- Zlt_Qlt in H. lia.
  - rewrite <- (Qfloor_Z n). apply Qfloor_resp_le. exact Hlo.
Qed.

Lemma Qfloor_bounds (q : Q) : inject_Z (Qfloor q) <= q < inject_Z (Qfloor q) + 1.
Proof.
  split; [apply Qfloor_le|].
  pose proof (Qlt_floor q) as H. rewrite inject_Z_plus in H. exact H.
Qed.

Lemma cell_of (x : Q) :
  inject_Z (Qfloor (x / GRID_SIZE)) * GRID_SIZE <= x
  < (inject_Z (Qfloor (x / GRID_SIZE)) + 1) * GRID_SIZE.
Proof.
  pose proof (Qfloor_bounds (x / GRID_SIZE)) as H.
  assert (E : x == x / GRID_SIZE * GRID_SIZE) by (unfold GRID_SIZE; field).
  set (c := inject_Z (Qfloor (x / GRID_SIZE))) in *.
  set (q := x / GRID_SIZE) in *. clearbody c q.
  unfold GRID_SIZE in *. lra.
Qed.

Lemma cell_index (x : Q) (n : Z) :
  Qfloor (x / GRID_SIZE) = n <->
  inject_Z n * GRID_SIZE <= x < (inject_Z n + 1) * GRID_SIZE.
Proof.
  split.
  - intros <-. apply cell_of.
  - intros [Hlo Hhi]. apply Qfloor_between.
    + apply Qle_shift_div_l; [reflexivity|exact Hlo].
    + apply Qlt_shift_div_r; [reflexivity|exact Hhi].
Qed.

Lemma gridToPixel_in_cell (gridX0 gridY0 : Z) :
  pixelToGrid (px (gridToPixel gridX0 gridY0)) (py (gridToPixel gridX0 gridY0))
  = {| gridX := gridX0; gridY := gridY0 |}.
Proof.
  unfold pixelToGrid, gridToPixel. cbn [px py].
  assert (E : GRID_SIZE / 2 == 32) by reflexivity.
  set (half := GRID_SIZE / 2) in *. clearbody half.
  f_equal; apply cell_index; unfold GRID_SIZE;
    set (c := inject_Z _); clearbody c; lra.
Qed.

(** X10.  Pixels and cells.  The centre [gridToPixel] gives for a cell lies
    in that cell: [pixelToGrid] takes it back to the cell.  A pixel lies in
    the cell of column [gridX0] and row [gridY0] exactly when its
    coordinates are at least 64 times the column and the row and less than
    64 times the next ones.  Every pixel is within half a cell, 32, of the
    centre of its cell, in each coordinate. *)
Theorem pixel_grid_round_trip (gridX0 gridY0 : Z) (x y : Q) :
  pixelToGrid (px (gridToPixel gridX0 gridY0)) (py (gridToPixel gridX0 gridY0))
    = {| gridX := gridX0; gridY := gridY0 |} /\
  (pixelToGrid x y = {| gridX := gridX0; gridY := gridY0 |} <->
     (inject_Z gridX0 * GRID_SIZE <= x < (inject_Z gridX0 + 1) * GRID_SIZE) /\
     (inject_Z gridY0 * GRID_SIZE <= y < (inject_Z gridY0 + 1) * GRID_SIZE)) /\
  Math_abs (x - px (gridToPixel (gridX (pixelToGrid x y)) (gridY (pixelToGrid x y))))
    <= GRID_SIZE / 2 /\
  Math_abs (y - py (gridToPixel (gridX (pixelToGrid x y)) (gridY (pixelToGrid x y))))
    <= GRID_SIZE / 2.
Proof.
  split; [|split; [|split]].
  - apply gridToPixel_in_cell.
  - unfold pixelToGrid. split.
    + intro E. injection E as Ex Ey.
      split; apply cell_index; assumption.
    + intros [Hx Hy]. f_equal; apply cell_index; assumption.
  - unfold pixelToGrid, gridToPixel. cbn [px py gridX gridY].
    pose proof (cell_of x) as H. set (c := inject_Z _) in *. clearbody c.
    assert (E : GRID_SIZE / 2 == 32) by reflexivity.
    set (half := GRID_SIZE / 2) in *. clearbody half.
    unfold Math_abs, GRID_SIZE in *. qcase; lra.
  - unfold pixelToGrid, gridToPixel. cbn [px py gridX gridY].
    pose proof (cell_of y) as H. set (c := inject_Z _) in *. clearbody c.
    assert (E : GRID_SIZE / 2 == 32) by reflexivity.
    set (half := GRID_SIZE / 2) in *. clearbody half.
    unfold Math_abs, GRID_SIZE in *. qcase; lra.
Qed.

(** X11.  The cell of a pixel is a valid grid position exactly when the
    pixel lies in the 12 by 9 whole cells of the canvas: [0 <= x < 768]
    and [0 <= y < 576]. *)
Theorem valid_cells_region (x y : Q) :
  isValidGridPosition (gridX (pixelToGrid x y)) (gridY (pixelToGrid x y)) = true
  <-> (0 <= x < 768 /\ 0 <= y < 576).
Proof.
  unfold isValidGridPosition, pixelToGrid. cbn [gridX gridY]. cbv zeta.
  change (Qfloor (CANVAS_WIDTH / GRID_SIZE)) with 12%Z.
  change (Qfloor (CANVAS_HEIGHT / GRID_SIZE)) with 9%Z.
  pose proof (cell_of x) as Hx. pose proof (cell_of y) as Hy.
  set (cx := Qfloor (x / GRID_SIZE)) in *. set (cy := Qfloor (y / GRID_SIZE)) in *.
  clearbody cx cy. unfold GRID_SIZE in *.
  rewrite !andb_true_iff, !Z.leb_le, !Z.ltb_lt.
  split.
  - intros [[[H1 H2] H3] H4].
    assert (A1 : inject_Z 0 <= inject_Z cx) by (rewrite <- Zle_Qle; exact H1).
    assert (A2 : inject_Z cx <= inject_Z 11) by (rewrite <- Zle_Qle; lia).
    assert (A3 : inject_Z 0 <= inject_Z cy) by (rewrite <- Zle_Qle; exact H3).
    assert (A4 : inject_Z cy <= inject_Z 8) by (rewrite <- Zle_Qle; lia).
    change (inject_Z 0) with 0 in *. change (inject_Z 11) with 11 in *.
    change (inject_Z 8) with 8 in *.
    set (qx := inject_Z cx) in *. set (qy := inject_Z cy) in *. clearbody qx qy.
    lra.
  - intros [[H1 H2] [H3 H4]].
    assert (A1 : inject_Z (-1) < inject_Z cx).
    { change (inject_Z (-1)) with (-1). set (qx := inject_Z cx) in *. clearbody qx. lra. }
    assert (A2 : inject_Z cx < inject_Z 12).
    { change (inject_Z 12) with 12. set (qx := inject_Z cx) in *. clearbody qx. lra. }
    assert (A3 : inject_Z (-1) < inject_Z cy).
    { change (inject_Z (-1)) with (-1). set (qy := inject_Z cy) in *. clearbody qy. lra. }
    assert (A4 : inject_Z cy < inject_Z 9).
    { change (inject_Z 9) with 9. set (qy := inject_Z cy) in *. clearbody qy. lra. }
    rewrite <- Zlt_Qlt in A1, A2, A3, A4. lia.
Qed.

End GridFacts.

Module MapCells.
Import Grid GameMap MapCalls.

Lemma inGrid_set_cell (x y x' y' : Z) (c : Cell) (m : t) :
  inGrid (set_cell x y c m) x' y' = inGrid m x' y'.
Proof. reflexivity. Qed.

Lemma cell_set_here (x y : Z) (c : Cell) (m : t) :
  occupiedCells (set_cell x y c m) y x = c.
Proof. cbn [occupiedCells set_cell]. rewrite !Z.eqb_refl. reflexivity. Qed.

Lemma cell_set_elsewhere (x y x' y' : Z) (c : Cell) (m : t) :
  (x', y') <> (x, y) ->
  occupiedCells (set_cell x y c m) y' x' = occupiedCells m y' x'.
Proof.
  intro Hne. cbn [occupiedCells set_cell].
  destruct (y' =? y)%Z eqn:Ey; [|reflexivity].
  destruct (x' =? x)%Z eqn:Ex; [|reflexivity].
  apply Z.eqb_eq in Ey, Ex. subst. contradiction.
Qed.

Lemma call_grid (c : Call) (m : t) (x y : Z) : inGrid (call m c) x y = inGrid m x y.
Proof.
  destruct c as [cx cy k|cx cy]; cbn [call]; unfold occupyCell, freeCell.
  - destruct (inGrid m cx cy); reflexivity.
  - destruct (inGrid m cx cy); [|reflexivity]. cbv zeta.
    destruct (negb _); reflexivity.
Qed.

(** A call keeps the path flag of every cell, and keeps path cells
    occupied. *)
Lemma call_path (c : Call) (m : t) (x y : Z) :
  isPath (occupiedCells (call m c) y x) = isPath (occupiedCells m y x) /\
  (isPath (occupiedCells m y x) = true -> occupied (occupiedCells m y x) = true ->
   occupied (occupiedCells (call m c) y x) = true).
Proof.
  destruct c as [cx cy k|cx cy]; cbn [call]; unfold occupyCell, freeCell.
  - destruct (inGrid m cx cy); [|tauto].
    cbn [occupiedCells set_cell].
    destruct (y =? cy)%Z eqn:Ey; destruct (x =? cx)%Z eqn:Ex; cbn [andb]; try tauto.
    apply Z.eqb_eq in Ey, Ex. subst. cbn [isPath occupied]. tauto.
  - destruct (inGrid m cx cy); [|tauto]. cbv zeta.
    destruct (isPath (occupiedCells m cy cx)) eqn:Hp; cbn [negb]; [tauto|].
    cbn [occupiedCells set_cell].
    destruct (y =? cy)%Z eqn:Ey; destruct (x =? cx)%Z eqn:Ex; cbn [andb]; try tauto.
    apply Z.eqb_eq in Ey, Ex. subst. cbn [isPath occupied].
    split; [symmetry; exact Hp|]. rewrite Hp. discriminate.
Qed.

Lemma calls_path (cs : list Call) :
  forall m x y,
  isPath (occupiedCells m y x) = true -> occupied (occupiedCells m y x) = true ->
  occupied (occupiedCells (calls cs m) y x) = true.
Proof.
  unfold calls. induction cs as [|c cs IH]; intros m x y Hp Ho; cbn [fold_left].
  - exact Ho.
  - destruct (call_path c m x y) as [Ep Hkeep].
    apply IH; [rewrite Ep; exact Hp|apply Hkeep; assumption].
Qed.

Lemma calls_grid (cs : list Call) (x y : Z) :
  forall m, inGrid (calls cs m) x y = inGrid m x y.
Proof.
  unfold calls. induction cs as [|c cs IH]; intro m; cbn [fold_left]; [reflexivity|].
  rewrite IH. apply call_grid.
Qed.

Section WithMath.
Context {M : MathLib}.

(** X12.  Path cells are never free for a tower.  Whatever cells are
    occupied and freed on a new map, a cell of the grid that the map marks
    as path stays occupied: [isValidTowerPlacement] refuses it and
    [getCellInfo] returns a cell that is occupied. *)
Theorem path_cells_stay_blocked (cs : list Call) (gridX0 gridY0 : Z)
    (Hgrid : inGrid new gridX0 gridY0 = true)
    (Hpath : isPath (occupiedCells new gridY0 gridX0) = true) :
  isValidTowerPlacement gridX0 gridY0 (calls cs new) = false /\
  exists cell,
    getCellInfo gridX0 gridY0 (calls cs new) = Some cell /\
    occupied cell = true.
Proof.
  assert (Hocc : occupied (occupiedCells (calls cs new) gridY0 gridX0) = true).
  { apply calls_path; exact Hpath. }
  split.
  - unfold isValidTowerPlacement.
    destruct (negb (isValidGridPosition gridX0 gridY0)); [reflexivity|].
    destruct (inGrid (calls cs new) gridX0 gridY0); [|reflexivity].
    rewrite Hocc. reflexivity.
  - exists (occupiedCells (calls cs new) gridY0 gridX0). split; [|exact Hocc].
    unfold getCellInfo. rewrite calls_grid, Hgrid. reflexivity.
Qed.

End WithMath.

(** The cell in column 1 of row 4 lies on the path: freeing it does not
    open it to a tower. *)
Lemma path_cells_stay_blocked_witness :
  isValidTowerPlacement 1 4
    (calls [FreeCell 1 4; OccupyCell 1 4 Tower.BASIC; FreeCell 1 4]
       (@new table_math)) = false.
Proof.
  apply (@path_cells_stay_blocked table_math
           [FreeCell 1 4; OccupyCell 1 4 Tower.BASIC; FreeCell 1 4] 1%Z 4%Z);
    vm_compute; reflexivity.
Defined.

Lemma occupyCell_blocks (m : t) (gridX0 gridY0 : Z) (kind : Tower.Kind) :
  isValidTowerPlacement gridX0 gridY0 (occupyCell gridX0 gridY0 kind m) = false.
Proof.
  unfold isValidTowerPlacement, occupyCell.
  destruct (negb (isValidGridPosition gridX0 gridY0)); [reflexivity|].
  destruct (inGrid m gridX0 gridY0) eqn:Hg.
  - rewrite inGrid_set_cell, Hg, cell_set_here. reflexivity.
  - rewrite Hg. reflexivity.
Qed.

(** X13.  Occupying and freeing a cell.  After [occupyCell] the cell is
    refused by [isValidTowerPlacement]; [occupyCell] and [freeCell] leave
    the answer for every other cell as it was; a cell that was accepted
    and is not on the path is accepted again once it has been occupied and
    freed; and outside the grid [occupyCell] and [freeCell] do nothing and
    [getCellInfo] returns null. *)
Theorem occupy_free_cell (m : t) (gridX0 gridY0 : Z) (kind : Tower.Kind) :
  isValidTowerPlacement gridX0 gridY0 (occupyCell gridX0 gridY0 kind m) = false /\
  (forall x y, (x, y) <> (gridX0, gridY0) ->
     isValidTowerPlacement x y (occupyCell gridX0 gridY0 kind m)
       = isValidTowerPlacement x y m /\
     isValidTowerPlacement x y (freeCell gridX0 gridY0 m)
       = isValidTowerPlacement x y m) /\
  (isValidTowerPlacement gridX0 gridY0 m = true ->
   isPath (occupiedCells m gridY0 gridX0) = false ->
   isValidTowerPlacement gridX0 gridY0
     (freeCell gridX0 gridY0 (occupyCell gridX0 gridY0 kind m)) = true) /\
  (inGrid m gridX0 gridY0 = false ->
   occupyCell gridX0 gridY0 kind m = m /\ freeCell gridX0 gridY0 m = m /\
   getCellInfo gridX0 gridY0 m = None).
Proof.
  split; [|split; [|split]].
  - apply occupyCell_blocks.
  - intros x y Hne. unfold isValidTowerPlacement, occupyCell, freeCell.
    destruct (negb (isValidGridPosition x y)); [split; reflexivity|].
    destruct (inGrid m gridX0 gridY0); [|split; reflexivity]. cbv zeta.
    split.
    + rewrite inGrid_set_cell, cell_set_elsewhere by exact Hne. reflexivity.
    + destruct (negb (isPath (occupiedCells m gridY0 gridX0))); [|reflexivity].
      rewrite inGrid_set_cell, cell_set_elsewhere by exact Hne. reflexivity.
  - unfold isValidTowerPlacement, occupyCell, freeCell.
    destruct (negb (isValidGridPosition gridX0 gridY0)); [discriminate|].
    destruct (inGrid m gridX0 gridY0) eqn:Hg; [|discriminate].
    intros _ Hp. rewrite inGrid_set_cell, Hg, cell_set_here. cbv zeta.
    cbn [isPath]. rewrite Hp. cbn [negb].
    rewrite inGrid_set_cell, inGrid_set_cell, Hg, cell_set_here. reflexivity.
  - intro Hg. unfold occupyCell, freeCell, getCellInfo. rewrite Hg. tauto.
Qed.

End MapCells.

Module TowerPurchase.
Import EconomyManager.

Lemma cost_whole (k : Tower.Kind) :
  exists n, (0 < n < 2 ^ 53)%Z /\ cost k = inject_Z n.
Proof.
  destruct k; [exists 100%Z|exists 250%Z|exists 175%Z]; split; reflexivity || lia.
Qed.

Section WithMath.
Context {M : MathLib}.

Lemma purchase_rejected (towerType : option Tower.Kind) (e : t) :
  snd (processTowerPurchase towerType e) = false ->
  fst (processTowerPurchase towerType e) = e.
Proof.
  destruct towerType as [kind|]; [|reflexivity].
  apply EconomyLedger.spendMoney_rejected.
Qed.

(** X9.  The price of a tower.  With the cost multiplier at 1,
    [processTowerPurchase] of a tower type succeeds exactly when the money
    covers the cost of the type; it then takes the cost from the money,
    adds it to [stats.totalSpent] and counts one more tower built.  When it
    fails the manager is unchanged, and a type that names no tower is
    refused without any change. *)
Theorem tower_purchase_price (kind : Tower.Kind) (e : t)
    (Hpar : costMultiplier e == 1) :
  (snd (processTowerPurchase (Some kind) e) = true <-> cost kind <= money e) /\
  (snd (processTowerPurchase (Some kind) e) = true ->
     money (fst (processTowerPurchase (Some kind) e)) == money e - cost kind /\
     totalSpent (stats (fst (processTowerPurchase (Some kind) e)))
       == totalSpent (stats e) + cost kind /\
     towersBuilt (stats (fst (processTowerPurchase (Some kind) e)))
       = (towersBuilt (stats e) + 1)%Z) /\
  (snd (processTowerPurchase (Some kind) e) = false ->
     fst (processTowerPurchase (Some kind) e) = e) /\
  processTowerPurchase None e = (e, false).
Proof.
  destruct (cost_whole kind) as (n & Hn & Hcost).
  assert (Hpos : 0 < inject_Z n).
  { change 0 with (inject_Z 0). rewrite <- Zlt_Qlt. lia. }
  assert (Hdouble : double (inject_Z n) == inject_Z n)
    by (apply double_whole; lia).
  assert (floor_at_par : Math_floor (double (inject_Z n * costMultiplier e))
                         = inject_Z n).
  { apply EconomyLedger.floor_at_par; [exact Hpar|reflexivity|exact Hdouble]. }
  unfold processTowerPurchase. cbv zeta. unfold getFinalCost.
  rewrite Hcost, floor_at_par.
  pose proof (EconomyLedger.spendMoney_succeeds (inject_Z n) tower_purchase e) as Hiff.
  pose proof (EconomyLedger.spendMoney_fields (inject_Z n) tower_purchase e) as Hok.
  cbv zeta in Hok.
  rewrite floor_at_par in Hok.
  rewrite !floor_at_par in Hiff.
  split; [|split; [|split; [apply EconomyLedger.spendMoney_rejected|reflexivity]]].
  - rewrite Hiff. tauto.
  - intro Hs. destruct (Hok Hs) as (Hm & Hsp & _).
    rewrite Hm, Hsp. split; [reflexivity|]. split; [reflexivity|].
    revert Hs. unfold spendMoney. destruct (Qleb (inject_Z n) 0); [discriminate|].
    cbv zeta. destruct (negb _); [discriminate|]. intros _. reflexivity.
Qed.

End WithMath.

(** The starting money buys a basic tower and leaves 400. *)
Lemma tower_purchase_price_witness :
  snd (@processTowerPurchase table_math (Some Tower.BASIC) (new STARTING_MONEY))
    = true /\
  money (fst (@processTowerPurchase table_math (Some Tower.BASIC)
                (new STARTING_MONEY)))
    == 400.
Proof.
  destruct (@tower_purchase_price table_math Tower.BASIC (new STARTING_MONEY))
    as (Hiff & Hpaid & _); [reflexivity|].
  assert (Hs : snd (@processTowerPurchase table_math (Some Tower.BASIC)
                      (new STARTING_MONEY))
               = true) by (apply Hiff; vm_compute; discriminate).
  split; [exact Hs|].
  rewrite (proj1 (Hpaid Hs)). vm_compute. reflexivity.
Defined.

End TowerPurchase.

Module TowerPlacement.
Import Grid GameFrame.

Lemma set_economyManager_same (g : t) : set_economyManager (economyManager g) g = g.
Proof. destruct g. reflexivity. Qed.

Section WithMath.
Context {M : MathLib}.

(** X14.  Placing a tower.  [attemptTowerPlacement] either changes nothing,
    or a tower type was selected, the cell of the pixel was accepted by
    [isValidTowerPlacement] and the purchase succeeded; then one tower of
    that type is added at the centre of the cell, which lies in the same
    cell, the cell is occupied, the selection is cleared, and a further
    attempt at any pixel of that cell changes nothing, whatever type is
    selected.  In both cases the enemies and the lives are as they
    were. *)
Theorem attemptTowerPlacement_outcome (x y : Q) (g : t) :
  let cell := pixelToGrid x y in
  let centre := gridToPixel (gridX cell) (gridY cell) in
  let g' := attemptTowerPlacement x y g in
  (g' = g \/
   exists kind,
     selectedTowerType g = Some kind /\
     GameMap.isValidTowerPlacement (gridX cell) (gridY cell) (map g) = true /\
     EconomyManager.processTowerPurchase (Some kind) (economyManager g)
       = (economyManager g', true) /\
     towers g' = towers g ++ [Tower.new kind (px centre) (py centre)] /\
     pixelToGrid (px centre) (py centre) = cell /\
     map g' = GameMap.occupyCell (gridX cell) (gridY cell) kind (map g) /\
     selectedTowerType g' = None /\
     forall kind2 x2 y2, pixelToGrid x2 y2 = cell ->
       attemptTowerPlacement x2 y2 (selectTowerType kind2 g')
       = selectTowerType kind2 g') /\
  enemies g' = enemies g /\ heap g' = heap g /\ lives g' = lives g.
Proof.
  intros cell centre g'. subst g'. unfold attemptTowerPlacement. fold cell.
  destruct (GameMap.isValidTowerPlacement (gridX cell) (gridY cell) (map g)) eqn:Hv;
    cbn [negb]; [|split; [left; reflexivity|repeat split]].
  destruct (selectedTowerType g) as [kind|] eqn:Hsel.
  - destruct (EconomyManager.processTowerPurchase (Some kind) (economyManager g))
      as [economy bought] eqn:Hbuy.
    destruct bought.
    + cbn [selectedTowerType set_economyManager]. rewrite Hsel. cbv zeta.
      split; [|repeat split].
      right. exists kind. fold centre.
      split; [reflexivity|]. split; [reflexivity|].
      split; [rewrite Hbuy; reflexivity|]. split; [reflexivity|].
      split; [apply GridFacts.gridToPixel_in_cell|].
      split; [reflexivity|]. split; [reflexivity|].
      intros kind2 x2 y2 Hcell. unfold attemptTowerPlacement. rewrite Hcell.
      cbn [map selectTowerType set_selectedTowerType set_stats_moneySpent
           set_stats_towersBuilt set_map set_towers set_economyManager].
      rewrite MapCells.occupyCell_blocks.
      reflexivity.
    + assert (He : economy = economyManager g).
      { pose proof (TowerPurchase.purchase_rejected (Some kind) (economyManager g)) as H.
        rewrite Hbuy in H. apply H. reflexivity. }
      subst economy. rewrite set_economyManager_same.
      split; [left; reflexivity|repeat split].
  - cbn [EconomyManager.processTowerPurchase]. rewrite set_economyManager_same.
    cbn [selectedTowerType]. rewrite Hsel.
    split; [left; reflexivity|repeat split].
Qed.

End WithMath.

End TowerPlacement.

Module TowerTargets.
Import Tower TowerControls TargetingSpec TowerTargeting.

Lemma fold_picks (f : ref -> ref -> ref) :
  (forall a b, f a b = a \/ f a b = b) ->
  forall rest first, In (fold_left f rest first) (first :: rest).
Proof.
  intro Hf. induction rest as [|x rest IH]; intro first; cbn [fold_left].
  - left. reflexivity.
  - destruct (IH (f first x)) as [E|Hin].
    + destruct (Hf first x) as [E1|E1]; [left|right; left]; congruence.
    + right. right. exact Hin.
Qed.


Section WithMath.
Context {M : MathLib}.

Lemma reduce_In (f : ref -> ref -> ref) (l : list ref) (r : ref) :
  (forall a b, f a b = a \/ f a b = b) -> reduce f l = Some r -> In r l.
Proof.
  intros Hf E. destruct l as [|first rest]; [discriminate|].
  unfold reduce in E. injection E as <-. apply fold_picks. exact Hf.
Qed.

Lemma selectBestTarget_In (valid : list ref) (h : Heap) (w : t) (r : ref) :
  selectBestTarget valid h w = Some r -> In r valid.
Proof.
  unfold selectBestTarget. destruct valid as [|first rest]; [discriminate|].
  destruct (targetingMode w); intro E;
    try (match type of E with
         | reduce ?f _ = _ => apply (reduce_In f); [|exact E]
         end;
         intros a b; cbv zeta;
         match goal with |- context [if ?c then _ else _] => destruct c end;
         [right|left]; reflexivity).
  injection E as <-. left. reflexivity.
Qed.

Lemma selectBestTarget_some (first : ref) (rest : list ref) (h : Heap) (w : t) :
  exists r, selectBestTarget (first :: rest) h w = Some r.
Proof.
  unfold selectBestTarget. destruct (targetingMode w); unfold reduce; eexists; reflexivity.
Qed.

Lemma findTarget_kept (enemies : list ref) (h : Heap) (w : t) :
  targetIsValid h w = true -> findTarget enemies h w = w.
Proof.
  intro Hv. unfold findTarget. unfold targetIsValid in Hv.
  destruct (target w) as [r|] eqn:Ht; [|discriminate].
  apply andb_true_iff in Hv. destruct Hv as [Ha Hr].
  rewrite Ha, Hr. cbn [negb orb]. unfold targetIsValid. rewrite Ht, Ha, Hr.
  reflexivity.
Qed.

Lemma targetIsValid_set_target (h : Heap) (w : t) (r : ref) :
  targetIsValid h (set_target (Some r) w) = Enemy.alive (h r) && isInRange w (h r).
Proof. reflexivity. Qed.

(** X15.  What [findTarget] leaves in [target].  A target that is alive and
    in range is kept, and the tower is unchanged.  Otherwise the tower has
    no target afterwards when no enemy of the array is alive and in range,
    and a target taken from the array when there is one.  Whatever target
    it leaves is alive and in range, and the position, the range and the
    targeting mode of the tower are as they were. *)
Theorem findTarget_target (enemies : list ref) (h : Heap) (w : t) :
  (targetIsValid h w = true -> findTarget enemies h w = w) /\
  (targetIsValid h w = false -> validTargets enemies h w = [] ->
     target (findTarget enemies h w) = None) /\
  (targetIsValid h w = false -> validTargets enemies h w <> [] ->
     exists r, target (findTarget enemies h w) = Some r /\ In r enemies) /\
  (forall r, target (findTarget enemies h w) = Some r ->
     Enemy.alive (h r) = true /\ isInRange w (h r) = true /\
     targetIsValid h (findTarget enemies h w) = true) /\
  position (findTarget enemies h w) = position w /\
  range (findTarget enemies h w) = range w /\
  targetingMode (findTarget enemies h w) = targetingMode w.
Proof.
  destruct (targetIsValid h w) eqn:Hv.
  - rewrite (findTarget_kept enemies h w Hv).
    split; [reflexivity|]. split; [discriminate|]. split; [discriminate|].
    split; [|repeat split].
    intros r Hr. unfold targetIsValid in Hv. rewrite Hr in Hv.
    apply andb_true_iff in Hv. destruct Hv as [Ha Hi].
    split; [exact Ha|]. split; [exact Hi|].
    unfold targetIsValid. rewrite Hr, Ha, Hi. reflexivity.
  - pose proof (findTarget_acquires enemies h w Hv) as Hacq.
    assert (Hfields : position (findTarget enemies h w) = position w /\
                      range (findTarget enemies h w) = range w /\
                      targetingMode (findTarget enemies h w) = targetingMode w).
    { unfold findTarget.
      destruct (target w) as [r0|];
        [destruct (negb (Enemy.alive (h r0)) || negb (isInRange w (h r0)))|];
        match goal with
        | |- context [if targetIsValid h ?x then _ else _] =>
            destruct (targetIsValid h x)
        end;
        try (repeat split; reflexivity);
        match goal with
        | |- context [match validTargets enemies h ?x with _ => _ end] =>
            destruct (validTargets enemies h x)
        end; repeat split; reflexivity. }
    split; [discriminate|].
    split; [intros _ He; rewrite Hacq, He; reflexivity|].
    split; [|split; [|exact Hfields]].
    + intros _ Hne. rewrite Hacq.
      destruct (validTargets enemies h w) as [|first rest] eqn:Hval; [congruence|].
      destruct (selectBestTarget_some first rest h w) as [r Hr].
      exists r. split; [exact Hr|].
      apply selectBestTarget_In in Hr. rewrite <- Hval in Hr.
      apply validTargets_spec in Hr. tauto.
    + intros r Hr. rewrite Hacq in Hr.
      pose proof (selectBestTarget_In _ h w r Hr) as Hin.
      apply validTargets_spec in Hin. destruct Hin as (_ & Ha & Hi).
      split; [exact Ha|]. split; [exact Hi|].
      destruct Hfields as (Ep & Er & _).
      unfold targetIsValid. rewrite Hacq, Hr. rewrite Ha. cbn [andb].
      unfold isInRange in *. rewrite Ep, Er. exact Hi.
Qed.


End WithMath.


End TowerTargets.

Module TowerAngles.
Import Tower.

Section WithMath.
Context {M : MathLib}.

Lemma PI_between : 7 # 3 <= Math_PI /\ 2 * Math_PI <= 7.
Proof. unfold Math_PI. split; unfold Qle; simpl; lia. Qed.

(** An angle of at most 7 in size, which is more than a turn and less than
    a turn and a half, leaves the loops after at most one turn. *)
Lemma normalizeAngle_one_turn (a : Q) :
  -7 <= a <= 7 ->
  exists r, normalizeAngle 2 a = Some r /\ - Math_PI <= r <= Math_PI.
Proof.
  intros [Hlow Hup]. destruct PI_between as [P1 P2].
  unfold normalizeAngle. cbn [wrapAbove].
  destruct (Qltb Math_PI a) eqn:E1.
  - apply Qltb_lt in E1.
    destruct (Rounding.double_within_PI (a - 2 * Math_PI)) as [D1 D2]; [lra|].
    apply Qltb_ge in D2. rewrite D2. cbn [wrapBelow].
    apply Qltb_ge in D1. rewrite D1.
    eexists. split; [reflexivity|]. apply Qltb_ge in D1, D2. lra.
  - apply Qltb_ge in E1. cbn [wrapBelow].
    destruct (Qltb a (- Math_PI)) eqn:E2.
    + apply Qltb_lt in E2.
      destruct (Rounding.double_within_PI (a + 2 * Math_PI)) as [D1 D2]; [lra|].
      apply Qltb_ge in D1. rewrite D1.
      eexists. split; [reflexivity|]. apply Qltb_ge in D1. lra.
    + apply Qltb_ge in E2. eexists. split; [reflexivity|]. lra.
Qed.

Lemma updateVisualEffects_turret (dt : Q) (w : t) :
  rotationAngle (updateVisualEffects dt w) = rotationAngle w /\
  rotationSpeed (updateVisualEffects dt w) = rotationSpeed w.
Proof.
  unfold updateVisualEffects.
  destruct (Qltb 0 (muzzleFlash w)); [|split; reflexivity].
  cbv zeta. destruct (Qltb _ 0); split; reflexivity.
Qed.

Lemma findTarget_turret (enemies : list ref) (h : Heap) (w : t) :
  rotationAngle (findTarget enemies h w) = rotationAngle w /\
  rotationSpeed (findTarget enemies h w) = rotationSpeed w.
Proof.
  unfold findTarget. cbv zeta.
  set (w0 := match target w with
             | Some r => if negb (Enemy.alive (h r)) || negb (isInRange w (h r))
                         then set_target None w else w
             | None => w
             end).
  assert (E0 : rotationAngle w0 = rotationAngle w /\
               rotationSpeed w0 = rotationSpeed w).
  { unfold w0. destruct (target w) as [r|]; [|split; reflexivity].
    destruct (negb (Enemy.alive (h r)) || negb (isInRange w (h r)));
      split; reflexivity. }
  destruct (targetIsValid h w0); [exact E0|].
  destruct (validTargets enemies h w0); exact E0.
Qed.

Lemma shoot_turret (now : Q) (h : Heap) (w : t) :
  rotationAngle (fst (shoot now h w)) = rotationAngle w /\
  rotationSpeed (fst (shoot now h w)) = rotationSpeed w.
Proof.
  unfold shoot. destruct (call_canShoot now w) as [can| |]; try (split; reflexivity).
  destruct (target w); [|split; reflexivity].
  destruct (negb can); split; reflexivity.
Qed.

Lemma attemptShoot_turret (now : Q) (h : Heap) (w : t) :
  rotationAngle (fst (attemptShoot now h w)) = rotationAngle w /\
  rotationSpeed (fst (attemptShoot now h w)) = rotationSpeed w /\
  snd (attemptShoot now h w) <> Hangs.
Proof.
  unfold attemptShoot.
  destruct (call_canShoot now w) as [can| |] eqn:Ec;
    try (repeat split; try reflexivity; discriminate).
  - destruct (negb can); [repeat split; try reflexivity; discriminate|].
    destruct (negb (targetIsValid h w));
      [repeat split; try reflexivity; discriminate|].
    destruct (Qltb 0.1 (misalignment w));
      [repeat split; try reflexivity; discriminate|].
    destruct (shoot_turret now h w) as [S1 S2].
    assert (Hs : snd (shoot now h w) <> Hangs).
    { unfold shoot. rewrite Ec. destruct (target w); [|discriminate].
      destruct (negb can); discriminate. }
    destruct (shoot now h w) as [w' [p|err|]]; cbn [fst snd] in *;
      repeat split; try assumption; try discriminate. congruence.
  - unfold call_canShoot in Ec. destruct (own_canShoot w); discriminate.
Qed.

(** One call of [updateRotation] on a turret that is normalised. *)
Lemma updateRotation_normalised (fuel : nat) (dt : Q) (h : Heap) (w : t) :
  (forall y x : Q, - Math_PI <= Math_atan2 y x <= Math_PI) ->
  - Math_PI <= rotationAngle w <= Math_PI ->
  0 <= rotationSpeed w -> 0 <= dt ->
  exists w', updateRotation (2 + fuel) dt h w = Some w' /\
             - Math_PI <= rotationAngle w' <= Math_PI /\
             rotationSpeed w' = rotationSpeed w.
Proof.
  intros Hatan2 Hangle Hspeed Htime. destruct PI_between as [P1 P2].
  unfold updateRotation. destruct (target w) as [r|];
    [|exists w; split; [reflexivity|split; [exact Hangle|reflexivity]]].
  cbv zeta. unfold Helpers.angleBetween.
  set (T := Math_atan2 _ _). pose proof (Hatan2 (py (Enemy.position (h r)) - py (position w))
                                           (px (Enemy.position (h r)) - px (position w))) as HT.
  fold T in HT.
  destruct (normalizeAngle_one_turn (double (T - rotationAngle w)))
    as (nd & E1 & Hnd); [apply Rounding.double_within_7; lra|].
  rewrite (TowerRotation.normalizeAngle_more 2 fuel _ _ E1).
  set (step := double (rotationSpeed w * double (dt / 1000))).
  assert (Hstep : 0 <= step).
  { unfold step. apply Rounding.double_nonneg. apply Qmult_le_0_compat; [exact Hspeed|].
    apply Rounding.double_nonneg. apply Qle_shift_div_l; lra. }
  destruct (Qltb (Math_abs nd) step) eqn:Ecmp.
  - rewrite (TowerRotation.normalizeAngle_more 2 fuel T T
               (TowerRotation.normalizeAngle_small 1 T HT)).
    eexists. split; [reflexivity|]. split; [exact HT|reflexivity].
  - apply Qltb_ge in Ecmp.
    assert (Habs : Math_abs nd <= Math_PI).
    { unfold Math_abs. qcase; lra. }
    assert (Hturn : - Math_PI <= Math_sign nd * step <= Math_PI).
    { unfold Math_sign. qcase; lra. }
    apply Rounding.double_within_PI in Hturn.
    destruct (normalizeAngle_one_turn
                (double (rotationAngle w + double (Math_sign nd * step))))
      as (rot & E2 & Hrot); [apply Rounding.double_within_7; lra|].
    rewrite (TowerRotation.normalizeAngle_more 2 fuel _ _ E2).
    eexists. split; [reflexivity|]. split; [exact Hrot|reflexivity].
Qed.

(** X18.  The turret's angle stays normalised.  Take a tower whose
    [rotationAngle] lies between -PI and PI and whose [rotationSpeed] is
    not negative, an elapsed time that is not negative, and a [Math.atan2]
    that answers between -PI and PI.  In doubles, each of the loops of
    [updateRotation] then ends after at most one turn: [updateRotation]
    returns, and so [update] never hangs, and after them [rotationAngle]
    lies between -PI and PI again and [rotationSpeed] is as it was.  A new
    tower has the angle 0 and the speed 5. *)
Theorem turret_angle_normalised (fuel : nat) (enemies : list ref)
    (dt now : Q) (h : Heap) (w : t)
    (Hatan2 : forall y x : Q, - Math_PI <= Math_atan2 y x <= Math_PI)
    (Hangle : - Math_PI <= rotationAngle w <= Math_PI)
    (Hspeed : 0 <= rotationSpeed w)
    (Htime : 0 <= dt) :
  (exists w', updateRotation (2 + fuel) dt h w = Some w' /\
              - Math_PI <= rotationAngle w' <= Math_PI /\
              rotationSpeed w' = rotationSpeed w) /\
  snd (update (2 + fuel) enemies dt now h w) <> Hangs /\
  - Math_PI <= rotationAngle (fst (update (2 + fuel) enemies dt now h w))
    <= Math_PI /\
  rotationSpeed (fst (update (2 + fuel) enemies dt now h w)) = rotationSpeed w /\
  (forall k x y, rotationAngle (new k x y) = 0 /\ rotationSpeed (new k x y) = 5).
Proof.
  split; [apply updateRotation_normalised; assumption|].
  assert (Hnew : forall k x y,
            rotationAngle (new k x y) = 0 /\ rotationSpeed (new k x y) = 5)
    by (intros k x y; split; reflexivity).
  unfold update. destruct (negb (active w)).
  { cbn [fst snd]. split; [discriminate|]. split; [exact Hangle|].
    split; [reflexivity|exact Hnew]. }
  cbv zeta.
  set (w1 := set_timeActive (stats_timeActive w + dt) w).
  destruct (updateVisualEffects_turret dt w1) as [V1 V2].
  destruct (findTarget_turret enemies h (updateVisualEffects dt w1)) as [F1 F2].
  set (w3 := findTarget enemies h (updateVisualEffects dt w1)) in *.
  assert (A3 : rotationAngle w3 = rotationAngle w) by (rewrite F1, V1; reflexivity).
  assert (S3 : rotationSpeed w3 = rotationSpeed w) by (rewrite F2, V2; reflexivity).
  destruct (updateRotation_normalised fuel dt h w3 Hatan2)
    as (w4 & E & Hw4 & S4); [rewrite A3; exact Hangle|rewrite S3; exact Hspeed
                            |exact Htime|].
  rewrite E.
  destruct (attemptShoot_turret now h w4) as (T1 & T2 & T3).
  split; [exact T3|]. split; [rewrite T1; exact Hw4|].
  split; [rewrite T2, S4; exact S3|exact Hnew].
Qed.

End WithMath.

Lemma atan2_table_range (y x : Q) :
  - Math_PI <= atan2_table y x <= Math_PI.
Proof.
  unfold atan2_table.
  assert (P : 0 < Math_PI) by reflexivity.
  change (Math_PI / 2) with (Math_PI * (1 # 2)).
  destruct (Qeq_bool y 0); [destruct (Qltb x 0); lra|].
  destruct (Qeq_bool x 0); [destruct (Qltb 0 y)|]; lra.
Qed.

(** The tower of the examples turns towards the enemy on its left. *)
Lemma turret_angle_normalised_witness :
  - Math_PI
  <= rotationAngle
       (fst (@update table_math 2 [0%nat] 16 CombatScenario.clock
               CombatScenario.enemy_left CombatScenario.tower_built))
  <= Math_PI.
Proof.
  assert (Hangle : - Math_PI <= rotationAngle CombatScenario.tower_built <= Math_PI)
    by (split; vm_compute; discriminate).
  assert (Hspeed : 0 <= rotationSpeed CombatScenario.tower_built)
    by (vm_compute; discriminate).
  assert (Htime : 0 <= 16) by (vm_compute; discriminate).
  exact (proj1 (proj2 (proj2
    (@turret_angle_normalised table_math 0 [0%nat] 16 CombatScenario.clock
       CombatScenario.enemy_left CombatScenario.tower_built
       atan2_table_range Hangle Hspeed Htime)))).
Defined.

End TowerAngles.

Module TowerCooldown.
Import Tower TowerFrames CooldownSpec.

Section WithMath.
Context {M : MathLib}.

Lemma findTarget_clock (enemies : list ref) (h : Heap) (w : t) :
  sameClock w (findTarget enemies h w).
Proof.
  unfold sameClock, findTarget.
  destruct (target w) as [r0|];
    [destruct (negb (Enemy.alive (h r0)) || negb (isInRange w (h r0)))|];
    match goal with
    | |- context [if targetIsValid h ?x then _ else _] =>
        destruct (targetIsValid h x)
    end;
    try (repeat split; reflexivity);
    match goal with
    | |- context [match validTargets enemies h ?x with _ => _ end] =>
        destruct (validTargets enemies h x)
    end; repeat split; reflexivity.
Qed.

Lemma updateRotation_clock (fuel : nat) (dt : Q) (h : Heap) (w w' : t) :
  updateRotation fuel dt h w = Some w' -> sameClock w w'.
Proof.
  unfold sameClock, updateRotation.
  destruct (target w); [|intro E; injection E as <-; repeat split; reflexivity].
  cbv zeta.
  repeat match goal with
  | |- context [normalizeAngle fuel ?a] =>
      destruct (normalizeAngle fuel a); [|discriminate]
  end.
  intro E. injection E as <-. repeat split; reflexivity.
Qed.

Lemma updateVisualEffects_clock (dt : Q) (w : t) :
  sameClock w (updateVisualEffects dt w).
Proof.
  unfold sameClock, updateVisualEffects.
  destruct (Qltb 0 (muzzleFlash w)); [|repeat split; reflexivity]. cbv zeta.
  destruct (Qltb _ 0); repeat split; reflexivity.
Qed.

(** [shoot]: a projectile is returned only when the cooldown has elapsed,
    and the shot is stamped with the clock. *)
Lemma shoot_clock (now : Q) (h : Heap) (w : t) :
  shotCooldown (fst (shoot now h w)) = shotCooldown w /\
  own_canShoot (fst (shoot now h w)) = own_canShoot w /\
  match snd (shoot now h w) with
  | Returns (Some _) =>
      lastShotTime (fst (shoot now h w)) = now /\
      shotCooldown w <= now - lastShotTime w
  | _ => fst (shoot now h w) = w
  end.
Proof.
  unfold shoot, call_canShoot, canShoot_method.
  destruct (own_canShoot w) eqn:Eo;
    [cbn [fst snd]; rewrite Eo; repeat split; reflexivity|].
  destruct (target w); [|cbn [fst snd]; rewrite Eo; repeat split; reflexivity].
  destruct (Qleb (shotCooldown w) (now - lastShotTime w)) eqn:E; cbn [negb fst snd].
  - apply Qleb_le in E. repeat split; try reflexivity; assumption.
  - rewrite Eo. repeat split; reflexivity.
Qed.

Lemma attemptShoot_clock (now : Q) (h : Heap) (w : t) :
  shotCooldown (fst (attemptShoot now h w)) = shotCooldown w /\
  own_canShoot (fst (attemptShoot now h w)) = own_canShoot w /\
  (lastShotTime (fst (attemptShoot now h w)) = lastShotTime w \/
   lastShotTime (fst (attemptShoot now h w)) = now).
Proof.
  unfold attemptShoot.
  destruct (call_canShoot now w) as [can|err|]; [|cbn [fst]; tauto..].
  destruct (negb can); [cbn [fst]; tauto|].
  destruct (negb (targetIsValid h w)); [cbn [fst]; tauto|].
  destruct (Qltb 0.1 (misalignment w)); [cbn [fst]; tauto|].
  destruct (shoot_clock now h w) as (Hc & Ho & Hl).
  destruct (shoot now h w) as [w' [[p|]|err|]]; cbn [fst snd] in *;
    (split; [exact Hc|]); (split; [exact Ho|]).
  - right. apply Hl.
  - left. rewrite Hl. reflexivity.
  - left. rewrite Hl. reflexivity.
  - left. rewrite Hl. reflexivity.
Qed.

Lemma update_clock (fuel : nat) (enemies : list ref) (dt now : Q) (h : Heap)
    (w : t) :
  shotCooldown (fst (update fuel enemies dt now h w)) = shotCooldown w /\
  own_canShoot (fst (update fuel enemies dt now h w)) = own_canShoot w /\
  (lastShotTime (fst (update fuel enemies dt now h w)) = lastShotTime w \/
   lastShotTime (fst (update fuel enemies dt now h w)) = now).
Proof.
  unfold update. destruct (negb (active w)); [cbn [fst]; tauto|]. cbv zeta.
  set (w1 := set_timeActive (stats_timeActive w + dt) w).
  destruct (updateVisualEffects_clock dt w1) as (A1 & A2 & A3).
  set (w2 := updateVisualEffects dt w1) in *.
  destruct (findTarget_clock enemies h w2) as (B1 & B2 & B3).
  set (w3 := findTarget enemies h w2) in *.
  change (shotCooldown w1) with (shotCooldown w) in A1.
  change (own_canShoot w1) with (own_canShoot w) in A2.
  change (lastShotTime w1) with (lastShotTime w) in A3.
  destruct (updateRotation fuel dt h w3) as [w4|] eqn:E.
  - destruct (updateRotation_clock fuel dt h w3 w4 E) as (C1 & C2 & C3).
    destruct (attemptShoot_clock now h w4) as (D1 & D2 & D3).
    split; [congruence|]. split; [congruence|].
    destruct D3 as [D3|D3]; [left; congruence|right; exact D3].
  - cbn [fst]. split; [congruence|]. split; [congruence|]. left. congruence.
Qed.

(** One turn of the tower in a frame. *)
Lemma turn_clock (fuel : nat) (f : Frame) (w : t) :
  shotCooldown (fst (turn fuel f w)) = shotCooldown w /\
  (lastShotTime (fst (turn fuel f w)) = lastShotTime w \/
   lastShotTime (fst (turn fuel f w)) = frame_now f) /\
  (Game.emitted_projectile (snd (turn fuel f w)) = true ->
     lastShotTime (fst (turn fuel f w)) = frame_now f /\
     (shotCooldown w <= frame_now f - lastShotTime w \/ shotCooldown w <= 0)).
Proof.
  unfold turn, Game.updateTower.
  destruct (update_clock fuel (frame_enemies f) (frame_deltaTime f) (frame_now f)
              (frame_heap f) w) as (U1 & U2 & U3).
  destruct (update fuel (frame_enemies f) (frame_deltaTime f) (frame_now f)
              (frame_heap f) w) as [w1 [[]|err|]]; cbn [fst snd] in *.
  - unfold call_canShoot.
    destruct (own_canShoot w1); [cbn [fst snd Game.emitted_projectile];
      split; [exact U1|]; split; [exact U3|discriminate]|].
    destruct (canShoot_method (frame_now f) w1) eqn:Ecan;
      [|cbn [fst snd Game.emitted_projectile];
        split; [exact U1|]; split; [exact U3|discriminate]].
    destruct (target w1) as [r|] eqn:Et;
      [|cbn [fst snd Game.emitted_projectile];
        split; [exact U1|]; split; [exact U3|discriminate]].
    destruct (shoot_clock (frame_now f) (frame_heap f) w1) as (S1 & S2 & S3).
    destruct (shoot (frame_now f) (frame_heap f) w1) as [w2 [[p|]|err|]];
      cbn [fst snd Game.emitted_projectile] in *.
    + destruct S3 as [S3 S4]. split; [congruence|]. split; [right; exact S3|].
      intros _. split; [exact S3|].
      rewrite U1 in S4. destruct U3 as [U3|U3]; rewrite U3 in S4.
      * left. exact S4.
      * right. lra.
    + subst w2. split; [exact U1|]. split; [exact U3|discriminate].
    + subst w2. split; [exact U1|]. split; [exact U3|discriminate].
    + subst w2. split; [exact U1|]. split; [exact U3|discriminate].
  - split; [exact U1|]. split; [exact U3|discriminate].
  - split; [exact U1|]. split; [exact U3|discriminate].
Qed.

Lemma shotTimes_spaced (fuel : nat) (frames : list Frame) :
  forall w,
  StronglySorted Qle (map frame_now frames) ->
  Forall (fun f => lastShotTime w <= frame_now f) frames ->
  StronglySorted (fun a b => shotCooldown w <= b - a) (shotTimes fuel frames w) /\
  Forall (fun t => lastShotTime w <= t /\
                   (0 < shotCooldown w -> shotCooldown w <= t - lastShotTime w))
    (shotTimes fuel frames w).
Proof.
  induction frames as [|f rest IH]; intros w Hclock Hstart; cbn [shotTimes].
  - split; constructor.
  - cbn [map] in Hclock. apply StronglySorted_inv in Hclock.
    destruct Hclock as [Hrest Hhead].
    inversion Hstart as [|? ? Hf Hstart']; subst.
    destruct (turn_clock fuel f w) as (Hc & Hl & Hemit).
    destruct (turn fuel f w) as [w' o] eqn:Eturn. cbn [fst snd] in *.
    assert (Hlater : Forall (fun f' => lastShotTime w' <= frame_now f') rest).
    { rewrite Forall_forall in *. intros f' Hin.
      destruct Hl as [-> | ->]; [apply Hstart'; exact Hin|].
      apply Hhead. apply in_map. exact Hin. }
    assert (Hup : lastShotTime w <= lastShotTime w').
    { destruct Hl as [-> | ->]; [lra|exact Hf]. }
    destruct (IH w' Hrest Hlater) as [IHs IHf]. rewrite Hc in IHs, IHf.
    assert (IHf' : Forall (fun t => lastShotTime w <= t /\
                     (0 < shotCooldown w -> shotCooldown w <= t - lastShotTime w))
                     (shotTimes fuel rest w')).
    { rewrite Forall_forall in *. intros t Hin. destruct (IHf t Hin) as [A B].
      split; [lra|]. intro Hpos. specialize (B Hpos). lra. }
    destruct o as [[p|]|err|].
    + destruct (Hemit eq_refl) as [Hnow Hcool].
      split.
      * constructor; [exact IHs|].
        rewrite Forall_forall in *. intros t Hin. destruct (IHf t Hin) as [A B].
        rewrite Hnow in A, B.
        destruct (Qlt_le_dec 0 (shotCooldown w)) as [Hpos|Hneg];
          [exact (B Hpos)|lra].
      * constructor; [|exact IHf'].
        split; [exact Hf|]. intro Hpos. destruct Hcool as [Hcool|Hcool]; lra.
    + split; assumption.
    + split; constructor.
    + split; constructor.
Qed.

(** X17.  The game never pushes two projectiles of a tower less than the
    cooldown apart.  Over frames whose clock readings do not decrease and
    are not earlier than the tower's last shot, the readings of the frames
    in which the game pushes a projectile of the tower lie at least
    [shotCooldown] apart, pairwise, and with a positive cooldown at least
    [shotCooldown] after that last shot.  For a tower that has its own
    property [canShoot] no projectile is pushed at all.  This holds
    however many tests of the loops of [updateRotation] the model
    follows. *)
Theorem shots_respect_cooldown (fuel : nat) (frames : list Frame) (w : t)
    (Hclock : StronglySorted Qle (map frame_now frames))
    (Hstart : Forall (fun f => lastShotTime w <= frame_now f) frames) :
  StronglySorted (fun a b => shotCooldown w <= b - a) (shotTimes fuel frames w) /\
  Forall (fun t => 0 < shotCooldown w -> shotCooldown w <= t - lastShotTime w)
    (shotTimes fuel frames w) /\
  (forall b, own_canShoot w = Some b -> shotTimes fuel frames w = []).
Proof.
  destruct (shotTimes_spaced fuel frames w Hclock Hstart) as [Hs Hf].
  split; [exact Hs|]. split.
  - rewrite Forall_forall in *. intros t Hin. apply (Hf t Hin).
  - intros b Hown. destruct frames as [|f rest]; [reflexivity|].
    cbn [shotTimes]. unfold turn, Game.updateTower.
    pose proof (update_clock fuel (frame_enemies f) (frame_deltaTime f)
                  (frame_now f) (frame_heap f) w) as (_ & U2 & _).
    destruct (update fuel (frame_enemies f) (frame_deltaTime f) (frame_now f)
                (frame_heap f) w) as [w1 [[]|err|]]; cbn [fst] in U2;
      [|reflexivity..].
    unfold call_canShoot. rewrite U2, Hown. reflexivity.
Qed.

End WithMath.

(** Three frames of the tower of the examples, as constructed. *)
Lemma shots_respect_cooldown_witness :
  let frames := map DefenceScenario.frame_at
                  [CombatScenario.clock; CombatScenario.clock + 100;
                   CombatScenario.clock + 600] in
  @shotTimes table_math 8 frames CombatScenario.tower_built = [] /\
  StronglySorted (fun a b => shotCooldown CombatScenario.tower_built <= b - a)
    (@shotTimes table_math 8 frames CombatScenario.tower_built).
Proof.
  intro frames.
  assert (Hclock : StronglySorted Qle (map TowerFrames.frame_now frames))
    by (repeat constructor; vm_compute; discriminate).
  assert (Hstart : Forall (fun f => lastShotTime CombatScenario.tower_built
                                    <= TowerFrames.frame_now f) frames)
    by (repeat constructor; vm_compute; discriminate).
  destruct (@shots_respect_cooldown table_math 8 frames
              CombatScenario.tower_built Hclock Hstart) as (Hs & _ & Hnone).
  split; [exact (Hnone true eq_refl)|exact Hs].
Defined.

End TowerCooldown.

Module ProjectileFlight.
Import Helpers Projectile ProjectileHit.

Section WithMath.
Context {M : MathLib}.

Lemma adjustTrajectory_fields (p : t) (h : Heap) :
  active (adjustTrajectory p h) = active p /\
  position (adjustTrajectory p h) = position p /\
  timeAlive (adjustTrajectory p h) = timeAlive p /\
  distanceTraveled (adjustTrajectory p h) = distanceTraveled p /\
  markedForRemoval (adjustTrajectory p h) = markedForRemoval p /\
  damage (adjustTrajectory p h) = damage p /\
  splash (adjustTrajectory p h) = splash p /\
  splashRadius (adjustTrajectory p h) = splashRadius p.
Proof.
  unfold adjustTrajectory.
  destruct (negb (targetIsAlive p h)); [repeat split|]. cbv zeta.
  destruct (Qltb 0 _); repeat split.
Qed.

(** The configuration of a projectile is never assigned after
    construction. *)
Lemma updatePosition_config (dt : Q) (p : t) (h : Heap) :
  damage (updatePosition dt p h) = damage p /\
  splash (updatePosition dt p h) = splash p /\
  splashRadius (updatePosition dt p h) = splashRadius p.
Proof.
  unfold updatePosition. cbv zeta.
  destruct (Qltb maxDistance _); [repeat split|].
  match goal with
  | |- context [if ?c then adjustTrajectory ?q h else _] =>
      destruct (adjustTrajectory_fields q h) as (_ & _ & _ & _ & _ & Hd & Hs & Hr);
      destruct c; rewrite ?Hd, ?Hs, ?Hr
  end; repeat split.
Qed.



Lemma hit_config (r : ref) (enemies : list ref) (p : t) (h : Heap) :
  damage (fst (hit r enemies p h)) = damage p /\
  splash (fst (hit r enemies p h)) = splash p /\
  splashRadius (fst (hit r enemies p h)) = splashRadius p.
Proof.
  unfold hit. destruct (hasHit p); [repeat split|]. cbv zeta.
  destruct (heap_takeDamage _ r h) as [h1 killed]. repeat split.
Qed.


Lemma checkBounds_config (p : t) :
  damage (checkBounds p) = damage p /\ splash (checkBounds p) = splash p /\
  splashRadius (checkBounds p) = splashRadius p.
Proof. unfold checkBounds. destruct (negb _); repeat split. Qed.


Lemma update_config (dt : Q) (enemies : list ref) (p : t) (h : Heap) :
  damage (fst (update dt enemies p h)) = damage p /\
  splash (fst (update dt enemies p h)) = splash p /\
  splashRadius (fst (update dt enemies p h)) = splashRadius p.
Proof.
  unfold update. destruct (negb (active p)); [repeat split|]. cbv zeta.
  destruct (Qltb maxLifetime _); [repeat split|].
  set (p0 := set_timeAlive (timeAlive p + dt) p).
  destruct (updatePosition_config dt p0 h) as (Hd & Hs & Hr).
  set (p1 := updatePosition dt p0 h) in *.
  destruct (checkCollisions_cases enemies p1 h) as [E|[_ [r E]]]; rewrite E.
  - cbn [fst]. destruct (checkBounds_config p1) as (Bd & Bs & Br).
    rewrite Bd, Bs, Br, Hd, Hs, Hr. repeat split.
  - destruct (hit_config r enemies p1 h) as (Xd & Xs & Xr).
    destruct (hit r enemies p1 h) as [p2 h2]. cbn [fst] in *.
    destruct (checkBounds_config p2) as (Bd & Bs & Br).
    rewrite Bd, Bs, Br, Xd, Xs, Xr, Hd, Hs, Hr. repeat split.
Qed.

(** The enemies after one frame: as before, or as one [hit] leaves them. *)
Lemma update_heap (dt : Q) (enemies : list ref) (p : t) (h : Heap) :
  snd (update dt enemies p h) = h \/
  exists r p1,
    hasHit p1 = false /\ damage p1 = damage p /\ splash p1 = splash p /\
    splashRadius p1 = splashRadius p /\
    snd (update dt enemies p h) = snd (hit r enemies p1 h) /\
    hasHit (fst (update dt enemies p h)) = true.
Proof.
  unfold update. destruct (negb (active p)); [left; reflexivity|]. cbv zeta.
  destruct (Qltb maxLifetime _); [left; reflexivity|].
  set (p0 := set_timeAlive (timeAlive p + dt) p).
  destruct (updatePosition_config dt p0 h) as (Hd & Hs & Hr).
  set (p1 := updatePosition dt p0 h) in *.
  destruct (checkCollisions_cases enemies p1 h) as [E|[Hfresh [r E]]]; rewrite E.
  - left. reflexivity.
  - right. exists r, p1.
    pose proof (hit_sets_flag r enemies p1 h) as Hflag.
    destruct (hit r enemies p1 h) as [p2 h2]. cbn [fst snd] in *.
    rewrite checkBounds_hasHit. repeat split; assumption.
Qed.



(** The enemies after [hit] by a projectile without splash. *)
Lemma hit_plain (r : ref) (enemies : list ref) (p : t) (h : Heap) :
  hasHit p = false -> splash p = false \/ splashRadius p <= 0 ->
  snd (hit r enemies p h) = heap_set h r (fst (Enemy.takeDamage (damage p) (h r))).
Proof.
  intros Hfresh Hplain. rewrite (hit_heap p h r enemies Hfresh). cbv zeta.
  destruct Hplain as [Hs|Hr].
  - rewrite Hs. reflexivity.
  - apply Qltb_ge in Hr. rewrite Hr, andb_false_r. reflexivity.
Qed.

(** X20.  A projectile without splash (the flag off, or a radius that is
    not positive) changes at most one enemy in its life: after any run of
    frames the enemies are as they were, or as they were but for one, which
    has taken the projectile's damage once. *)
Theorem plain_projectile_one_victim (frames : list (Q * list ref)) (p : t) (h : Heap)
    (Hplain : splash p = false \/ splashRadius p <= 0) :
  snd (updates frames p h) = h \/
  exists r,
    snd (updates frames p h)
    = heap_set h r (fst (Enemy.takeDamage (damage p) (h r))).
Proof.
  revert p h Hplain.
  induction frames as [|[dt enemies] frames IH]; intros p h Hplain.
  - left. reflexivity.
  - cbn [updates].
    destruct (update_config dt enemies p h) as (Cd & Cs & Cr).
    destruct (update_heap dt enemies p h)
      as [E|(r & p1 & Hfresh & Hd & Hs & Hr & E & Hflag)].
    + destruct (update dt enemies p h) as [p2 h2]. cbn [fst snd] in *. subst h2.
      destruct (IH p2 h) as [IH1|[r IH1]].
      * rewrite Cs, Cr. exact Hplain.
      * left. exact IH1.
      * right. exists r. rewrite IH1, Cd. reflexivity.
    + destruct (update dt enemies p h) as [p2 h2]. cbn [fst snd] in *.
      destruct (updates_resolved frames p2 h2 Hflag) as [Eh _].
      right. exists r. rewrite Eh, E.
      rewrite (hit_plain r enemies p1 h Hfresh) by (rewrite Hs, Hr; exact Hplain).
      rewrite Hd. reflexivity.
Qed.

End WithMath.


Lemma plain_projectile_one_victim_witness :
  let h := snd (@updates table_math [(16, [0%nat; 1%nat]); (16, [0%nat; 1%nat])]
                  CombatScenario.plain_projectile CombatScenario.three_enemies) in
  h = CombatScenario.three_enemies \/
  exists r,
    h = heap_set CombatScenario.three_enemies r
          (fst (Enemy.takeDamage (damage CombatScenario.plain_projectile)
                  (CombatScenario.three_enemies r))).
Proof.
  apply (@plain_projectile_one_victim table_math
           [(16, [0%nat; 1%nat]); (16, [0%nat; 1%nat])]
           CombatScenario.plain_projectile CombatScenario.three_enemies).
  left. reflexivity.
Defined.

End ProjectileFlight.

Module SpawnQueue.
Import WaveManager QueueSpec WaveQueue.

Lemma pushGroup_spec (g : EnemyGroup) (count : nat) :
  forall queue toSpawn,
  pushGroup g count queue toSpawn
  = (queue ++ map (fun i => {| entry_type := group_type g;
                               spawnTime := inject_Z (Z.of_nat (toSpawn + i))
                                            * group_spawnInterval g |})
                (seq 0 count),
     (toSpawn + count)%nat).
Proof.
  induction count as [|count IH]; intros queue toSpawn; cbn [pushGroup].
  - cbn [seq map]. rewrite app_nil_r, Nat.add_0_r. reflexivity.
  - rewrite IH. cbn [seq map]. rewrite <- app_assoc. cbn [app].
    rewrite Nat.add_0_r, <- seq_shift, map_map.
    f_equal; [|lia]. f_equal. f_equal. apply map_ext. intro i.
    rewrite <- Nat.add_succ_comm. reflexivity.
Qed.

Lemma pushGroups_spec (groups : list EnemyGroup) :
  forall queue toSpawn,
  pushGroups groups queue toSpawn
  = (queue ++ expected groups toSpawn, (toSpawn + total groups)%nat).
Proof.
  induction groups as [|g rest IH]; intros queue toSpawn;
    cbn [pushGroups expected total fold_right].
  - rewrite app_nil_r, Nat.add_0_r. reflexivity.
  - rewrite pushGroup_spec, IH. rewrite <- app_assoc.
    f_equal. fold (total rest). lia.
Qed.

Lemma length_expected (groups : list EnemyGroup) :
  forall offset, length (expected groups offset) = total groups.
Proof.
  induction groups as [|g rest IH]; intro offset; cbn [expected total fold_right];
    [reflexivity|].
  rewrite length_app, length_map, length_seq, IH. reflexivity.
Qed.

(** Setting one element to the value found at [j] and then putting the
    first element there is a permutation. *)
Lemma list_set_exchange {A : Type} (x b : A) (q : list A) :
  forall j, nth_error q j = Some b -> Permutation (b :: list_set j x q) (x :: q).
Proof.
  induction q as [|y q IH]; intros [|j] Hj; cbn [nth_error] in Hj; try discriminate.
  - injection Hj as ->. cbn [list_set]. apply perm_swap.
  - cbn [list_set]. eapply perm_trans; [apply perm_swap|].
    eapply perm_trans; [apply perm_skip; apply IH; exact Hj|]. apply perm_swap.
Qed.

Lemma swap_permutation (q : list SpawnEntry) :
  forall i j, Permutation (swap i j q) q.
Proof.
  unfold swap. induction q as [|x q IH]; intros i j.
  - destruct i, j; reflexivity.
  - destruct i as [|i], j as [|j]; cbn [nth_error].
    + reflexivity.
    + destruct (nth_error q j) as [b|] eqn:Hj; [|reflexivity].
      cbn [list_set]. apply list_set_exchange. exact Hj.
    + destruct (nth_error q i) as [a|] eqn:Hi; [|reflexivity].
      cbn [list_set]. apply list_set_exchange. exact Hi.
    + specialize (IH i j).
      destruct (nth_error q i) as [a|]; [|reflexivity].
      destruct (nth_error q j) as [b|]; [|reflexivity].
      cbn [list_set]. apply perm_skip. exact IH.
Qed.

Lemma fisherYates_permutation (random : nat -> Q) (i : nat) :
  forall k q, Permutation (fisherYates random i k q) q.
Proof.
  induction i as [|i IH]; intros k q; cbn [fisherYates]; [reflexivity|].
  eapply perm_trans; [apply IH|apply swap_permutation].
Qed.

Lemma retime_types (q : list SpawnEntry) :
  forall index, map entry_type (retime index q) = map entry_type q.
Proof.
  induction q as [|e q IH]; intro index; cbn [retime map]; [reflexivity|].
  rewrite IH. reflexivity.
Qed.

Lemma retime_times (q : list SpawnEntry) :
  forall index k e, nth_error (retime index q) k = Some e ->
  spawnTime e = inject_Z (Z.of_nat (index + k)) * 800.
Proof.
  induction q as [|x q IH]; intros index [|k] e; cbn [retime nth_error];
    try discriminate.
  - intro E. injection E as <-. cbn [spawnTime]. rewrite Nat.add_0_r. reflexivity.
  - intro E. rewrite (IH (S index) k e E). rewrite Nat.add_succ_comm. reflexivity.
Qed.

(** X21.  The spawn queue of a wave.  [prepareSpawnQueue] sets
    [enemiesToSpawn] and the length of the queue to the sum of the counts
    of the groups.  Before the fourth wave the queue lists the groups in
    their order, the entry of number [n] of the queue, counted from 0, due
    at [n] times the interval of its group.  From the fourth wave on, the
    types of the queue are a permutation of those, and the entry at place
    [k] is due at [k] times 800.  The queue is shuffled exactly when
    [currentWave] is 3 or more. *)
Theorem spawn_queue_contents (env : Env) (data : WaveDef) (w : t) :
  enemiesToSpawn (prepareSpawnQueue env data w) = total (wave_enemies data) /\
  length (spawnQueue (prepareSpawnQueue env data w)) = total (wave_enemies data) /\
  (shouldShuffleSpawnOrder w = false ->
     spawnQueue (prepareSpawnQueue env data w) = expected (wave_enemies data) 0) /\
  (shouldShuffleSpawnOrder w = true ->
     Permutation (map entry_type (spawnQueue (prepareSpawnQueue env data w)))
       (map entry_type (expected (wave_enemies data) 0)) /\
     forall k e, nth_error (spawnQueue (prepareSpawnQueue env data w)) k = Some e ->
       spawnTime e = inject_Z (Z.of_nat k) * 800) /\
  (shouldShuffleSpawnOrder w = true <-> (3 <= currentWave w)%nat).
Proof.
  unfold prepareSpawnQueue. rewrite pushGroups_spec. cbn [app Nat.add].
  change (shouldShuffleSpawnOrder
            (set_enemiesToSpawn (total (wave_enemies data))
               (set_spawnQueue (expected (wave_enemies data) 0) w)))
    with (shouldShuffleSpawnOrder w).
  destruct (shouldShuffleSpawnOrder w) eqn:Es.
  - unfold shuffleSpawnQueue.
    cbn [spawnQueue enemiesToSpawn set_spawnQueue set_enemiesToSpawn].
    split; [reflexivity|].
    split; [rewrite length_retime, length_fisherYates; apply length_expected|].
    split; [discriminate|]. split.
    + intros _. split.
      * rewrite retime_types. apply Permutation_map. apply fisherYates_permutation.
      * intros k e Hk. apply (retime_times _ 0%nat k e Hk).
    + unfold shouldShuffleSpawnOrder in Es. apply Nat.leb_le in Es. tauto.
  - cbn [spawnQueue enemiesToSpawn set_spawnQueue set_enemiesToSpawn].
    split; [reflexivity|]. split; [apply length_expected|].
    split; [reflexivity|]. split; [discriminate|].
    unfold shouldShuffleSpawnOrder in Es. apply Nat.leb_gt in Es.
    split; [discriminate|lia].
Qed.

End SpawnQueue.

Module WaveControls.
Import WaveManager WaveInfo WaveStart.

Lemma getCurrentWaveData_some (w : t) :
  totalWaves w = length (waveData w) -> (currentWave w < totalWaves w)%nat ->
  exists data, getCurrentWaveData w = Some data.
Proof.
  intros Ht Hlt. unfold getCurrentWaveData.
  destruct (length (waveData w) <=? currentWave w)%nat eqn:E.
  - apply Nat.leb_le in E. lia.
  - destruct (nth_error (waveData w) (currentWave w)) as [data|] eqn:En.
    + exists data. reflexivity.
    + apply nth_error_None in En. lia.
Qed.

(** A wave that starts is in progress, with nothing spawned yet. *)
Lemma startNextWave_fields (env : Env) (manual : bool) (w : t) :
  snd (startNextWave env manual w) = true ->
  totalWaves w = length (waveData w) ->
  waveInProgress (fst (startNextWave env manual w)) = true /\
  waveComplete (fst (startNextWave env manual w)) = false /\
  enemiesSpawned (fst (startNextWave env manual w)) = 0%nat /\
  currentWave (fst (startNextWave env manual w)) = currentWave w /\
  waveStartTime (fst (startNextWave env manual w)) = now env.
Proof.
  unfold startNextWave.
  destruct (waveInProgress w || allWavesComplete w); [discriminate|].
  destruct (totalWaves w <=? currentWave w)%nat eqn:El; [discriminate|].
  apply Nat.leb_gt in El. cbv zeta. cbn [fst snd]. intros _ Ht.
  set (w0 := if manual && isCountingDown w
             then set_waveCountdown 0 (set_isCountingDown false w) else w).
  assert (H0 : totalWaves w0 = length (waveData w0) /\
               currentWave w0 = currentWave w /\ totalWaves w0 = totalWaves w).
  { unfold w0. destruct (manual && isCountingDown w); repeat split; exact Ht. }
  destruct H0 as (Ht0 & Hc0 & Htw0).
  destruct (getCurrentWaveData_some w0 Ht0) as [data Hd]; [lia|].
  destruct (emit_fields (onWaveStart (initializeWave env w0))
              (WaveStart (currentWave (initializeWave env w0) + 1)
                 (getCurrentWaveData (initializeWave env w0)))
              (initializeWave env w0)) as (_ & _ & Ec & Ep & Erest).
  rewrite Ec, Ep.
  assert (Hinit : waveInProgress (initializeWave env w0) = true /\
                  waveComplete (initializeWave env w0) = false /\
                  enemiesSpawned (initializeWave env w0) = 0%nat /\
                  currentWave (initializeWave env w0) = currentWave w0 /\
                  waveStartTime (initializeWave env w0) = now env).
  { unfold initializeWave. rewrite Hd. cbv zeta.
    destruct (prepareSpawnQueue_countdown env data
                (set_waveStartTime (now env)
                   (set_waveComplete false (set_waveInProgress true w0))))
      as (_ & _ & Qc & Qp).
    cbn [waveInProgress waveComplete enemiesSpawned currentWave waveStartTime
         set_nextSpawnTime set_lastSpawnTime set_enemiesSpawned].
    rewrite Qc, Qp.
    unfold prepareSpawnQueue.
    destruct (pushGroups (wave_enemies data) [] 0) as [queue toSpawn].
    destruct (shouldShuffleSpawnOrder _); repeat split; reflexivity. }
  destruct Hinit as (I1 & I2 & I3 & I4 & I5).
  split; [exact I1|]. split; [exact I2|].
  unfold emit. destruct (onWaveStart (initializeWave env w0));
    cbn [enemiesSpawned currentWave waveStartTime set_emitted];
    rewrite I3, I4, I5, Hc0; repeat split; reflexivity.
Qed.

(** X22.  The interface offers a start exactly when [startNextWave] starts:
    the value [startNextWave] returns is [canStartWave] of
    [getCurrentWaveInfo].  When it returns false, the manager is unchanged
    or has only completed all waves.  When it returns true, and
    [totalWaves] is the length of the wave data, the wave is in progress
    and not complete, nothing is spawned yet, [currentWave] is as it was
    and the wave's start time is the clock reading. *)
Theorem canStartWave_iff_started (env : Env) (manual : bool) (w : t) :
  snd (startNextWave env manual w) = info_canStartWave (getCurrentWaveInfo w) /\
  (snd (startNextWave env manual w) = false ->
     fst (startNextWave env manual w) = w \/
     fst (startNextWave env manual w) = completeAllWaves w) /\
  (snd (startNextWave env manual w) = true ->
     totalWaves w = length (waveData w) ->
     waveInProgress (fst (startNextWave env manual w)) = true /\
     waveComplete (fst (startNextWave env manual w)) = false /\
     enemiesSpawned (fst (startNextWave env manual w)) = 0%nat /\
     currentWave (fst (startNextWave env manual w)) = currentWave w /\
     waveStartTime (fst (startNextWave env manual w)) = now env).
Proof.
  split; [|split; [|apply startNextWave_fields]].
  - unfold getCurrentWaveInfo. cbn [info_canStartWave]. unfold startNextWave.
    destruct (waveInProgress w); cbn [orb negb andb]; [reflexivity|].
    destruct (allWavesComplete w); cbn [negb andb]; [reflexivity|].
    destruct (totalWaves w <=? currentWave w)%nat eqn:El.
    + apply Nat.leb_le in El.
      assert (Elt : (currentWave w <? totalWaves w)%nat = false)
        by (apply Nat.ltb_ge; exact El).
      rewrite Elt. reflexivity.
    + apply Nat.leb_gt in El.
      assert (Elt : (currentWave w <? totalWaves w)%nat = true)
        by (apply Nat.ltb_lt; exact El).
      rewrite Elt. reflexivity.
  - unfold startNextWave.
    destruct (waveInProgress w || allWavesComplete w);
      [left; reflexivity|].
    destruct (totalWaves w <=? currentWave w)%nat;
      [right; reflexivity|discriminate].
Qed.

End WaveControls.

Module WaveBonus.
Import WaveManager.

Lemma completeCurrentWave_event (env : Env) (w : t) :
  waveComplete w = false -> onWaveComplete w = true ->
  emitted (completeCurrentWave env w)
  = emitted w
    ++ [WaveComplete (currentWave w + 1) (now env - waveStartTime w)
          (if (length (waveData w) <=? currentWave w + 1)%nat then None
           else nth_error (waveData w) (currentWave w + 1))].
Proof.
  intros Hfresh Hcb. unfold completeCurrentWave. rewrite Hfresh. cbv zeta.
  unfold updateWaveStats. cbv zeta.
  cbn [onWaveComplete currentWave waveStartTime stats set_stats set_currentWave
       set_waveInProgress set_waveComplete].
  rewrite Hcb. unfold emit, startWaveCountdown.
  match goal with
  | |- context [if ?c then _ else _] => destruct c
  end; reflexivity.
Qed.

Section WithMath.
Context {M : MathLib}.

(** X24.  What the handler of a completed wave receives.  When a wave that
    is not yet marked complete completes and a handler is installed,
    [completeCurrentWave] calls it once, with the new value of
    [currentWave], the time since the wave started, and the wave data at
    the new [currentWave]: the data of the wave that follows the one just
    completed, and null after the last wave.  With null,
    [Game.handleWaveComplete] throws a TypeError on reading the reward;
    with the data of a wave whose reward is positive, it returns and adds
    to the money that reward times the earnings multiplier, the product of
    doubles rounded down. *)
Theorem waveComplete_payload (env : Env) (w : t)
    (Hfresh : waveComplete w = false) (Hinstalled : onWaveComplete w = true) :
  let payload :=
    if (length (waveData w) <=? currentWave w + 1)%nat then None
    else nth_error (waveData w) (currentWave w + 1) in
  emitted (completeCurrentWave env w)
  = emitted w
    ++ [WaveComplete (currentWave w + 1) (now env - waveStartTime w) payload] /\
  currentWave (completeCurrentWave env w) = (currentWave w + 1)%nat /\
  ((currentWave w + 1 = length (waveData w))%nat ->
     payload = None /\
     forall g, snd (GameFrame.handleWaveComplete payload g) = Throws TypeError) /\
  (forall g data,
     payload = Some data -> 0 < wave_reward data ->
     snd (GameFrame.handleWaveComplete payload g) = Returns tt /\
     EconomyManager.money
       (GameFrame.economyManager (fst (GameFrame.handleWaveComplete payload g)))
     = EconomyManager.money (GameFrame.economyManager g)
       + Math_floor
           (double (wave_reward data
                    * EconomyManager.earningsMultiplier (GameFrame.economyManager g)))).
Proof.
  intro payload. split; [apply completeCurrentWave_event; assumption|].
  split; [|split].
  - unfold completeCurrentWave. rewrite Hfresh. cbv zeta.
    unfold updateWaveStats, emit, startWaveCountdown. cbv zeta.
    repeat match goal with
    | |- context [if ?c then _ else _] => destruct c
    end; reflexivity.
  - intro Hlast. unfold payload. rewrite Hlast, Nat.leb_refl.
    split; [reflexivity|]. intro g. reflexivity.
  - intros g data Hp Hpos. rewrite Hp. unfold GameFrame.handleWaveComplete.
    assert (Hnz : Qeq_bool (wave_reward data) 0 = false).
    { destruct (Qeq_bool (wave_reward data) 0) eqn:E; [|reflexivity].
      apply Qeq_bool_iff in E. lra. }
    rewrite Hnz. cbn [fst snd]. split; [reflexivity|].
    cbn [GameFrame.economyManager GameFrame.set_economyManager
         GameFrame.set_stats_wavesCompleted].
    apply (EconomyLedger.addMoney_fields (wave_reward data) EconomyManager.wave_bonus
             (GameFrame.economyManager g) Hpos).
Qed.

End WithMath.

(** The handler called at the end of the first wave is handed the data of
    the second. *)
Lemma waveComplete_payload_witness :
  emitted (completeCurrentWave (WaveScenario.at_time 10000)
             WaveScenario.game_wave1_started)
  = emitted WaveScenario.game_wave1_started
    ++ [WaveComplete 1 (10000 - waveStartTime WaveScenario.game_wave1_started)
          (nth_error WAVE_DATA 1)].
Proof.
  apply (proj1 (@waveComplete_payload table_math (WaveScenario.at_time 10000)
                  WaveScenario.game_wave1_started eq_refl eq_refl)).
Defined.

End WaveBonus.

Module SpawnPacing.
Import WaveManager.

Section WithMath.
Context {M : MathLib}.

Lemma getNextSpawnDelay_floor (w : t) (current next : SpawnEntry) (n : nat) :
  enemiesSpawned w = S n ->
  nth_error (spawnQueue w) n = Some current ->
  nth_error (spawnQueue w) (S n) = Some next ->
  500 <= getNextSpawnDelay w.
Proof.
  intros En Hc Hn. unfold getNextSpawnDelay. rewrite En, Hn, Hc.
  unfold Math_max. qcase; lra.
Qed.

Lemma getNextSpawnDelay_done (w : t) :
  nth_error (spawnQueue w) (enemiesSpawned w) = None -> getNextSpawnDelay w = 0.
Proof. intro Hn. unfold getNextSpawnDelay. rewrite Hn. reflexivity. Qed.

Lemma spawnNextEnemy_fields (env : Env) (w : t) (entry : SpawnEntry) :
  nth_error (spawnQueue w) (enemiesSpawned w) = Some entry ->
  enemiesSpawned (spawnNextEnemy env w) = S (enemiesSpawned w) /\
  enemiesToSpawn (spawnNextEnemy env w) = enemiesToSpawn w /\
  spawnQueue (spawnNextEnemy env w) = spawnQueue w /\
  lastSpawnTime (spawnNextEnemy env w) = now env /\
  totalEnemiesSpawned (stats (spawnNextEnemy env w))
  = (totalEnemiesSpawned (stats w) + 1)%Z /\
  enemies (spawnNextEnemy env w)
  = match onEnemySpawn w with
    | Some handler => handler (Enemy.new (entry_type entry)) (enemies w)
    | None => enemies w
    end /\
  emitted (spawnNextEnemy env w)
  = match onEnemySpawn w with
    | Some _ => emitted w ++ [EnemySpawn (Enemy.new (entry_type entry))]
    | None => emitted w
    end /\
  (forall next, nth_error (spawnQueue w) (S (enemiesSpawned w)) = Some next ->
     now env + 500 <= nextSpawnTime (spawnNextEnemy env w)) /\
  (nth_error (spawnQueue w) (S (enemiesSpawned w)) = None ->
     nextSpawnTime (spawnNextEnemy env w) = now env + 0).
Proof.
  intro He. unfold spawnNextEnemy. rewrite He. cbv zeta.
  destruct (onEnemySpawn w) as [handler|]; unfold emit;
    cbn [enemiesSpawned enemiesToSpawn spawnQueue lastSpawnTime stats enemies
         emitted nextSpawnTime totalEnemiesSpawned
         set_nextSpawnTime set_lastSpawnTime set_stats set_enemiesSpawned
         set_emitted set_enemies];
    rewrite Nat.add_1_r;
    (split; [reflexivity|]); (split; [reflexivity|]); (split; [reflexivity|]);
    (split; [reflexivity|]); (split; [reflexivity|]); (split; [reflexivity|]);
    (split; [reflexivity|]); split.
  - intros next Hn.
    match goal with
    | |- _ <= _ + getNextSpawnDelay ?x =>
        pose proof (getNextSpawnDelay_floor x entry next (enemiesSpawned w)
                      eq_refl He Hn) as Hd;
        set (delay := getNextSpawnDelay x) in *; clearbody delay
    end.
    lra.
  - intro Hn. rewrite getNextSpawnDelay_done; [reflexivity|exact Hn].
  - intros next Hn.
    match goal with
    | |- _ <= _ + getNextSpawnDelay ?x =>
        pose proof (getNextSpawnDelay_floor x entry next (enemiesSpawned w)
                      eq_refl He Hn) as Hd;
        set (delay := getNextSpawnDelay x) in *; clearbody delay
    end.
    lra.
  - intro Hn. rewrite getNextSpawnDelay_done; [reflexivity|exact Hn].
Qed.

(** X23.  One call spawns at most one enemy, and schedules the next.
    [processEnemySpawning] either changes nothing, or fewer enemies were
    spawned than the wave has, the spawn time had come and the queue has an
    entry at the place of the next enemy; it then counts one more enemy
    spawned, at most [enemiesToSpawn], in the wave and in the statistics,
    records the clock as the last spawn time, hands a new enemy of the
    entry's type to the spawn handler, if one is installed, and, when the
    queue has a further entry, sets the next spawn time at least 500 ms
    after the clock, so that a second call at the same clock reading
    changes nothing. *)
Theorem spawning_paced (env : Env) (w : t) :
  let w' := processEnemySpawning env w in
  w' = w \/
  (exists entry,
     nth_error (spawnQueue w) (enemiesSpawned w) = Some entry /\
     (enemiesSpawned w < enemiesToSpawn w)%nat /\
     nextSpawnTime w <= now env /\
     enemiesSpawned w' = S (enemiesSpawned w) /\
     (enemiesSpawned w' <= enemiesToSpawn w')%nat /\
     totalEnemiesSpawned (stats w') = (totalEnemiesSpawned (stats w) + 1)%Z /\
     lastSpawnTime w' = now env /\
     (forall handler, onEnemySpawn w = Some handler ->
        enemies w' = handler (Enemy.new (entry_type entry)) (enemies w) /\
        emitted w' = emitted w ++ [EnemySpawn (Enemy.new (entry_type entry))]) /\
     (forall next, nth_error (spawnQueue w') (enemiesSpawned w') = Some next ->
        now env + 500 <= nextSpawnTime w' /\
        processEnemySpawning env w' = w')).
Proof.
  intro w'. unfold w', processEnemySpawning.
  destruct (enemiesToSpawn w <=? enemiesSpawned w)%nat eqn:El; [left; reflexivity|].
  apply Nat.leb_gt in El.
  destruct (Qleb (nextSpawnTime w) (now env)) eqn:Et; [|left; reflexivity].
  apply Qleb_le in Et.
  destruct (nth_error (spawnQueue w) (enemiesSpawned w)) as [entry|] eqn:He.
  - right. exists entry.
    destruct (spawnNextEnemy_fields env w entry He)
      as (F1 & F2 & F3 & F4 & F5 & F6 & F7 & F8 & F9).
    split; [reflexivity|]. split; [exact El|]. split; [exact Et|].
    split; [exact F1|]. split; [rewrite F1, F2; lia|].
    split; [exact F5|]. split; [exact F4|]. split.
    + intros handler Hh. rewrite F6, F7, Hh. split; reflexivity.
    + intros next Hn. rewrite F3, F1 in Hn. specialize (F8 next Hn).
      split; [exact F8|].
      destruct (enemiesToSpawn (spawnNextEnemy env w)
                <=? enemiesSpawned (spawnNextEnemy env w))%nat; [reflexivity|].
      destruct (Qleb (nextSpawnTime (spawnNextEnemy env w)) (now env)) eqn:Eq;
        [|reflexivity].
      apply Qleb_le in Eq. lra.
  - left. unfold spawnNextEnemy. rewrite He. reflexivity.
Qed.

End WithMath.
End SpawnPacing.

Module WaveCountdown.
Import WaveManager WaveScenario WaveFrames.

Section WithMath.
Context {M : MathLib}.

Lemma update_ticks (env : Env) (deltaTime : Q) (currentEnemies : list Enemy.t)
    (w : t) :
  isCountingDown w = true -> waveInProgress w = false ->
  allWavesComplete w = false -> (currentWave w < totalWaves w)%nat ->
  deltaTime < waveCountdown w ->
  update env deltaTime currentEnemies w
  = set_waveCountdown (waveCountdown w - deltaTime) (set_enemies currentEnemies w).
Proof.
  intros Hc Hp Ha Hw Hd. unfold update. cbv zeta.
  cbn [isCountingDown set_enemies]. rewrite Hc.
  unfold updateCountdown. cbn [isCountingDown set_enemies negb]. rewrite Hc.
  cbn [negb]. cbv zeta. cbn [waveCountdown set_waveCountdown set_enemies].
  assert (Eq : Qleb (waveCountdown w - deltaTime) 0 = false)
    by (apply Qleb_gt; lra).
  rewrite Eq. cbn [waveInProgress set_waveCountdown set_enemies]. rewrite Hp.
  unfold checkAllWavesComplete.
  cbn [allWavesComplete currentWave totalWaves waveInProgress
       set_waveCountdown set_enemies].
  rewrite Ha.
  assert (El : (totalWaves w <=? currentWave w)%nat = false)
    by (apply Nat.leb_gt; exact Hw).
  rewrite El. reflexivity.
Qed.

Lemma run_ticks (frames : list (Env * Q * list Enemy.t)) :
  forall w,
  isCountingDown w = true -> waveInProgress w = false ->
  allWavesComplete w = false -> (currentWave w < totalWaves w)%nat ->
  Forall (fun frame => 0 <= snd (fst frame)) frames ->
  elapsed frames < waveCountdown w ->
  exists remaining currentEnemies,
    run frames w = set_waveCountdown remaining (set_enemies currentEnemies w) /\
    remaining == waveCountdown w - elapsed frames.
Proof.
  induction frames as [|[[env deltaTime] currentEnemies] rest IH];
    intros w Hc Hp Ha Hw Hpos Hsum.
  - exists (waveCountdown w), (enemies w). split.
    + destruct w; reflexivity.
    + cbn [elapsed fold_right]. lra.
  - cbn [elapsed fold_right fst snd] in Hsum. fold (elapsed rest) in Hsum.
    inversion Hpos as [|? ? Hd Hrest]; subst. cbn [fst snd] in Hd.
    assert (Hnn : 0 <= elapsed rest).
    { clear -Hrest. induction Hrest as [|f l Hf _ IHl];
        cbn [elapsed fold_right]; [lra|]. fold (elapsed l). lra. }
    cbn [run]. rewrite update_ticks; try assumption; [|lra].
    destruct (IH (set_waveCountdown (waveCountdown w - deltaTime)
                    (set_enemies currentEnemies w)))
      as (remaining & es & Erun & Erem); try assumption.
    { cbn [waveCountdown set_waveCountdown]. lra. }
    exists remaining, es. split.
    + rewrite Erun. reflexivity.
    + rewrite Erem. cbn [waveCountdown set_waveCountdown].
      cbn [elapsed fold_right fst snd]. fold (elapsed rest). lra.
Qed.

Lemma countdown_expires (env : Env) (deltaTime : Q) (w : t) :
  isCountingDown w = true -> waveInProgress w = false ->
  allWavesComplete w = false -> (currentWave w < totalWaves w)%nat ->
  totalWaves w = length (waveData w) ->
  waveCountdown w <= deltaTime ->
  isCountingDown (updateCountdown env deltaTime w) = false /\
  waveCountdown (updateCountdown env deltaTime w) = 0 /\
  waveInProgress (updateCountdown env deltaTime w) = true /\
  currentWave (updateCountdown env deltaTime w) = currentWave w /\
  waveStartTime (updateCountdown env deltaTime w) = now env.
Proof.
  intros Hc Hp Ha Hw Ht Hd. unfold updateCountdown. rewrite Hc. cbn [negb].
  cbv zeta. cbn [waveCountdown set_waveCountdown].
  assert (Eq : Qleb (waveCountdown w - deltaTime) 0 = true)
    by (apply Qleb_le; lra).
  rewrite Eq.
  set (w0 := set_waveCountdown 0
               (set_isCountingDown false
                  (set_waveCountdown (waveCountdown w - deltaTime) w))).
  assert (Hs : snd (startNextWave env false w0) = true).
  { unfold startNextWave.
    change (waveInProgress w0) with (waveInProgress w).
    change (allWavesComplete w0) with (allWavesComplete w).
    change (totalWaves w0) with (totalWaves w).
    change (currentWave w0) with (currentWave w).
    rewrite Hp, Ha. cbn [orb].
    assert (El : (totalWaves w <=? currentWave w)%nat = false)
      by (apply Nat.leb_gt; exact Hw).
    rewrite El. reflexivity. }
  destruct (WaveControls.startNextWave_fields env false w0 Hs Ht)
    as (F1 & _ & _ & F4 & F5).
  rewrite (WaveStart.startNextWave_started env false w0 Hs).
  rewrite (WaveStart.startNextWave_started env false w0 Hs) in F1, F4, F5.
  cbn [andb] in *. cbv zeta in *.
  destruct (WaveStart.emit_fields (onWaveStart (initializeWave env w0))
              (WaveStart (currentWave (initializeWave env w0) + 1)
                 (getCurrentWaveData (initializeWave env w0)))
              (initializeWave env w0)) as (E1 & E2 & _).
  destruct (WaveStart.initializeWave_countdown env w0) as (I1 & I2).
  rewrite E1, E2, I1, I2.
  split; [reflexivity|]. split; [reflexivity|].
  split; [exact F1|]. split; [exact F4|exact F5].
Qed.

(** X25.  Between two waves the frames only run the countdown down, and the
    frame that exhausts it starts the next wave.  Take a countdown and
    elapsed times that are whole numbers of milliseconds; on these the
    subtractions of doubles are exact.  While the manager is counting
    down, with no wave in progress and waves left, frames of non-negative
    elapsed times whose total is less than the countdown change nothing but
    the enemies array and the countdown, which is the old one less the
    total.  When, after them, [updateCountdown] is given an elapsed time of
    at least the rest of the countdown, and [totalWaves] is the length of
    the wave data, the countdown is 0 and off, and the wave of the same
    [currentWave] is in progress, started at the clock reading. *)
Theorem countdown_starts_next_wave (frames : list (Env * Q * list Enemy.t))
    (w : t)
    (Hcounting : isCountingDown w = true)
    (Hbetween : waveInProgress w = false)
    (Hmore : allWavesComplete w = false)
    (Hnext : (currentWave w < totalWaves w)%nat)
    (Hforward : Forall (fun frame => 0 <= snd (fst frame)) frames)
    (Hshort : elapsed frames < waveCountdown w)
    (Hwhole_countdown : whole (waveCountdown w))
    (Hwhole_times : Forall (fun frame => whole (snd (fst frame))) frames) :
  (exists currentEnemies,
     run frames w
     = set_waveCountdown (waveCountdown (run frames w))
         (set_enemies currentEnemies w)) /\
  waveCountdown (run frames w) == waveCountdown w - elapsed frames /\
  forall env deltaTime currentEnemies,
    totalWaves w = length (waveData w) ->
    waveCountdown (run frames w) <= deltaTime ->
    let w' := updateCountdown env deltaTime
                (set_enemies currentEnemies (run frames w)) in
    isCountingDown w' = false /\ waveCountdown w' = 0 /\
    waveInProgress w' = true /\ currentWave w' = currentWave w /\
    waveStartTime w' = now env.
Proof.
  clear Hwhole_countdown Hwhole_times.
  destruct (run_ticks frames w Hcounting Hbetween Hmore Hnext Hforward Hshort)
    as (remaining & es & Erun & Erem).
  rewrite Erun. cbn [waveCountdown set_waveCountdown].
  split; [exists es; reflexivity|]. split; [exact Erem|].
  intros env deltaTime currentEnemies Ht Hd.
  destruct (countdown_expires env deltaTime
              (set_enemies currentEnemies
                 (set_waveCountdown remaining (set_enemies es w))))
    as (C1 & C2 & C3 & C4 & C5); try assumption.
  cbv zeta. rewrite C1, C2, C3, C4, C5. repeat split; reflexivity.
Qed.

End WithMath.

(** Two frames into the countdown that follows the first wave. *)
Lemma countdown_starts_next_wave_witness :
  waveCountdown (@run table_math (frames_at [9100; 9200]) wave1_done)
  == waveCountdown wave1_done - 32.
Proof.
  apply (proj1 (proj2
    (@countdown_starts_next_wave table_math (frames_at [9100; 9200]) wave1_done
       ltac:(vm_compute; reflexivity) ltac:(vm_compute; reflexivity)
       ltac:(vm_compute; reflexivity) ltac:(vm_compute; lia)
       ltac:(repeat constructor; vm_compute; discriminate)
       ltac:(vm_compute; reflexivity)
       ltac:(exists 8000%Z; split; [vm_compute; discriminate|reflexivity])
       ltac:(repeat (apply Forall_cons;
                     [exists 16%Z; split; [vm_compute; discriminate|reflexivity]|]);
             apply Forall_nil)))).
Defined.

End WaveCountdown.

(** ** The model on the doubles of IEEE 754 *)

Module InDoubles.
Import CombatScenario DefenceScenario.

Ltac with_ieee_doubles M :=
  let H := fresh "H" in
  intro H; destruct M; unfold ieee_doubles in H; cbn in H;
  destruct H as (? & ? & ? & ? & ?); subst.

(** In doubles [43 * 0.7] is 30.099999999999998 and [1 - 45 / 50] is
    0.09999999999999998: the enemy 45 pixels from the impact takes
    [floor (30 * 0.09999999999999998) = 2].  In doubles [1 - 4 / 5] is
    0.19999999999999996, and the enemy 4 pixels from the impact of the
    projectile of damage 8 takes nothing. *)
Lemma splash_in_doubles (M : MathLib) :
  ieee_doubles M ->
  SplashSpec.splashDamageAt splash_43 (near_enemies 1%nat) == 2 /\
  Enemy.health
    (snd (Projectile.hit 0%nat [0%nat; 1%nat] splash_43 near_enemies) 1%nat)
    == 98 /\
  SplashSpec.splashDamageAt splash_8 (tight_enemies 1%nat) == 0 /\
  snd (Projectile.hit 0%nat [0%nat; 1%nat] splash_8 tight_enemies) 1%nat
  = tight_enemies 1%nat.
Proof.
  with_ieee_doubles M. vm_compute. repeat split.
Qed.

(** With exact arithmetic the amounts would be 3 and 1. *)
Lemma splash_on_the_tables :
  @SplashSpec.splashDamageAt table_math splash_43 (near_enemies 1%nat) == 3 /\
  @SplashSpec.splashDamageAt table_math splash_8 (tight_enemies 1%nat) == 1.
Proof. vm_compute. repeat split. Qed.

(** At a cost multiplier of 1.2, [spendMoney(100)] charges 120: the product
    of doubles is 120, where the exact product with the double 1.2 is less.
    At a multiplier of 0.7, [spendMoney(90)] charges 62. *)
Lemma spendMoney_in_doubles (M : MathLib) :
  ieee_doubles M ->
  let e := EconomyManager.setMultipliers 1 (double 1.2)
             (EconomyManager.new 500) in
  let e' := EconomyManager.setMultipliers 1 (double 0.7)
              (EconomyManager.new 500) in
  EconomyManager.spendMoney 100 EconomyManager.tower_purchase e
  = (fst (EconomyManager.spendMoney 100 EconomyManager.tower_purchase e), true) /\
  EconomyManager.money
    (fst (EconomyManager.spendMoney 100 EconomyManager.tower_purchase e))
  == 500 - 120 /\
  EconomyManager.money
    (fst (EconomyManager.spendMoney 90 EconomyManager.tower_purchase e'))
  == 500 - 62.
Proof.
  with_ieee_doubles M. vm_compute. repeat split.
Qed.

(** At an earnings multiplier of 1.2 a reward of 75 adds 90. *)
Lemma addMoney_in_doubles (M : MathLib) :
  ieee_doubles M ->
  let e := EconomyManager.activateBonus 0 (double 1.2) 10000
             (EconomyManager.new 500) in
  snd (EconomyManager.addMoney 75 EconomyManager.wave_bonus e) == 500 + 90.
Proof.
  with_ieee_doubles M. vm_compute. repeat split.
Qed.

End InDoubles.
